(** * For_valentines: the interaction scripting engine, embedded in Rocq

    A shallow embedding of the data-driven interaction engine of the game
    (property tables, FlagKey codec, GameState accessors, DialogueBox state
    machine, interaction runner and effect applier, walk-in trigger zones,
    NPC waypoint mover, per-frame clock) together with the properties the
    specification states about them.

    Conventions of the embedding.
    - A JavaScript object used as a dictionary is a [gmap string _].
    - Property values are the scalars Tiled exports: booleans, integers and
      strings, plus [undefined] and [null].  Counters and scores are
      integers ([Z]); a [Number(..)] that yields NaN is [None].
    - Geometry (positions, distances) and clock values are real numbers
      ([R]): the idealisation of JavaScript doubles without rounding.
    - Rendering, audio and physics calls are recorded as events in a log
      when a property talks about them and are otherwise left out. *)

From Stdlib Require Import ZArith String Ascii List Bool Lia Reals Lra.
From stdpp Require Import gmap strings list fin_maps pretty.

Local Open Scope Z_scope.
Local Open Scope string_scope.
Local Open Scope list_scope.

(** ** JavaScript scalars and the conversions the engine relies on *)

Module Js.

Inductive JsVal : Type :=
| VUndef
| VNull
| VBool (b : bool)
| VNum (n : Z)
| VStr (s : string).

Global Instance JsVal_eq_dec : EqDecision JsVal.
Proof. solve_decision. Defined.

(** [v === undefined] *)
Definition isUndefined (v : JsVal) : bool :=
  match v with VUndef => true | _ => false end.

(** [a ?? b] *)
Definition nullish (a b : JsVal) : JsVal :=
  match a with VUndef | VNull => b | _ => a end.

(** [String(v)] *)
Definition String_ (v : JsVal) : string :=
  match v with
  | VUndef => "undefined"
  | VNull => "null"
  | VBool true => "true"
  | VBool false => "false"
  | VNum n => pretty n
  | VStr s => s
  end.

(** [s.trim()], for the ASCII white space characters. *)
Fixpoint trimStart (s : string) : string :=
  match s with
  | String a s' => if Ascii.is_space a then trimStart s' else s
  | EmptyString => EmptyString
  end.

Definition trim (s : string) : string :=
  String.rev (trimStart (String.rev (trimStart s))).

(** [s.toLowerCase()], for the ASCII letters. *)
Definition lowerAscii (a : ascii) : ascii :=
  let n := nat_of_ascii a in
  if ((65 <=? n) && (n <=? 90))%nat then ascii_of_nat (n + 32) else a.

Fixpoint toLowerCase (s : string) : string :=
  match s with
  | String a s' => String (lowerAscii a) (toLowerCase s')
  | EmptyString => EmptyString
  end.

(** Truthiness of a scalar: [!!v]. *)
Definition truthy (v : JsVal) : bool :=
  match v with
  | VUndef | VNull | VBool false | VNum 0 | VStr EmptyString => false
  | _ => true
  end.

(** Truthiness of a string: [!!s]. *)
Definition nonEmpty (s : string) : bool :=
  match s with EmptyString => false | _ => true end.

(** [v === true || String(v ?? "").toLowerCase() === "true"], the test the
    engine uses for boolean properties that may arrive as strings. *)
Definition isTrueish (v : JsVal) : bool :=
  match v with
  | VBool true => true
  | _ => bool_decide (toLowerCase (String_ (nullish v (VStr ""))) = "true")
  end.

(** [v === true] *)
Definition isTrue (v : JsVal) : bool :=
  match v with VBool true => true | _ => false end.

(** Decimal integer literals, the numeric strings of the integer model. *)
Fixpoint parseDigits (s : string) (acc : Z) : option Z :=
  match s with
  | EmptyString => Some acc
  | String a s' =>
      match Ascii.is_nat a with
      | Some d => parseDigits s' (10 * acc + Z.of_nat d)
      | None => None
      end
  end.

Definition parseInteger (s : string) : option Z :=
  match s with
  | EmptyString => Some 0
  | String "-" (String a r) => Z.opp <$> parseDigits (String a r) 0
  | String "+" (String a r) => parseDigits (String a r) 0
  | String "-" EmptyString | String "+" EmptyString => None
  | _ => parseDigits s 0
  end.

(** [Number(v)]; [None] is NaN.  Strings are read as signed decimal
    integers after trimming; other numeric spellings (fractions, exponents,
    hexadecimal) are not integers and lie outside this model. *)
Definition Number_ (v : JsVal) : option Z :=
  match v with
  | VUndef => None
  | VNull => Some 0
  | VBool true => Some 1
  | VBool false => Some 0
  | VNum n => Some n
  | VStr s => parseInteger (trim s)
  end.

(** [Number(v) || d]: NaN and 0 both fall through to [d]. *)
Definition numberOr (v : JsVal) (d : Z) : Z :=
  match Number_ v with
  | Some 0 | None => d
  | Some n => n
  end.

(** [clampInt(n, min, max)] of the scene module. *)
Definition clampInt (v : JsVal) (lo hi : Z) : Z :=
  let x := default 0 (Number_ v) in
  Z.max lo (Z.min hi x).

(** [s.startsWith(p)] *)
Fixpoint startsWith (p s : string) : bool :=
  match p, s with
  | EmptyString, _ => true
  | String a p', String b s' => bool_decide (a = b) && startsWith p' s'
  | String _ _, EmptyString => false
  end.

(** [s.split(",")] *)
Fixpoint splitComma (cur : string) (s : string) : list string :=
  match s with
  | EmptyString => [String.rev cur]
  | String a s' =>
      if bool_decide (a = ","%char)
      then String.rev cur :: splitComma EmptyString s'
      else splitComma (String a cur) s'
  end.

(** [s.indexOf(c)] for a one-character [c]; [None] is -1. *)
Fixpoint indexOfChar (c : ascii) (s : string) : option nat :=
  match s with
  | EmptyString => None
  | String a s' => if bool_decide (a = c) then Some O else S <$> indexOfChar c s'
  end.

(** [s.slice(0, n)] and [s.slice(n)] *)
Definition sliceTo (n : nat) (s : string) : string := substring 0 n s.
Definition sliceFrom (n : nat) (s : string) : string :=
  substring n (String.length s - n) s.

(** [s.includes(sub)] *)
Fixpoint includes (sub s : string) : bool :=
  startsWith sub s ||
  match s with
  | EmptyString => false
  | String _ s' => includes sub s'
  end.

(** [s.replace(/\d+$/, "")]: drop the trailing digits. *)
Fixpoint dropLeadingDigits (s : string) : string :=
  match s with
  | String a s' =>
      match Ascii.is_nat a with
      | Some _ => dropLeadingDigits s'
      | None => s
      end
  | EmptyString => EmptyString
  end.

Definition stripTrailingDigits (s : string) : string :=
  String.rev (dropLeadingDigits (String.rev s)).

(** [s] with the prefix [p] removed, when [s] starts with [p]. *)
Fixpoint stripPrefix (p s : string) : option string :=
  match p, s with
  | EmptyString, _ => Some s
  | String a p', String b s' => if bool_decide (a = b) then stripPrefix p' s' else None
  | String _ _, EmptyString => None
  end.

(** The last character of a string: [s.at(-1)]. *)
Fixpoint lastChar (s : string) : option ascii :=
  match s with
  | EmptyString => None
  | String a EmptyString => Some a
  | String _ s' => lastChar s'
  end.

(** A string that does not begin with white space. *)
Definition trimmedStart (s : string) : Prop :=
  match s with EmptyString => True | String a _ => Ascii.is_space a = false end.

End Js.

(** ** Property tables (systems/TiledProps.js) *)

Module Props.
Import Js.

(** The table [parseProps] returns: lower-cased key to scalar. *)
Abbreviation PropTable := (gmap string JsVal).

(** [props[k]] *)
Definition get (props : PropTable) (k : string) : JsVal :=
  default VUndef (props !! k).

(** [k in props] *)
Definition has (props : PropTable) (k : string) : bool :=
  bool_decide (is_Some (props !! k)).

(** [parseProps(obj)] for the array-of-pairs form of [obj.properties]:
    later pairs overwrite earlier ones, pairs with a blank name are
    dropped. *)
Fixpoint parsePairs (raw : list (JsVal * JsVal)) (out : PropTable) : PropTable :=
  match raw with
  | [] => out
  | (name, value) :: rest =>
      let k := toLowerCase (trim (String_ (nullish name (VStr "")))) in
      if nonEmpty k then parsePairs rest (<[k := value]> out)
      else parsePairs rest out
  end.

Definition parseProps (raw : list (JsVal * JsVal)) : PropTable :=
  parsePairs raw ∅.

(** [splitCsv(v)] for scalar [v]. *)
Definition splitCsv (v : JsVal) : list string :=
  if truthy v
  then filter (λ s, nonEmpty s = true) (trim <$> splitComma EmptyString (String_ v))
  else [].

(** The i-th numbered key, [`${baseKey}${i}`]. *)
Definition numberedKey (baseKey : string) (i : nat) : string :=
  baseKey +:+ pretty i.

(** The loop [for (i = from; i <= from + n - 1; i++)] of [_getNumberedKeys]:
    stop at the first key whose value is [undefined]. *)
Fixpoint numberedRun (props : PropTable) (baseKey : string) (from n : nat)
  : list string :=
  match n with
  | O => []
  | S n' =>
      let k := numberedKey baseKey from in
      if isUndefined (get props k) then []
      else k :: numberedRun props baseKey (S from) n'
  end.

(** [_getNumberedKeys(props, baseKey)] (scene module): the loop runs
    for i = 2 .. 99. *)
Definition _getNumberedKeys (props : PropTable) (baseKey : string) : list string :=
  (if isUndefined (get props baseKey) then [] else [baseKey])
    ++ numberedRun props baseKey 2 98.

(** A line is kept by [_getNumberedPropLines] when
    [v !== undefined && String(v).trim()]. *)
Definition propLine (v : JsVal) : list string :=
  if isUndefined v then []
  else let t := trim (String_ v) in if nonEmpty t then [t] else [].

Fixpoint numberedLines (props : PropTable) (k0 : string) (from n : nat)
  : list string :=
  match n with
  | O => []
  | S n' =>
      let k := numberedKey k0 from in
      if has props k
      then propLine (get props k) ++ numberedLines props k0 (S from) n'
      else []
  end.

(** [_getNumberedPropLines(props, baseKey)] (systems/TiledInteractions.js):
    the loop runs for i = 2 .. 50. *)
Definition _getNumberedPropLines (props : PropTable) (baseKey : string) : list string :=
  let k0 := toLowerCase (trim baseKey) in
  if nonEmpty k0
  then propLine (get props k0) ++ numberedLines props k0 2 49
  else [].

End Props.

(** ** FlagKey codec *)

Module FlagKey.
Import Js.

(** [parts.join(sep)] on stringified parts. *)
Fixpoint join (sep : string) (parts : list string) : string :=
  match parts with
  | [] => ""
  | [p] => p
  | p :: rest => p +:+ sep +:+ join sep rest
  end.

(** [_flagKey(prefix, ...parts)] of the scene module:
    [`${prefix}__${parts.map((p) => String(p)).join("__")}`]. *)
Definition _flagKey (prefix : string) (parts : list JsVal) : string :=
  prefix +:+ "__" +:+ join "__" (String_ <$> parts).

(** [flagKey(...parts)] of systems/TiledInteractions.js:
    [parts.filter(Boolean).join("|")]. *)
Definition flagKey (parts : list JsVal) : string :=
  join "|" (String_ <$> filter (λ v, truthy v = true) parts).

(** The string does not contain the character [c]. *)
Fixpoint charFree (c : ascii) (s : string) : bool :=
  match s with
  | EmptyString => true
  | String a s' => negb (bool_decide (a = c)) && charFree c s'
  end.

(** The string is empty or begins with the character [c]. *)
Definition headIs (c : ascii) (r : string) : Prop :=
  match r with EmptyString => True | String a _ => a = c end.

(** The category literals the scene module passes to [_flagKey]. *)
Definition flagCategories : list string :=
  ["__collider_removed"; "__give_once"; "__int_forced_disabled";
   "__int_forced_enabled"; "__layer_init"; "__line_effect_once"; "__npcFlipY";
   "__npc_pos"; "__req_satisfied"; "__set_music_once"; "__take_once";
   "__tile_removed"].

(** The category [c'] is [c] followed by one underscore, or begins with
    [c] followed by the separator: the only way in which the separator
    that follows [c] can be read as part of [c']. *)
Definition catClash (c c' : string) : bool :=
  bool_decide (c' = c +:+ "_") || startsWith (c +:+ "__") c'.

(** The stringified part neither contains the separator of [_flagKey]
    nor ends with an underscore. *)
Definition partOk (s : string) : bool :=
  negb (includes "__" s) && negb (bool_decide (lastChar s = Some "_"%char)).

End FlagKey.

(** ** GameState, the shared session store (systems/GameState.js) *)

Module GS.
Import Js.

(** The fields the interaction engine reads and writes.  The nested
    object [flags.__sceneMusicOverride] is kept as a field of its own. *)
Record GameState : Type := mkGameState {
  score : Z;
  helpScore : Z;
  realTimeMs : R;
  interactLockUntil : Z;
  inventory : gmap string Z;
  counts : gmap string Z;
  disabled : gmap string bool;
  choices : gmap string Z;
  hiddenLayers : gmap string (gmap string bool);
  flags : gmap string JsVal;
  sceneMusicOverride : gmap string string;
  npcsHelped : gmap string JsVal;
}.

Definition setScore (v : Z) (g : GameState) : GameState :=
  mkGameState v (helpScore g) (realTimeMs g) (interactLockUntil g) (inventory g)
    (counts g) (disabled g) (choices g) (hiddenLayers g) (flags g)
    (sceneMusicOverride g) (npcsHelped g).
Definition setHelpScore (v : Z) (g : GameState) : GameState :=
  mkGameState (score g) v (realTimeMs g) (interactLockUntil g) (inventory g)
    (counts g) (disabled g) (choices g) (hiddenLayers g) (flags g)
    (sceneMusicOverride g) (npcsHelped g).
Definition setRealTimeMs (v : R) (g : GameState) : GameState :=
  mkGameState (score g) (helpScore g) v (interactLockUntil g) (inventory g)
    (counts g) (disabled g) (choices g) (hiddenLayers g) (flags g)
    (sceneMusicOverride g) (npcsHelped g).
Definition setInteractLockUntil (v : Z) (g : GameState) : GameState :=
  mkGameState (score g) (helpScore g) (realTimeMs g) v (inventory g)
    (counts g) (disabled g) (choices g) (hiddenLayers g) (flags g)
    (sceneMusicOverride g) (npcsHelped g).
Definition setInventory (v : gmap string Z) (g : GameState) : GameState :=
  mkGameState (score g) (helpScore g) (realTimeMs g) (interactLockUntil g) v
    (counts g) (disabled g) (choices g) (hiddenLayers g) (flags g)
    (sceneMusicOverride g) (npcsHelped g).
Definition setCounts (v : gmap string Z) (g : GameState) : GameState :=
  mkGameState (score g) (helpScore g) (realTimeMs g) (interactLockUntil g)
    (inventory g) v (disabled g) (choices g) (hiddenLayers g) (flags g)
    (sceneMusicOverride g) (npcsHelped g).
Definition setDisabled (v : gmap string bool) (g : GameState) : GameState :=
  mkGameState (score g) (helpScore g) (realTimeMs g) (interactLockUntil g)
    (inventory g) (counts g) v (choices g) (hiddenLayers g) (flags g)
    (sceneMusicOverride g) (npcsHelped g).
Definition setChoices (v : gmap string Z) (g : GameState) : GameState :=
  mkGameState (score g) (helpScore g) (realTimeMs g) (interactLockUntil g)
    (inventory g) (counts g) (disabled g) v (hiddenLayers g) (flags g)
    (sceneMusicOverride g) (npcsHelped g).
Definition setHiddenLayers (v : gmap string (gmap string bool)) (g : GameState)
  : GameState :=
  mkGameState (score g) (helpScore g) (realTimeMs g) (interactLockUntil g)
    (inventory g) (counts g) (disabled g) (choices g) v (flags g)
    (sceneMusicOverride g) (npcsHelped g).
Definition setFlags (v : gmap string JsVal) (g : GameState) : GameState :=
  mkGameState (score g) (helpScore g) (realTimeMs g) (interactLockUntil g)
    (inventory g) (counts g) (disabled g) (choices g) (hiddenLayers g) v
    (sceneMusicOverride g) (npcsHelped g).
Definition setSceneMusicOverride (v : gmap string string) (g : GameState)
  : GameState :=
  mkGameState (score g) (helpScore g) (realTimeMs g) (interactLockUntil g)
    (inventory g) (counts g) (disabled g) (choices g) (hiddenLayers g) (flags g)
    v (npcsHelped g).
Definition setNpcsHelped (v : gmap string JsVal) (g : GameState) : GameState :=
  mkGameState (score g) (helpScore g) (realTimeMs g) (interactLockUntil g)
    (inventory g) (counts g) (disabled g) (choices g) (hiddenLayers g) (flags g)
    (sceneMusicOverride g) v.

(** The initial store of the module (the named flags start [false] or
    [null]). *)
Definition initialFlags : gmap string JsVal :=
  list_to_map
    [("hasHairpin", VBool false); ("sagaPath", VNull); ("sagaJoined", VBool false);
     ("gladOutcome", VNull); ("aloiseFollowing", VBool false);
     ("aloiseParty", VBool false); ("aloiseForestIntroShown", VBool false);
     ("minesweeperCleared", VBool false); ("minesweeperBoardCleared", VBool false)].

Definition initial : GameState :=
  mkGameState 0 0 0%R 0 ∅ ∅ ∅ ∅ ∅ initialFlags ∅ ∅.

(** [addItem(item, count = 1)] *)
Definition addItem (item : string) (count : Z) (g : GameState) : GameState :=
  let k := trim item in
  if nonEmpty k
  then setInventory (<[k := default 0 (inventory g !! k) + count]> (inventory g)) g
  else g.

(** [removeItem(item, count = 1)] *)
Definition removeItem (item : string) (count : Z) (g : GameState) : GameState :=
  let k := trim item in
  if nonEmpty k
  then setInventory
         (<[k := Z.max 0 (default 0 (inventory g !! k) - count)]> (inventory g)) g
  else g.

(** [hasItem(item, count = 1)] *)
Definition hasItem (item : string) (count : Z) (g : GameState) : bool :=
  let k := trim item in
  if nonEmpty k then (count <=? default 0 (inventory g !! k))%Z else false.

(** [incrementInteractionCount(id)]: the new count and the new store. *)
Definition incrementInteractionCount (id : string) (g : GameState)
  : Z * GameState :=
  let k := trim id in
  if nonEmpty k
  then let n := default 0 (counts g !! k) + 1 in
       (n, setCounts (<[k := n]> (counts g)) g)
  else (0, g).

(** [disableInteraction(id)] *)
Definition disableInteraction (id : string) (g : GameState) : GameState :=
  let k := trim id in
  if nonEmpty k then setDisabled (<[k := true]> (disabled g)) g else g.

(** [isInteractionDisabled(id)] *)
Definition isInteractionDisabled (id : string) (g : GameState) : bool :=
  let k := trim id in
  if nonEmpty k then bool_decide (disabled g !! k = Some true) else false.

(** [setLayerHidden(sceneKey, layerName, hidden)] *)
Definition setLayerHidden (sceneKey layerName : string) (hidden : bool)
  (g : GameState) : GameState :=
  let sk := trim sceneKey in
  let ln := trim layerName in
  if nonEmpty sk && nonEmpty ln
  then setHiddenLayers
         (<[sk := <[ln := hidden]> (default ∅ (hiddenLayers g !! sk))]>
            (hiddenLayers g)) g
  else g.

(** [isLayerHidden(sceneKey, layerName)] *)
Definition isLayerHidden (sceneKey layerName : string) (g : GameState) : bool :=
  let sk := trim sceneKey in
  let ln := trim layerName in
  if nonEmpty sk && nonEmpty ln
  then match hiddenLayers g !! sk with
       | Some layers => bool_decide (layers !! ln = Some true)
       | None => false
       end
  else false.

(** [addHelp(n)] and [addScore(n)] for a finite number [n]. *)
Definition addHelp (n : Z) (g : GameState) : GameState :=
  setHelpScore (helpScore g + n) g.

Definition addScore (n : Z) (g : GameState) : GameState :=
  setScore (score g + n) g.

(** [markHelped(npcName, value = true)] *)
Definition markHelped (npcName : string) (g : GameState) : GameState :=
  let k := trim npcName in
  if nonEmpty k then setNpcsHelped (<[k := VBool true]> (npcsHelped g)) g else g.

(** [isHelped(npcName)] *)
Definition isHelped (npcName : string) (g : GameState) : bool :=
  truthy (default VUndef (npcsHelped g !! trim npcName)).

(** [lockInteract(scene, ms)] and [canWorldInteract(scene)] at time [now]. *)
Definition lockInteract (now ms : Z) (g : GameState) : GameState :=
  setInteractLockUntil (Z.max (interactLockUntil g) (now + ms)) g.

Definition canWorldInteract (now : Z) (g : GameState) : bool :=
  (interactLockUntil g <=? now)%Z.

(** [WORLD_END_MS] and [isWorldEnding()] *)
Definition WORLD_END_MS : R := 480000.

Definition isWorldEnding (g : GameState) : bool :=
  if Rle_dec WORLD_END_MS (realTimeMs g) then true else false.

(** [_getAnyFlag(key)] and [_setAnyFlag(key, value)] of the scene module. *)
Definition _getAnyFlag (key : string) (g : GameState) : JsVal :=
  default VUndef (flags g !! key).

Definition _setAnyFlag (key : string) (value : JsVal) (g : GameState) : GameState :=
  setFlags (<[key := value]> (flags g)) g.

End GS.

(** ** DialogueBox, the dialogue runner (systems/DialogueBox.js)

    The runner is a state machine over a script.  Closures stored in a
    script (action bodies, [onSelect] handlers) and the completion callback
    are values of a type [K]; running one is recorded as a [Call] in the
    list every operation returns, in call order.  Closures do not call back
    into the box.  Timestamps are whole milliseconds.  Text objects, the
    cursor and tracked sounds are presentation and are left out. *)

Module DialogueBox.
Section Box.
Context {K : Type}.

Record ChoiceOption : Type := mkOption {
  otext : string;
  onext : option Z;          (* [Some n] when [typeof next === "number"] *)
  oonSelect : option K;
}.

Inductive Step : Type :=
| Say (speaker text : string)
| Pause (ms : Z)
| Choice (prompt : string) (options : list ChoiceOption) (onSelect : option K)
| Action (run : option K)
| End_
| Other.                     (* a hole, or an entry without a known type *)

Inductive Call : Type :=
| CallAction (k : K)
| CallStepOnSelect (k : K) (choiceIndex : Z)
| CallOptionOnSelect (k : K) (choiceIndex : Z)
| CallOnComplete (k : K)
| CallLockInteract (now ms : Z).

(** The looping timer of [_say] / [_choice]: its closure holds the counter
    [i] and, for a choice, the options to install. *)
Record TypingEvent : Type := mkTyping {
  tChoice : option (list ChoiceOption);
  ti : nat;
}.

Record Box : Type := mkBox {
  choiceConfirmDelayMs : Z;
  inputCooldownMs : Z;
  choiceConfirmReadyAt : Z;
  nextInputReadyAt : Z;
  active : bool;
  script : list Step;
  index : Z;
  onComplete : option K;
  isTyping : bool;
  fullText : string;
  visibleText : string;
  typingEvent : option TypingEvent;
  inChoice : bool;
  choiceIndex : Z;
  choiceOptions : list ChoiceOption;
  choiceStepOnSelect : option K;
  keyHandlersBound : bool;
  pendingPauses : nat;       (* outstanding [delayedCall]s of [_pause] *)
  visible : bool;
}.

(** The constructor, with the default options. *)
Definition new : Box :=
  mkBox 250 500 0 0 false [] 0 None false "" "" None false 0 [] None false 0%nat
    false.

Definition withIndex (i : Z) (b : Box) : Box :=
  mkBox (choiceConfirmDelayMs b) (inputCooldownMs b) (choiceConfirmReadyAt b)
    (nextInputReadyAt b) (active b) (script b) i (onComplete b) (isTyping b)
    (fullText b) (visibleText b) (typingEvent b) (inChoice b) (choiceIndex b)
    (choiceOptions b) (choiceStepOnSelect b) (keyHandlersBound b)
    (pendingPauses b) (visible b).

Definition withInChoice (v : bool) (b : Box) : Box :=
  mkBox (choiceConfirmDelayMs b) (inputCooldownMs b) (choiceConfirmReadyAt b)
    (nextInputReadyAt b) (active b) (script b) (index b) (onComplete b)
    (isTyping b) (fullText b) (visibleText b) (typingEvent b) v (choiceIndex b)
    (choiceOptions b) (choiceStepOnSelect b) (keyHandlersBound b)
    (pendingPauses b) (visible b).

Definition withChoiceIndex (v : Z) (b : Box) : Box :=
  mkBox (choiceConfirmDelayMs b) (inputCooldownMs b) (choiceConfirmReadyAt b)
    (nextInputReadyAt b) (active b) (script b) (index b) (onComplete b)
    (isTyping b) (fullText b) (visibleText b) (typingEvent b) (inChoice b) v
    (choiceOptions b) (choiceStepOnSelect b) (keyHandlersBound b)
    (pendingPauses b) (visible b).

Definition withOnComplete (v : option K) (b : Box) : Box :=
  mkBox (choiceConfirmDelayMs b) (inputCooldownMs b) (choiceConfirmReadyAt b)
    (nextInputReadyAt b) (active b) (script b) (index b) v (isTyping b)
    (fullText b) (visibleText b) (typingEvent b) (inChoice b) (choiceIndex b)
    (choiceOptions b) (choiceStepOnSelect b) (keyHandlersBound b)
    (pendingPauses b) (visible b).

Definition withPendingPauses (v : nat) (b : Box) : Box :=
  mkBox (choiceConfirmDelayMs b) (inputCooldownMs b) (choiceConfirmReadyAt b)
    (nextInputReadyAt b) (active b) (script b) (index b) (onComplete b)
    (isTyping b) (fullText b) (visibleText b) (typingEvent b) (inChoice b)
    (choiceIndex b) (choiceOptions b) (choiceStepOnSelect b)
    (keyHandlersBound b) v (visible b).

(** [_gateInput(ms)] and [_canAcceptInput()] at time [now]. *)
Definition _gateInputFor (now ms : Z) (b : Box) : Box :=
  mkBox (choiceConfirmDelayMs b) (inputCooldownMs b) (choiceConfirmReadyAt b)
    (Z.max (nextInputReadyAt b) (now + ms)) (active b) (script b) (index b)
    (onComplete b) (isTyping b) (fullText b) (visibleText b) (typingEvent b)
    (inChoice b) (choiceIndex b) (choiceOptions b) (choiceStepOnSelect b)
    (keyHandlersBound b) (pendingPauses b) (visible b).

Definition _gateInput (now : Z) (b : Box) : Box :=
  _gateInputFor now (inputCooldownMs b) b.

Definition _canAcceptInput (now : Z) (b : Box) : bool :=
  (nextInputReadyAt b <=? now)%Z.

(** [stop(callOnComplete)]: the field resets up to the final callback. *)
Definition stopFields (now : Z) (b : Box) : Box :=
  _gateInput now
    (mkBox (choiceConfirmDelayMs b) (inputCooldownMs b) (choiceConfirmReadyAt b)
       (nextInputReadyAt b) false (script b) (index b) (onComplete b) false
       "" "" None false (choiceIndex b) [] None false (pendingPauses b) false).

Definition stop (now : Z) (callOnComplete : bool) (b : Box) : Box * list Call :=
  let b1 := stopFields now b in
  match callOnComplete, onComplete b1 with
  | true, Some cb =>
      (withOnComplete None b1, [CallLockInteract now 240; CallOnComplete cb])
  | _, _ => (b1, [CallLockInteract now 240])
  end.

(** [_say(speaker, text)] *)
Definition _say (text : string) (b : Box) : Box :=
  mkBox (choiceConfirmDelayMs b) (inputCooldownMs b) (choiceConfirmReadyAt b)
    (nextInputReadyAt b) (active b) (script b) (index b) (onComplete b) true
    text "" (Some (mkTyping None 0)) (inChoice b) (choiceIndex b)
    (choiceOptions b) (choiceStepOnSelect b) (keyHandlersBound b)
    (pendingPauses b) (visible b).

(** [_choice(prompt, options, stepOnSelect)] *)
Definition _choice (prompt : string) (options : list ChoiceOption)
  (stepOnSelect : option K) (b : Box) : Box :=
  mkBox (choiceConfirmDelayMs b) (inputCooldownMs b) (choiceConfirmReadyAt b)
    (nextInputReadyAt b) (active b) (script b) (index b) (onComplete b) true
    prompt "" (Some (mkTyping (Some options) 0)) (inChoice b) (choiceIndex b)
    (choiceOptions b) stepOnSelect (keyHandlersBound b) (pendingPauses b)
    (visible b).

(** [_pause(ms)]: schedules the delayed call. *)
Definition _pause (b : Box) : Box :=
  withPendingPauses (S (pendingPauses b)) b.

(** [_runCurrentStep()] once the box is known to be active and [index] in
    range: [rest] is the script from [index] on.  Steps that do not block
    (actions, entries without a type) advance the index and go on. *)
Fixpoint runSteps (now : Z) (rest : list Step) (b : Box) : Box * list Call :=
  match rest with
  | [] => stop now true b
  | Other :: rest' => runSteps now rest' (withIndex (index b + 1) b)
  | Say _ text :: _ => (_say text (_gateInput now b), [])
  | Pause _ :: _ => (_pause b, [])
  | Choice prompt options sel :: _ =>
      (_choice prompt options sel (_gateInput now b), [])
  | Action run :: rest' =>
      let '(b', calls) := runSteps now rest' (withIndex (index b + 1) b) in
      (b', match run with Some k => CallAction k :: calls | None => calls end)
  | End_ :: _ => stop now true b
  end.

Definition _runCurrentStep (now : Z) (b : Box) : Box * list Call :=
  if negb (active b) then (b, [])
  else if (index b <? 0)%Z || (Z.of_nat (length (script b)) <=? index b)%Z
       then stop now true b
       else runSteps now (drop (Z.to_nat (index b)) (script b)) b.

(** [start(script, keys, onComplete = null)] *)
Definition started (now : Z) (scr : list Step) (cb : option K) (b : Box) : Box :=
  _gateInput now
    (mkBox (choiceConfirmDelayMs b) (inputCooldownMs b) (choiceConfirmReadyAt b)
       (nextInputReadyAt b) true scr 0 cb (isTyping b) (fullText b)
       (visibleText b) (typingEvent b) (inChoice b) (choiceIndex b)
       (choiceOptions b) (choiceStepOnSelect b) true (pendingPauses b) true).

Definition start (now : Z) (scr : list Step) (cb : option K) (b : Box)
  : Box * list Call :=
  let '(b1, c1) := stop now false b in
  let '(b2, c2) := _runCurrentStep now (started now scr cb b1) in
  (b2, c1 ++ c2).

(** The callback of the looping typing timer, fired at time [now]. *)
Definition typingTick (now : Z) (b : Box) : Box :=
  match typingEvent b with
  | None => b
  | Some ev =>
      if negb (active b) then b
      else
        let i := S (ti ev) in
        let vis := substring 0 i (fullText b) in
        if (String.length (fullText b) <=? i)%nat
        then
          match tChoice ev with
          | None =>
              mkBox (choiceConfirmDelayMs b) (inputCooldownMs b)
                (choiceConfirmReadyAt b) (nextInputReadyAt b) (active b)
                (script b) (index b) (onComplete b) false (fullText b) vis None
                (inChoice b) (choiceIndex b) (choiceOptions b)
                (choiceStepOnSelect b) (keyHandlersBound b) (pendingPauses b)
                (visible b)
          | Some options =>
              mkBox (choiceConfirmDelayMs b) (inputCooldownMs b)
                (Z.max (now + choiceConfirmDelayMs b) (now + inputCooldownMs b))
                (nextInputReadyAt b) (active b) (script b) (index b)
                (onComplete b) false (fullText b) vis None true 0 options
                (choiceStepOnSelect b) (keyHandlersBound b) (pendingPauses b)
                (visible b)
          end
        else
          mkBox (choiceConfirmDelayMs b) (inputCooldownMs b)
            (choiceConfirmReadyAt b) (nextInputReadyAt b) (active b) (script b)
            (index b) (onComplete b) (isTyping b) (fullText b) vis
            (Some (mkTyping (tChoice ev) i)) (inChoice b) (choiceIndex b)
            (choiceOptions b) (choiceStepOnSelect b) (keyHandlersBound b)
            (pendingPauses b) (visible b)
  end.

(** The delayed call of [_pause], when one is outstanding. *)
Definition pauseTimer (now : Z) (b : Box) : Box * list Call :=
  match pendingPauses b with
  | O => (b, [])
  | S n =>
      let b1 := withPendingPauses n b in
      if negb (active b1) then (b1, [])
      else _runCurrentStep now (withIndex (index b1 + 1) b1)
  end.

(** [_finishTypingInstant()] *)
Definition _finishTypingInstant (b : Box) : Box :=
  if negb (isTyping b) then b
  else
    mkBox (choiceConfirmDelayMs b) (inputCooldownMs b) (choiceConfirmReadyAt b)
      (nextInputReadyAt b) (active b) (script b) (index b) (onComplete b) false
      (fullText b) (fullText b) None (inChoice b) (choiceIndex b)
      (choiceOptions b) (choiceStepOnSelect b) (keyHandlersBound b)
      (pendingPauses b) (visible b).

(** [this.choiceOptions[this.choiceIndex]] *)
Definition chosenOption (b : Box) : option ChoiceOption :=
  if (choiceIndex b <? 0)%Z then None
  else choiceOptions b !! Z.to_nat (choiceIndex b).

(** The two [onSelect] handlers of a confirmed choice, step-level first. *)
Definition selectCalls (b : Box) (chosen : ChoiceOption) : list Call :=
  match choiceStepOnSelect b with
  | Some k => [CallStepOnSelect k (choiceIndex b)]
  | None => []
  end ++
  match oonSelect chosen with
  | Some k => [CallOptionOnSelect k (choiceIndex b)]
  | None => []
  end.

(** The index assignment of a confirmed choice. *)
Definition jumpTarget (b : Box) (chosen : ChoiceOption) : Z :=
  match onext chosen with
  | Some n => n
  | None => index b + 1
  end.

(** [_onZ], the confirm handler. *)
Definition _onZ (now : Z) (b : Box) : Box * list Call :=
  if negb (active b) then (b, [])
  else if negb (_canAcceptInput now b) then (b, [])
  else
    let b1 := _gateInput now b in
    let lock := [CallLockInteract now 240] in
    if isTyping b1 then (_gateInput now (_finishTypingInstant b1), lock)
    else if inChoice b1 then
      if (now <? choiceConfirmReadyAt b1)%Z then (b1, lock)
      else
        match chosenOption b1 with
        | None => (b1, lock)
        | Some chosen =>
            let b2 := withInChoice false (withIndex (jumpTarget b1 chosen) b1) in
            let '(b3, calls) := _runCurrentStep now b2 in
            (b3, lock ++ selectCalls b1 chosen ++ calls)
        end
    else
      let '(b3, calls) := _runCurrentStep now (withIndex (index b1 + 1) b1) in
      (b3, lock ++ calls).

(** [_onUp] and [_onDown]: the selection moves modulo the option count
    (with no option the index is left pointing at no option). *)
Definition moveChoice (now : Z) (delta : Z) (b : Box) : Box :=
  if negb (active b) || negb (inChoice b) then b
  else if negb (_canAcceptInput now b) then b
  else
    let n := Z.of_nat (length (choiceOptions b)) in
    let b1 := _gateInputFor now 120 b in
    withChoiceIndex (if (n =? 0)%Z then -1 else (choiceIndex b1 + delta + n) mod n) b1.

Definition _onUp (now : Z) (b : Box) : Box := moveChoice now (-1) b.
Definition _onDown (now : Z) (b : Box) : Box := moveChoice now 1 b.

(** [_onEsc] *)
Definition _onEsc (now : Z) (b : Box) : Box * list Call :=
  if negb (active b) then (b, []) else stop now false b.

(** What can happen to a box: calls of its public methods, key presses
    (delivered only while the handlers are bound) and timers firing. *)
Inductive Op : Type :=
| OpStart (scr : list Step) (cb : option K)
| OpStop (callOnComplete : bool)
| OpKeyZ
| OpKeyEsc
| OpKeyUp
| OpKeyDown
| OpTypingTick
| OpPauseTimer.

Definition exec (now : Z) (op : Op) (b : Box) : Box * list Call :=
  match op with
  | OpStart scr cb => start now scr cb b
  | OpStop c => stop now c b
  | OpKeyZ => if keyHandlersBound b then _onZ now b else (b, [])
  | OpKeyEsc => if keyHandlersBound b then _onEsc now b else (b, [])
  | OpKeyUp => if keyHandlersBound b then (_onUp now b, []) else (b, [])
  | OpKeyDown => if keyHandlersBound b then (_onDown now b, []) else (b, [])
  | OpTypingTick => (typingTick now b, [])
  | OpPauseTimer => pauseTimer now b
  end.

(** A run: operations with their times, in order. *)
Fixpoint run (ops : list (Z * Op)) (b : Box) : Box * list Call :=
  match ops with
  | [] => (b, [])
  | (now, op) :: ops' =>
      let '(b1, c1) := exec now op b in
      let '(b2, c2) := run ops' b1 in
      (b2, c1 ++ c2)
  end.

Definition isStart (op : Op) : bool :=
  match op with OpStart _ _ => true | _ => false end.

(** The completion callbacks among the calls, in order. *)
Fixpoint completions (calls : list Call) : list K :=
  match calls with
  | [] => []
  | CallOnComplete k :: rest => k :: completions rest
  | _ :: rest => completions rest
  end.

(** The confirm key reaches the choice branch of [_onZ] with the option
    [chosen] under the cursor: the handlers are bound, the box is active
    and accepts input, nothing is being typed and the confirm delay of
    the choice has passed. *)
Definition confirmReady (now : Z) (b : Box) (chosen : ChoiceOption) : Prop :=
  keyHandlersBound b = true ∧ active b = true ∧ _canAcceptInput now b = true
  ∧ isTyping b = false ∧ inChoice b = true
  ∧ (choiceConfirmReadyAt b ≤ now)%Z ∧ chosenOption b = Some chosen.

(** One [start] followed by a run. *)
Definition session (now : Z) (scr : list Step) (cb : option K)
  (ops : list (Z * Op)) (b : Box) : Box * list Call :=
  let '(b1, c1) := start now scr cb b in
  let '(b2, c2) := run ops b1 in
  (b2, c1 ++ c2).

Definition noStart (ops : list (Z * Op)) : bool :=
  forallb (λ p, negb (isStart (snd p))) ops.

(** What an operation may do to the completion callback: keep it without
    calling it, or call it once, clear it and leave the box stopped. *)
Definition callbackStep (b : Box) (r : Box * list Call) : Prop :=
  (completions (snd r) = [] ∧ onComplete (fst r) = onComplete b
   ∧ (active b = false → active (fst r) = false))
  ∨ (∃ k, onComplete b = Some k ∧ completions (snd r) = [k]
          ∧ onComplete (fst r) = None ∧ active (fst r) = false).

End Box.
Global Arguments ChoiceOption : clear implicits.
Global Arguments Step : clear implicits.
Global Arguments Call : clear implicits.
Global Arguments TypingEvent : clear implicits.
Global Arguments Box : clear implicits.

(** A small script with a choice, used to exercise the runner. *)
Definition demoOptions : list (ChoiceOption nat) :=
  [mkOption "Help her" (Some 2) None; mkOption "Walk away" (Some 4) (Some 7%nat)].

Definition demoScript : list (Step nat) :=
  [Choice "What now?" demoOptions None; End_; Say "Saga" "Thank you."; End_;
   Say "Saga" "Oh."; End_].

Definition demoBox : Box nat :=
  mkBox 250 500 0 0 true demoScript 0 (Some 1%nat) false "What now?" "What now?" None
    true 1 demoOptions None true 0 true.

Definition demoOps : list (Z * @Op nat) := [(1000, OpKeyZ); (2000, OpKeyZ)].

Definition demoSession : Box nat * list (Call nat) :=
  session 0 [Say "" "Hi."; End_] (Some 2%nat) demoOps demoBox.

End DialogueBox.

(** ** The interaction runner and effect applier (BaseExploreScene)

    Closures the runner hands to the dialogue box act on a [World]: the
    shared [GameState] plus the pieces of scene state that decide what is
    written to it.  Sounds, camera shake, music ducking, prompts and sprite
    changes are presentation and are left out; the optional delay of a
    pre-sound only postpones the body of the interaction and is not
    modelled. *)

Module Interaction.
Import Js Props GS FlagKey DialogueBox.

Record World : Type := mkWorld {
  gstate : GameState;
  interactableIds : list string;   (* ids of [this.interactables] *)
  colliderIds : list string;       (* keys of [this._colliderById] *)
  spawnedNpcIds : list string;     (* keys of [this._spawnedNpcsById] *)
}.

Definition Closure : Type := World → World.
Abbreviation Script := (list (Step Closure)).

Definition onGs (f : GameState → GameState) (w : World) : World :=
  mkWorld (f (gstate w)) (interactableIds w) (colliderIds w) (spawnedNpcIds w).

Definition setInteractableIds (l : list string) (w : World) : World :=
  mkWorld (gstate w) l (colliderIds w) (spawnedNpcIds w).
Definition setColliderIds (l : list string) (w : World) : World :=
  mkWorld (gstate w) (interactableIds w) l (spawnedNpcIds w).
Definition setSpawnedNpcIds (l : list string) (w : World) : World :=
  mkWorld (gstate w) (interactableIds w) (colliderIds w) l.

(** [this.interactables = this.interactables.filter((it) => it.id !== id)] *)
Definition dropInteractable (id : string) (w : World) : World :=
  setInteractableIds (filter (λ x, x ≠ id) (interactableIds w)) w.

(** What the scene is: its key, and which sound names resolve to a loaded
    audio key ([_resolveAudioKey] returns a non-empty string). *)
Record SceneCtx : Type := mkScene {
  sceneKey : string;
  audioResolves : string → bool;
}.

(** [String(props[k] ?? "").trim()] *)
Definition propStr (props : PropTable) (k : string) : string :=
  trim (String_ (nullish (get props k) (VStr ""))).

(** *** Speaker resolution and per-line meta actions *)

(** [_lineIndexFromKey(prefix, key)], for prefixes free of regular
    expression metacharacters. *)
Definition _lineIndexFromKey (p k : string) : Z :=
  if negb (nonEmpty p) || negb (nonEmpty k) then 1
  else if bool_decide (k = p) then 1
  else match stripPrefix p k with
       | Some (String a r) =>
           match parseDigits (String a r) 0 with
           | Some n => if (0 <? n)%Z then n else 1
           | None => 1
           end
       | _ => 1
       end.

(** [_resolveLineSpeaker(props, baseSpeaker, prefix, key)] *)
Definition _resolveLineSpeaker (props : PropTable) (baseSpeaker p k : string)
  : string :=
  let n := _lineIndexFromKey p k in
  let direct := propStr props (k +:+ "speaker") in
  if nonEmpty direct then direct
  else
    let numbered := propStr props (p +:+ pretty n +:+ "speaker") in
    if nonEmpty numbered then numbered
    else
      let group := propStr props (p +:+ "speaker") in
      if nonEmpty group then group else trim baseSpeaker.

(** [runOnceGuard(type, extra = "")] inside [_appendLineMetaActions]. *)
Definition lineOnceFlag (sc : SceneCtx) (id k type extra : string) : string :=
  _flagKey "__line_effect_once"
    [VStr (sceneKey sc); VStr id; VStr k; VStr type; VStr extra].

Definition runOnceGuard (sc : SceneCtx) (id k type extra : string)
  (g : GameState) : bool * GameState :=
  let flag := lineOnceFlag sc id k type extra in
  if isTrue (_getAnyFlag flag g) then (false, g)
  else (true, _setAnyFlag flag (VBool true) g).

(** The bodies of the action steps [_appendLineMetaActions] pushes. *)
Definition lineSfx (sc : SceneCtx) (id k : string) (sfxOnce : bool) : Closure :=
  onGs (λ g, if sfxOnce then snd (runOnceGuard sc id k "sfx" "" g) else g).

Definition lineGiveItem (sc : SceneCtx) (id k giveItem : string) (giveCount : Z)
  (giveOnce : bool) : Closure :=
  onGs (λ g,
    if giveOnce
    then let '(ok, g') := runOnceGuard sc id k "giveitem" giveItem g in
         if ok then addItem giveItem giveCount g' else g'
    else addItem giveItem giveCount g).

Definition lineAddHelp (sc : SceneCtx) (id k : string) (amt : Z) : Closure :=
  onGs (λ g,
    let '(ok, g') := runOnceGuard sc id k "addhelp" "" g in
    if ok then addHelp amt g' else g').

Definition lineAddScore (sc : SceneCtx) (id k : string) (amt : Z) : Closure :=
  onGs (λ g,
    let '(ok, g') := runOnceGuard sc id k "addscore" "" g in
    if ok then addScore amt g' else g').

(** [_appendLineMetaActions(interactionId, props, key, steps)]: the steps
    it appends. *)
Definition lineMetaActions (sc : SceneCtx) (interactionId : string)
  (props : PropTable) (key : string) : Script :=
  let id := trim interactionId in
  let k := trim key in
  if negb (nonEmpty id) || negb (nonEmpty k) then []
  else
    let sfxName := propStr props (k +:+ "sfx") in
    let sfxOnce := isTrueish (get props (k +:+ "sfxonce")) in
    let giveItem := propStr props (k +:+ "giveitem") in
    let giveCount :=
      match Number_ (get props (k +:+ "givecount")) with
      | Some n => if (0 <? n)%Z then n else 1
      | None => 1
      end in
    let giveOnce := isTrueish (get props (k +:+ "giveonce")) in
    let addHelpAmt := default 0 (Number_ (get props (k +:+ "addhelp"))) in
    let addScoreAmt := default 0 (Number_ (get props (k +:+ "addscore"))) in
    (if nonEmpty sfxName then [Action (Some (lineSfx sc id k sfxOnce))] else [])
    ++ (if nonEmpty giveItem
        then [Action (Some (lineGiveItem sc id k giveItem giveCount giveOnce))]
        else [])
    ++ (if (addHelpAmt =? 0)%Z then []
        else [Action (Some (lineAddHelp sc id k addHelpAmt))])
    ++ (if (addScoreAmt =? 0)%Z then []
        else [Action (Some (lineAddScore sc id k addScoreAmt))]).

(** One numbered line of a dialogue group: its meta actions, then the
    [say] step; a blank line contributes nothing. *)
Definition lineSteps (sc : SceneCtx) (props : PropTable) (baseSpeaker p : string)
  (interactionId : string) (k : string) : Script :=
  let text := propStr props k in
  if nonEmpty text
  then lineMetaActions sc interactionId props k
       ++ [Say (_resolveLineSpeaker props baseSpeaker p k) text]
  else [].

(** [_buildDialogueScriptFromPrefix(props, baseSpeaker, prefix, interactionId)] *)
Definition _buildDialogueScriptFromPrefix (sc : SceneCtx) (props : PropTable)
  (baseSpeaker prefix interactionId : string) : Script :=
  let p := trim prefix in
  if negb (nonEmpty p) then []
  else
    let keys := _getNumberedKeys props p in
    concat (lineSteps sc props baseSpeaker p interactionId <$> keys)
    ++ match keys with
       | [] => lineSteps sc props baseSpeaker p interactionId p
       | _ => []
       end.

(** [_buildSequenceScriptFromKeys(keys, props, baseSpeaker, start, end, id)] *)
Definition _buildSequenceScriptFromKeys (sc : SceneCtx) (keys : list string)
  (props : PropTable) (baseSpeaker : string) (startIndex1 endIndex1 : Z)
  (interactionId : string) : Script :=
  match keys with
  | [] => []
  | _ =>
      let len := Z.of_nat (length keys) in
      let start := Z.max 1 (if (startIndex1 =? 0)%Z then 1 else startIndex1) in
      let stop := Z.max start (Z.min len (if (endIndex1 =? 0)%Z then len else endIndex1)) in
      let slice := take (Z.to_nat stop - Z.to_nat (start - 1))
                        (drop (Z.to_nat (start - 1)) keys) in
      concat ((λ k, lineSteps sc props baseSpeaker (stripTrailingDigits k)
                      interactionId k) <$> slice)
  end.

(** *** Follower dialogue (systems/TiledInteractions.js) *)

(** [_truthy(v)] *)
Definition _truthy (v : JsVal) : bool :=
  isTrueish v || bool_decide (v = VNum 1) || bool_decide (v = VStr "1").

(** [_getFollowerStateFromGameState(gs)]: (aloise, saga). *)
Definition followerAloise (g : GameState) : bool :=
  _truthy (_getAnyFlag "aloiseFollowing" g) || _truthy (_getAnyFlag "aloiseJoined" g).
Definition followerSaga (g : GameState) : bool :=
  _truthy (_getAnyFlag "sagaJoined" g) || _truthy (_getAnyFlag "sagaFollowing" g).

(** [_parseSpeakerInline(line, defaultSpeaker)]: (speaker, text). *)
Definition _parseSpeakerInline (line defaultSpeaker : string) : string * string :=
  let s := trim line in
  if negb (nonEmpty s) then (defaultSpeaker, "")
  else match indexOfChar ":" s with
       | Some (S i) => (trim (sliceTo (S i) s), trim (sliceFrom (S (S i)) s))
       | _ => (defaultSpeaker, s)
       end.

(** [_selectFollowerBaseKey(gs, props, basePrefix)]: the base key, [""]
    when no follower dialogue applies. *)
Definition _selectFollowerBaseKey (g : GameState) (props : PropTable)
  (basePrefix : string) : string :=
  let aloise := followerAloise g in
  let saga := followerSaga g in
  let base0 := toLowerCase (trim basePrefix) in
  let base := if nonEmpty base0 then base0 else "followdialogue" in
  if negb (aloise || saga) then ""
  else
    let bothKey := "bothfollowers" +:+ base in
    let sagaKey := "sagafollower" +:+ base in
    let aloiseKey := "aloisefollower" +:+ base in
    if (aloise && saga) && bool_decide (_getNumberedPropLines props bothKey ≠ [])
    then bothKey
    else if saga && bool_decide (_getNumberedPropLines props sagaKey ≠ [])
    then sagaKey
    else if aloise && bool_decide (_getNumberedPropLines props aloiseKey ≠ [])
    then aloiseKey
    else if bool_decide (_getNumberedPropLines props base ≠ []) then base
    else "".

(** [hasFollowerDialogueProps(props)] *)
Definition isFollowerDialogueKey (k : string) : bool :=
  let key := toLowerCase k in
  startsWith "followdialogue" key
  || startsWith "aloisefollowerfollowdialogue" key
  || startsWith "sagafollowerfollowdialogue" key
  || startsWith "bothfollowersfollowdialogue" key
  || bool_decide (key = "followpausems").

Definition hasFollowerDialogueProps (props : PropTable) : bool :=
  existsb isFollowerDialogueKey (elements (dom props)).

(** The [say] steps of the follower lines. *)
Definition followerSay (defaultSpeaker line : string) : Script :=
  let '(speaker, text) := _parseSpeakerInline line defaultSpeaker in
  if nonEmpty text then [Say speaker text] else [].

(** [appendFollowerDialogue(scene, props, script, { basePrefix })] in its
    default replace mode: the script after the call. *)
Definition appendFollowerDialogue (g : GameState) (props : PropTable)
  (script : Script) (basePrefix : string) : Script :=
  let baseKey := _selectFollowerBaseKey g props basePrefix in
  if negb (nonEmpty baseKey) then script
  else
    match _getNumberedPropLines props baseKey with
    | [] => script
    | lines =>
        let pauseMs :=
          clampInt (nullish (get props "followpausems") (VNum 250)) 0 5000 in
        (if (0 <? pauseMs)%Z then [Pause pauseMs] else [])
        ++ concat (followerSay (propStr props "speaker") <$> lines)
    end.

(** *** Variant selection *)

(** [_hasFollower("Saga")] and [_hasFollower("Aloise")] *)
Definition hasSaga (g : GameState) : bool := isTrue (_getAnyFlag "sagaJoined" g).
Definition hasAloise (g : GameState) : bool :=
  isTrue (_getAnyFlag "aloiseFollowing" g).

(** [_selectDialogueVariantPrefix(props, basePrefix)] *)
Definition _selectDialogueVariantPrefix (g : GameState) (props : PropTable)
  (basePrefix : string) : string :=
  if (hasSaga g && hasAloise g)
     && bool_decide (_getNumberedKeys props ("bothfollowers" +:+ basePrefix) ≠ [])
  then "bothfollowers" +:+ basePrefix
  else if hasSaga g
          && bool_decide (_getNumberedKeys props ("sagafollower" +:+ basePrefix) ≠ [])
  then "sagafollower" +:+ basePrefix
  else if hasAloise g
          && bool_decide (_getNumberedKeys props ("aloisefollower" +:+ basePrefix) ≠ [])
  then "aloisefollower" +:+ basePrefix
  else basePrefix.

(** [_postHelpedKey(props)]; [""] stands for [null]. *)
Definition _postHelpedKey (props : PropTable) : string :=
  trim (String_
    (nullish (get props "posthelpedname")
       (nullish (get props "markhelped")
          (nullish (get props "speaker") (VStr ""))))).

(** *** Post-help dialogue *)

Inductive Outcome : Type :=
| NoDialogue
| StartDialogue (script : Script) (onComplete : option Closure)
| ChoiceInteraction (id : string).  (* handed over to [_runChoiceInteraction] *)

(** A completion callback that only ends music ducking. *)
Definition endDuckOnly : Closure := λ w, w.

(** [Number(GameState.interactions.choices[id] ?? 0) || 0] *)
Definition lastChoiceOf (id : string) (g : GameState) : Z :=
  default 0 (choices g !! id).

(** The post-dialogue group a helped interaction selects. *)
Definition postHelpPrefix (g : GameState) (props : PropTable) (id : string)
  : string :=
  let lastChoice := lastChoiceOf id g in
  let cand := "choice" +:+ pretty lastChoice +:+ "postdialogue" in
  let basePrefix :=
    if (0 <? lastChoice)%Z && bool_decide (_getNumberedKeys props cand ≠ [])
    then cand else "postdialogue" in
  _selectDialogueVariantPrefix g props basePrefix.

(** [`__postdlg_count|${this.scene.key}|${id}|${prefix}`] *)
Definition postDialogueCountKey (sc : SceneCtx) (id prefix : string) : string :=
  "__postdlg_count|" +:+ sceneKey sc +:+ "|" +:+ id +:+ "|" +:+ prefix.

(** [script[idx]] as the one-step script [[script[idx]]]. *)
Definition stepAt (script : Script) (idx : Z) : Script :=
  if (idx <? 0)%Z then [Other]
  else match script !! Z.to_nat idx with
       | Some st => [st]
       | None => [Other]
       end.

(** The branch of [_runTiledInteraction] taken when the interaction is
    already helped. *)
Definition runHelped (sc : SceneCtx) (props : PropTable) (id : string)
  (w : World) : World * Outcome :=
  let g := gstate w in
  let speaker := propStr props "speaker" in
  let sequenceDialogue := isTrueish (get props "sequencedialogue") in
  let prefix := postHelpPrefix g props id in
  let script := _buildDialogueScriptFromPrefix sc props speaker prefix id in
  let '(g1, script1) :=
    if negb sequenceDialogue && bool_decide (script ≠ [])
    then
      let k := postDialogueCountKey sc id prefix in
      let n := numberOr (nullish (_getAnyFlag k g) (VNum 0)) 0 + 1 in
      let idx := Z.min n (Z.of_nat (length script)) - 1 in
      (_setAnyFlag k (VNum n) g, stepAt script idx)
    else (g, script) in
  let w1 := onGs (λ _, g1) w in
  if bool_decide (script1 ≠ []) || hasFollowerDialogueProps props
  then (w1, StartDialogue
              (appendFollowerDialogue g1 props script1 "followdialogue" ++ [End_])
              (Some endDuckOnly))
  else (w1, NoDialogue).

(** *** Effects of an interaction *)

Definition forEach {A : Type} (f : A → World → World) (l : list A) (w : World)
  : World :=
  foldl (λ acc x, f x acc) w l.

(** [_setInteractionForcedDisabled] / [_setInteractionForcedEnabled] *)
Definition forcedDisabledFlag (sceneKey id : string) : string :=
  _flagKey "__int_forced_disabled" [VStr (trim sceneKey); VStr (trim id)].
Definition forcedEnabledFlag (sceneKey id : string) : string :=
  _flagKey "__int_forced_enabled" [VStr (trim sceneKey); VStr (trim id)].

Definition _setInteractionForcedDisabled (sceneKey id : string) (disabled : bool)
  (g : GameState) : GameState :=
  if disabled
  then _setAnyFlag (forcedEnabledFlag sceneKey id) (VBool false)
         (_setAnyFlag (forcedDisabledFlag sceneKey id) (VBool true) g)
  else _setAnyFlag (forcedDisabledFlag sceneKey id) (VBool false) g.

Definition _setInteractionForcedEnabled (sceneKey id : string) (enabled : bool)
  (g : GameState) : GameState :=
  if enabled
  then _setAnyFlag (forcedDisabledFlag sceneKey id) (VBool false)
         (_setAnyFlag (forcedEnabledFlag sceneKey id) (VBool true) g)
  else _setAnyFlag (forcedEnabledFlag sceneKey id) (VBool false) g.

(** [_isInteractionForcedDisabled] / [_isInteractionForcedEnabled] *)
Definition _isInteractionForcedDisabled (sceneKey id : string) (g : GameState) : bool :=
  isTrue (_getAnyFlag (forcedDisabledFlag sceneKey id) g).
Definition _isInteractionForcedEnabled (sceneKey id : string) (g : GameState) : bool :=
  isTrue (_getAnyFlag (forcedEnabledFlag sceneKey id) g).

(** [_parseInteractionTarget(raw, defaultSceneKey)]: (sceneKey, id). *)
Definition splitTarget (sep : ascii) (s : string) : option (string * string) :=
  match indexOfChar sep s with
  | Some (S i) =>
      let sk := trim (sliceTo (S i) s) in
      let id := trim (sliceFrom (S (S i)) s) in
      if nonEmpty sk && nonEmpty id then Some (sk, id) else None
  | _ => None
  end.

Definition _parseInteractionTarget (raw defaultSceneKey : string)
  : option (string * string) :=
  let s := trim raw in
  if negb (nonEmpty s) then None
  else match splitTarget ":" s with
       | Some t => Some t
       | None =>
           match splitTarget "|" s with
           | Some t => Some t
           | None =>
               match splitTarget "/" s with
               | Some t => Some t
               | None => Some (trim defaultSceneKey, s)
               end
           end
       end.

(** [_removeColliderById(cid)]: a known collider is destroyed and its
    removal persisted. *)
Definition _removeColliderById (sc : SceneCtx) (cid : string) (w : World) : World :=
  let key := trim cid in
  if negb (nonEmpty key) then w
  else if bool_decide (key ∈ colliderIds w)
  then onGs (_setAnyFlag (_flagKey "__collider_removed" [VStr (sceneKey sc); VStr key])
               (VBool true))
         (setColliderIds (filter (λ x, x ≠ key) (colliderIds w)) w)
  else w.

(** What [setSceneMusic(name, { persist })] writes to the store. *)
Definition setSceneMusic (sc : SceneCtx) (name : string) (persist : bool)
  (g : GameState) : GameState :=
  let name' :=
    match sceneMusicOverride g !! sceneKey sc with
    | Some o => if nonEmpty o then o else name
    | None => name
    end in
  if audioResolves sc name' && persist
  then setSceneMusicOverride (<[sceneKey sc := name']> (sceneMusicOverride g)) g
  else g.

(** [_clearSceneMusicOverride()] *)
Definition _clearSceneMusicOverride (sc : SceneCtx) (g : GameState) : GameState :=
  match sceneMusicOverride g !! sceneKey sc with
  | Some o =>
      if nonEmpty o
      then setSceneMusicOverride (delete (sceneKey sc) (sceneMusicOverride g)) g
      else g
  | None => g
  end.

(** The loop over [props.giveitemonce]. *)
Definition giveItemOnce (sc : SceneCtx) (id item : string) (g : GameState)
  : GameState :=
  let k := _flagKey "__give_once" [VStr (sceneKey sc); VStr id; VStr item] in
  if isTrue (_getAnyFlag k g) then g
  else
    let g1 := _setAnyFlag k (VBool true) (addItem item 1 g) in
    if bool_decide (toLowerCase (trim item) = "strawberry")
       && includes "strawberrybush" (toLowerCase id)
    then
      let base := default 0 (Number_ (_getAnyFlag "__strawberryBushes" g1)) in
      _setAnyFlag "__strawberryBushes" (VNum (Z.min 4 (base + 1))) g1
    else g1.

(** The loop over [props.takeitemonce]. *)
Definition takeItemOnce (sc : SceneCtx) (id item : string) (g : GameState)
  : GameState :=
  let k := _flagKey "__take_once" [VStr (sceneKey sc); VStr id; VStr item] in
  if isTrue (_getAnyFlag k g) then g
  else _setAnyFlag k (VBool true) (removeItem item 1 g).

(** The music block of [_applyInteractionEffects]. *)
Definition musicEffects (sc : SceneCtx) (id : string) (props : PropTable)
  (g : GameState) : GameState :=
  let g0 := if isTrueish (get props "clearmusicpersist")
            then _clearSceneMusicOverride sc g else g in
  let setOnceKey := propStr props "setmusiconce" in
  let setKey := propStr props "setmusic" in
  let pickKey := if nonEmpty setOnceKey then setOnceKey else setKey in
  if negb (nonEmpty pickKey) then g0
  else
    let persist := isTrueish (get props "setmusicpersist") in
    if nonEmpty setOnceKey
    then
      let onceFlag :=
        _flagKey "__set_music_once" [VStr (sceneKey sc); VStr id; VStr pickKey] in
      if isTrue (_getAnyFlag onceFlag g0) then g0
      else _setAnyFlag onceFlag (VBool true) (setSceneMusic sc pickKey persist g0)
    else setSceneMusic sc pickKey persist g0.

(** The loops over [disableinteractions] and [enableinteractions]. *)
Definition disableTarget (sc : SceneCtx) (tgtRaw : string) (w : World) : World :=
  match _parseInteractionTarget tgtRaw (sceneKey sc) with
  | None => w
  | Some (sk, tid) =>
      let w1 := onGs (_setInteractionForcedDisabled sk tid true) w in
      if bool_decide (sk = sceneKey sc) then dropInteractable tid w1 else w1
  end.

Definition enableTarget (sc : SceneCtx) (tgtRaw : string) (w : World) : World :=
  match _parseInteractionTarget tgtRaw (sceneKey sc) with
  | None => w
  | Some (sk, tid) =>
      onGs (λ g, _setInteractionForcedEnabled sk tid true
                   (_setInteractionForcedDisabled sk tid false g)) w
  end.

(** The closing block: [removeinteraction] and [once]. *)
Definition removalEffects (id : string) (props : PropTable) (w : World) : World :=
  let removeIds := splitCsv (get props "removeinteraction") in
  let once := isTrue (get props "once") in
  let w1 :=
    match removeIds with
    | [] => if once then onGs (disableInteraction id) w else w
    | _ => forEach (λ rid, onGs (disableInteraction rid)) removeIds w
    end in
  if once || bool_decide (id ∈ removeIds) then dropInteractable id w1 else w1.

(** [_applyInteractionEffects(id, props)], block by block in source order. *)
Definition _applyInteractionEffects (sc : SceneCtx) (id : string)
  (props : PropTable) (w : World) : World :=
  let sk := sceneKey sc in
  let w1 := onGs (musicEffects sc id props) w in
  let w2 :=
    if nonEmpty (propStr props "tileremovelayer") && bool_decide (id ∈ interactableIds w1)
    then onGs (_setAnyFlag (_flagKey "__tile_removed" [VStr sk; VStr id]) (VBool true)) w1
    else w1 in
  let w3 := forEach (λ l, onGs (setLayerHidden sk l true))
              (splitCsv (nullish (get props "hidelayer") (get props "hidelayers"))) w2 in
  let w4 := forEach (λ l, onGs (setLayerHidden sk l false))
              (splitCsv (nullish (get props "showlayer") (get props "showlayers"))) w3 in
  let w5 := forEach (λ item, onGs (addItem item 1)) (splitCsv (get props "giveitem")) w4 in
  let w6 := forEach (λ item, onGs (giveItemOnce sc id item))
              (splitCsv (get props "giveitemonce")) w5 in
  let w7 := forEach (λ item, onGs (takeItemOnce sc id item))
              (splitCsv (get props "takeitemonce")) w6 in
  let w8 := forEach (λ item, onGs (removeItem item 1))
              (splitCsv (get props "takeitem")) w7 in
  let w9 := forEach (_removeColliderById sc)
              (splitCsv (nullish (get props "removecollider")
                                 (get props "removecolliders"))) w8 in
  let w10 := if isUndefined (get props "helpscore") then w9
             else onGs (addHelp (numberOr (get props "helpscore") 0)) w9 in
  let w11 := if isUndefined (get props "addscore") then w10
             else onGs (addScore (numberOr (get props "addscore") 0)) w10 in
  let helpedName := propStr props "markhelped" in
  let w12 := if nonEmpty helpedName then onGs (markHelped helpedName) w11 else w11 in
  let w13 := forEach (λ f, if nonEmpty (trim f)
                           then onGs (_setAnyFlag (trim f) (VBool true)) else (λ x, x))
               (splitCsv (nullish (get props "setflags") (get props "setflag"))) w12 in
  let w14 := forEach (λ f, if nonEmpty (trim f)
                           then onGs (_setAnyFlag (trim f) (VBool false)) else (λ x, x))
               (splitCsv (nullish (get props "clearflags") (get props "clearflag"))) w13 in
  let w15 := forEach (disableTarget sc)
               (splitCsv (nullish (get props "disableinteractions")
                                  (get props "disableinteraction"))) w14 in
  let w16 := forEach (enableTarget sc)
               (splitCsv (nullish (get props "enableinteractions")
                                  (get props "enableinteraction"))) w15 in
  let w17 := if isTrueish (get props "disableself")
             then dropInteractable id (onGs (_setInteractionForcedDisabled sk id true) w16)
             else w16 in
  removalEffects id props w17.

(** *** Effects of a chosen option *)

(** [`choice${i}${suffix}`] *)
Definition choiceKey (i : nat) (suffix : string) : string :=
  "choice" +:+ pretty i +:+ suffix.

(** [_setFollowerFlag(name, enabled)] *)
Definition _setFollowerFlag (name : string) (enabled : bool) (g : GameState)
  : GameState :=
  let n := toLowerCase (trim name) in
  if negb (nonEmpty n) then g
  else if bool_decide (n = "saga") then _setAnyFlag "sagaJoined" (VBool enabled) g
  else if bool_decide (n = "aloise")
  then _setAnyFlag "aloiseFollowing" (VBool enabled) g
  else _setAnyFlag (n +:+ "following") (VBool enabled)
         (_setAnyFlag (n +:+ "joined") (VBool enabled) g).

(** [_setInteractionDisabled(id, disabled)] *)
Definition _setInteractionDisabled (id : string) (dis : bool) (g : GameState)
  : GameState :=
  let k := trim id in
  if negb (nonEmpty k) then g
  else if dis then setDisabled (<[k := true]> (disabled g)) g
  else setDisabled (delete k (disabled g)) g.

(** The once-guarded help score of a choice. *)
Definition choiceHelpScoreFlag (sc : SceneCtx) (id : string) (i : nat) : string :=
  "__choicehs__" +:+ sceneKey sc +:+ "__" +:+ id +:+ "__" +:+ pretty i.

Definition choiceHelpScore (sc : SceneCtx) (id : string) (props : PropTable)
  (i : nat) (g : GameState) : GameState :=
  let hsRaw := get props (choiceKey i "helpscore") in
  if isUndefined hsRaw then g
  else
    let hsKey := choiceHelpScoreFlag sc id i in
    if truthy (_getAnyFlag hsKey g) then g
    else
      let g1 := _setAnyFlag hsKey (VBool true) g in
      match Number_ hsRaw with
      | Some delta => if (delta =? 0)%Z then g1 else setHelpScore (helpScore g1 + delta) g1
      | None => g1
      end.

(** [_getSpawnedNpcByIdCaseInsensitive(npcId)] finds an NPC. *)
Definition spawnedNpcKnown (npcId : string) (w : World) : bool :=
  let want := toLowerCase (trim npcId) in
  nonEmpty want
  && (bool_decide (npcId ∈ spawnedNpcIds w)
      || existsb (λ k, bool_decide (toLowerCase (trim k) = want)) (spawnedNpcIds w)).

(** The flip of a target NPC, as far as it is persisted. *)
Definition choiceFlip (sc : SceneCtx) (props : PropTable) (i : nat) (w : World)
  : World :=
  let targetNpcRaw :=
    trim (String_
      (nullish (get props (choiceKey i "targetnpc"))
         (nullish (get props (choiceKey i "targetnpcid"))
            (nullish (get props (choiceKey i "target")) (VStr ""))))) in
  let flipRaw := get props (choiceKey i "flipnpcy") in
  let hasFlipNpcY := negb (isUndefined flipRaw) && nonEmpty (trim (String_ flipRaw)) in
  let flipNpcY := bool_decide (toLowerCase (String_ flipRaw) = "true") || isTrue flipRaw in
  let rotRaw := get props (choiceKey i "rotatenpcdeg") in
  let rotIs180 :=
    match (if isUndefined rotRaw then None else Number_ rotRaw) with
    | Some d => (Z.abs d mod 360 =? 180)%Z
    | None => false
    end in
  if nonEmpty targetNpcRaw && spawnedNpcKnown targetNpcRaw w
     && (if hasFlipNpcY then flipNpcY else rotIs180)
  then onGs (_setAnyFlag
               (_flagKey "__npcFlipY"
                  [VStr (sceneKey sc); VStr (toLowerCase (trim targetNpcRaw))])
               (VBool true)) w
  else w.

(** The opening blocks of [_applyChoiceEffects]: [markhelped], the record
    of the last choice, the selection counter and the follower changes. *)
Definition choiceStateEffects (sc : SceneCtx) (id : string) (props : PropTable)
  (i : nat) (w : World) : World :=
  let sk := sceneKey sc in
  let helped := propStr props (choiceKey i "markhelped") in
  let w1 := if nonEmpty helped then onGs (markHelped helped) w else w in
  let w2 := onGs (λ g, setChoices (<[id := Z.of_nat i]> (choices g)) g) w1 in
  let fxKey := "__choicefx__" +:+ sk +:+ "__" +:+ id +:+ "__" +:+ pretty i in
  let w3 := onGs (λ g, _setAnyFlag fxKey
                         (VNum (numberOr (nullish (_getAnyFlag fxKey g) (VNum 0)) 0 + 1))
                         g) w2 in
  let addFollower := propStr props (choiceKey i "addfollower") in
  let removeFollower := propStr props (choiceKey i "removefollower") in
  let w4 :=
    if nonEmpty addFollower
    then
      let npcId := trim (String_ (nullish (get props "npcid") (VStr addFollower))) in
      let wa := if nonEmpty npcId
                then setSpawnedNpcIds (filter (λ x, x ≠ npcId) (spawnedNpcIds w3))
                       (onGs (_setAnyFlag ("__npcRemoved__" +:+ npcId) (VBool true)) w3)
                else w3 in
      dropInteractable id
        (onGs (λ g, disableInteraction id (_setFollowerFlag addFollower true g)) wa)
    else w3 in
  if nonEmpty removeFollower
  then onGs (_setFollowerFlag removeFollower false) w4 else w4.

(** The closing blocks of [_applyChoiceEffects]: the NPC flip, the layer
    and collider lists and the enable and disable lists. *)
Definition choiceSceneEffects (sc : SceneCtx) (props : PropTable) (i : nat)
  (w : World) : World :=
  let sk := sceneKey sc in
  let w7 := choiceFlip sc props i w in
  let w8 := forEach (λ l, onGs (setLayerHidden sk l false))
              (splitCsv (nullish (get props (choiceKey i "showlayer"))
                                 (get props (choiceKey i "showlayers")))) w7 in
  let w9 := forEach (λ l, onGs (setLayerHidden sk l true))
              (splitCsv (nullish (get props (choiceKey i "hidelayer"))
                                 (get props (choiceKey i "hidelayers")))) w8 in
  let w10 := forEach (_removeColliderById sc)
               (splitCsv (nullish (get props (choiceKey i "removecollider"))
                                  (get props (choiceKey i "removecolliders")))) w9 in
  let w11 := forEach (λ e, onGs (_setInteractionDisabled e false))
               (splitCsv (nullish (get props (choiceKey i "enableinteractions"))
                                  (get props (choiceKey i "enableinteraction")))) w10 in
  forEach (λ d, onGs (_setInteractionDisabled d true))
    (splitCsv (nullish (get props (choiceKey i "disableinteractions"))
                       (get props (choiceKey i "disableinteraction")))) w11.

(** [_applyChoiceEffects(id, props, i)], block by block in source order;
    moving the NPC is scene state and is not part of the store. *)
Definition _applyChoiceEffects (sc : SceneCtx) (id : string) (props : PropTable)
  (i : nat) (w : World) : World :=
  choiceSceneEffects sc props i
    (onGs (choiceHelpScore sc id props i) (choiceStateEffects sc id props i w)).

(** *** The main interaction runner *)

(** The id [_runTiledInteraction] derives:
    [String(props.id ?? obj?.name ?? "").trim()]. *)
Definition interactionId (props : PropTable) (objName : JsVal) : string :=
  trim (String_ (nullish (get props "id") (nullish objName (VStr "")))).

(** Whether the requirement gate is consulted at all. *)
Definition shouldCheckRequires (sc : SceneCtx) (props : PropTable) (id : string)
  (g : GameState) : bool :=
  let helpedKeyPre := _postHelpedKey props in
  let isAlreadyHelped := nonEmpty helpedKeyPre && isHelped helpedKeyPre g in
  let requireOnce := isTrueish (get props "requiresitemonce") in
  let currentUses := default 0 (counts g !! id) in
  let skipRequiresIfHelped :=
    if isUndefined (get props "requiresitemskipifhelped") then true
    else isTrueish (get props "requiresitemskipifhelped") in
  let reqSatisfiedAlready :=
    isTrue (_getAnyFlag (_flagKey "__req_satisfied" [VStr (sceneKey sc); VStr id]) g) in
  negb reqSatisfiedAlready
  && negb (skipRequiresIfHelped && isAlreadyHelped)
  && negb (requireOnce && (0 <? currentUses)%Z).

(** The dialogue part of the body [runMain] once the use has been counted. *)
Definition runDialogue (sc : SceneCtx) (props : PropTable) (id : string)
  (useIndex : Z) (w : World) : World * Outcome :=
  let g := gstate w in
  let speaker := propStr props "speaker" in
  let loop := isTrue (get props "loopdialogue") in
  let sequenceDialogue := isTrueish (get props "sequencedialogue") in
  let dialoguePrefix := _selectDialogueVariantPrefix g props "dialogue" in
  let keys := _getNumberedKeys props dialoguePrefix in
  let len := Z.of_nat (length keys) in
  let endN :=
    match keys with
    | [] => 0
    | _ => clampInt (nullish (get props "enddialogue") (VNum len)) 1 len
    end in
  if bool_decide (keys = []) || isTrue (get props "nodialogue")
  then
    if hasFollowerDialogueProps props
    then (w, StartDialogue (appendFollowerDialogue g props [] "followdialogue" ++ [End_])
               (Some endDuckOnly))
    else (_applyInteractionEffects sc id props w, NoDialogue)
  else
    let lineIndex :=
      if loop then ((useIndex - 1) mod endN) + 1 else Z.min useIndex endN in
    if sequenceDialogue && negb loop
    then
      match _buildSequenceScriptFromKeys sc keys props speaker lineIndex endN id with
      | [] => (_applyInteractionEffects sc id props w, NoDialogue)
      | script =>
          (w, StartDialogue (script ++ [End_])
                (Some (_applyInteractionEffects sc id props)))
      end
    else
      let key := if (lineIndex =? 1)%Z then dialoguePrefix
                 else dialoguePrefix +:+ pretty lineIndex in
      let textLine :=
        trim (String_ (nullish (get props key)
                         (nullish (get props dialoguePrefix) (VStr "")))) in
      let isFinal := negb loop && (lineIndex =? endN)%Z in
      let script :=
        lineMetaActions sc id props key
        ++ [Say (_resolveLineSpeaker props speaker dialoguePrefix key) textLine] in
      (w, StartDialogue
            (appendFollowerDialogue g props script "followdialogue" ++ [End_])
            (Some (if isFinal then _applyInteractionEffects sc id props
                   else endDuckOnly))).

(** The delay by which a pre-sound defers the body [runMain]:
    [clampInt(props.presfxdelayms ?? 0, 0, 3000)] when [props.presfx] names
    a sound, 0 otherwise. *)
Definition preSfxDelay (props : PropTable) : Z :=
  if truthy (get props "presfx") && nonEmpty (trim (String_ (get props "presfx")))
  then clampInt (nullish (get props "presfxdelayms") (VNum 0)) 0 3000
  else 0.

(** [_runTiledInteraction(obj)]: the world after the call and what it
    asked the dialogue box to start; the body [runMain] is taken where it
    runs, which is within the call when [preSfxDelay] is 0. *)
Definition _runTiledInteraction (sc : SceneCtx) (props : PropTable)
  (objName : JsVal) (w : World) : World * Outcome :=
  let id := interactionId props objName in
  if negb (nonEmpty id) then (w, NoDialogue)
  else if isInteractionDisabled id (gstate w) then (w, NoDialogue)
  else
    let check := shouldCheckRequires sc props id (gstate w) in
    let missing :=
      existsb (λ item, negb (hasItem item 1 (gstate w)))
        (splitCsv (get props "requiresitem")) in
    if check && missing
    then
      let deny :=
        trim (String_ (nullish (get props "denydialogue")
                         (VStr "You can't do that yet."))) in
      (w, StartDialogue [Say "" deny; End_] None)
    else
      let w1 :=
        if check
        then onGs (_setAnyFlag (_flagKey "__req_satisfied" [VStr (sceneKey sc); VStr id])
                     (VBool true)) w
        else w in
      let helpedKey := _postHelpedKey props in
      if nonEmpty helpedKey && isHelped helpedKey (gstate w1)
      then runHelped sc props id w1
      else
        let '(useIndex, g2) := incrementInteractionCount id (gstate w1) in
        let w2 := onGs (λ _, g2) w1 in
        if nonEmpty (propStr props "choiceprompt")
           && nonEmpty (propStr props "choice1text")
        then (w2, ChoiceInteraction id)
        else runDialogue sc props id useIndex w2.







(** Two interactions marked [once], for the examples: a chest without
    dialogue, and a sign with two dialogue lines. *)
Definition chestScene : SceneCtx := mkScene "CityScene" (λ _, true).

Definition chestProps : PropTable :=
  list_to_map [("id", VStr "chest"); ("once", VBool true); ("giveitem", VStr "key");
               ("choice1helpscore", VNum 10)].

Definition signProps : PropTable :=
  list_to_map [("id", VStr "sign"); ("once", VBool true);
               ("dialogue", VStr "Closed."); ("dialogue2", VStr "Still closed.")].

Definition leverProps : PropTable :=
  list_to_map [("id", VStr "lever"); ("once", VBool true);
               ("removeinteraction", VStr "gate")].

Definition signWorld : World := mkWorld GS.initial ["sign"] [] [].

Definition chestWorld : World := mkWorld GS.initial ["chest"] [] [].




(** The global clock of a world. *)
Definition clockOf (w : World) : R := realTimeMs (gstate w).

End Interaction.

(** ** Comparisons and distances on real numbers *)

Module Geo.

Definition Rleb (a b : R) : bool := if Rle_dec a b then true else false.
Definition Rltb (a b : R) : bool := if Rlt_dec a b then true else false.
Definition Reqb (a b : R) : bool := if Req_dec_T a b then true else false.

(** [Math.hypot(dx, dy)] *)
Definition hypot (dx dy : R) : R := sqrt (dx * dx + dy * dy).

(** [x || 1] for a non-negative length [x]. *)
Definition orOne (x : R) : R := if Req_dec_T x 0 then 1%R else x.

End Geo.

(** ** Walk-in trigger zones (systems/AutoTriggerZones.js)

    Zone audio and music ducking are presentation and are left out.  What
    the evaluator does to layers, to the deny cooldown and to the player is
    modelled; the feedback of a deny zone is one [DenyFeedback] event. *)

Module Zones.
Import Js Props GS Interaction Geo.

(** An entry of [scene.interactables] made from a Tiled object. *)
Record Interactable : Type := mkIt {
  itProps : PropTable;     (* [parseProps(obj)] *)
  itName : JsVal;          (* [obj.name] *)
  itW : R;                 (* [Number(obj.width ?? it.w ?? 0)] *)
  itH : R;
  itCx : R;                (* [it.center.x] *)
  itCy : R;
}.

Inductive ZEvent : Type :=
| LayerVisible (name : string) (visible : bool)
| RanInteraction (id : string) (o : Outcome)
| DenyFeedback (id sfx : string) (shakeMs : Z) (dialogue : string).

Record ZScene : Type := mkZScene {
  zctx : SceneCtx;
  zworld : World;
  registry : list Interactable;
  layerNames : list string;            (* keys of [scene.layers] *)
  playerX : R;
  playerY : R;
  prevPlayerPos : option (R * R);
  denyCooldownUntil : option Z;        (* [None] is NaN *)
  triggerInside : gset string;
  triggerExitArmed : gset string;
  zlog : list ZEvent;
}.

Definition setZWorld (w : World) (z : ZScene) : ZScene :=
  mkZScene (zctx z) w (registry z) (layerNames z) (playerX z) (playerY z)
    (prevPlayerPos z) (denyCooldownUntil z) (triggerInside z)
    (triggerExitArmed z) (zlog z).
Definition setPlayer (x y : R) (z : ZScene) : ZScene :=
  mkZScene (zctx z) (zworld z) (registry z) (layerNames z) x y
    (prevPlayerPos z) (denyCooldownUntil z) (triggerInside z)
    (triggerExitArmed z) (zlog z).
Definition setPrevPlayerPos (p : option (R * R)) (z : ZScene) : ZScene :=
  mkZScene (zctx z) (zworld z) (registry z) (layerNames z) (playerX z)
    (playerY z) p (denyCooldownUntil z) (triggerInside z)
    (triggerExitArmed z) (zlog z).
Definition setDenyCooldownUntil (u : option Z) (z : ZScene) : ZScene :=
  mkZScene (zctx z) (zworld z) (registry z) (layerNames z) (playerX z)
    (playerY z) (prevPlayerPos z) u (triggerInside z) (triggerExitArmed z)
    (zlog z).
Definition setTrigger (inside armed : gset string) (z : ZScene) : ZScene :=
  mkZScene (zctx z) (zworld z) (registry z) (layerNames z) (playerX z)
    (playerY z) (prevPlayerPos z) (denyCooldownUntil z) inside armed (zlog z).
Definition logEvent (e : ZEvent) (z : ZScene) : ZScene :=
  mkZScene (zctx z) (zworld z) (registry z) (layerNames z) (playerX z)
    (playerY z) (prevPlayerPos z) (denyCooldownUntil z) (triggerInside z)
    (triggerExitArmed z) (zlog z ++ [e]).

(** [String(props.id ?? obj.name ?? "").trim()] *)
Definition zoneId (it : Interactable) : string :=
  interactionId (itProps it) (itName it).

Definition isTriggerZone (props : PropTable) : bool :=
  isTrue (get props "autofire") || isTrueish (get props "trigger").

Definition isDenyZone (props : PropTable) : bool :=
  isTrueish (get props "deny").

Definition isZoneLike (props : PropTable) : bool :=
  isTriggerZone props || isDenyZone props
  || nonEmpty (propStr props "zonesfx")
  || nonEmpty (propStr props "zonemusic")
  || nonEmpty (propStr props "zoneambience").

(** [px >= x0 && px <= x1 && py >= y0 && py <= y1] *)
Definition insideZone (px py : R) (it : Interactable) : bool :=
  let x0 := (itCx it - itW it / 2)%R in
  let y0 := (itCy it - itH it / 2)%R in
  let x1 := (x0 + itW it)%R in
  let y1 := (y0 + itH it)%R in
  Rleb x0 px && Rleb px x1 && Rleb y0 py && Rleb py y1.

(** [applyLayerVisibility(namesCsv, visible)] *)
Definition applyLayerVisibility (names : JsVal) (vis : bool) (z : ZScene) : ZScene :=
  foldl (λ acc lname,
           if bool_decide (lname ∈ layerNames acc)
           then logEvent (LayerVisible lname vis)
                  (setZWorld (onGs (setLayerHidden (sceneKey (zctx acc)) lname (negb vis))
                                (zworld acc)) acc)
           else acc)
        z (splitCsv names).

(** The enter-time run of the zone's own interaction script. *)
Definition zoneHasDialogue (props : PropTable) : bool :=
  nonEmpty (propStr props "dialogue")
  || existsb (λ k, startsWith "dialogue" (toLowerCase k)) (elements (dom props))
  || existsb (λ k, includes "postdialogue" (toLowerCase k)) (elements (dom props)).

Definition zoneHasFx (props : PropTable) : bool :=
  nonEmpty (trim (String_
              (nullish (get props "sfx")
                 (nullish (get props "presfx")
                    (nullish (get props "zonesfx") (VStr ""))))))
  || negb (isUndefined (get props "shake")).

Definition runZoneInteraction (it : Interactable) (z : ZScene) : ZScene :=
  let props := itProps it in
  if isTriggerZone props && (zoneHasDialogue props || zoneHasFx props)
  then let '(w', o) := _runTiledInteraction (zctx z) props (itName it) (zworld z) in
       logEvent (RanInteraction (zoneId it) o) (setZWorld w' z)
  else z.

(** [now >= (scene._denyCooldownUntil ?? 0)] *)
Definition denyReady (now : Z) (z : ZScene) : bool :=
  match denyCooldownUntil z with
  | Some u => (u <=? now)%Z
  | None => false
  end.

(** The position correction of a deny zone; [px], [py] are the player
    coordinates read at the start of the frame.  A [denyPush] that is not
    a number would make the position NaN; the model then keeps it. *)
Definition denyCorrect (px py : R) (it : Interactable) (z : ZScene) : ZScene :=
  let props := itProps it in
  let mode := toLowerCase (String_ (nullish (get props "denymode") (VStr "rewind"))) in
  if bool_decide (mode = "push")
  then
    match Number_ (nullish (get props "denypush") (VNum 12)) with
    | Some push =>
        let dx := (px - itCx it)%R in
        let dy := (py - itCy it)%R in
        let d := orOne (hypot dx dy) in
        setPlayer (px + dx / d * IZR push)%R (py + dy / d * IZR push)%R z
    | None => z
    end
  else
    match prevPlayerPos z with
    | Some (x, y) => setPlayer x y z
    | None => z
    end.

(** The deny block of the enter edge. *)
Definition denyBlock (now : Z) (px py : R) (it : Interactable) (z : ZScene)
  : ZScene :=
  let props := itProps it in
  if negb (isDenyZone props) then z
  else if negb (denyReady now z) then z
  else
    let cd := Number_ (nullish (get props "denycooldownms") (VNum 600)) in
    let z1 := setDenyCooldownUntil ((λ c, now + c) <$> cd) z in
    let shakeMs := default 0 (Number_ (nullish (get props "denyshakems") (VNum 0))) in
    let z2 := denyCorrect px py it z1 in
    let denyDialogue :=
      trim (String_ (nullish (get props "denydialogue")
                       (VStr "You can't go there."))) in
    logEvent (DenyFeedback (zoneId it) (propStr props "denysfx") shakeMs denyDialogue) z2.

(** One iteration of the loop over [scene.interactables]. *)
Definition processZone (now : Z) (px py : R) (it : Interactable) (z : ZScene)
  : ZScene :=
  let props := itProps it in
  let id := zoneId it in
  if negb (nonEmpty id) then z
  else if negb (isZoneLike props) then z
  else
    let inside := insideZone px py it in
    let wasInside := bool_decide (id ∈ triggerInside z) in
    if inside && negb wasInside
    then
      let z1 := setTrigger ({[id]} ∪ triggerInside z) ({[id]} ∪ triggerExitArmed z) z in
      let z2 := applyLayerVisibility
                  (nullish (get props "hidelayers") (get props "hidelayer")) false z1 in
      let z3 := applyLayerVisibility
                  (nullish (get props "showlayers") (get props "showlayer")) true z2 in
      let z4 := runZoneInteraction it z3 in
      let z5 := denyBlock now px py it z4 in
      if isTrueish (get props "triggeronce") || isTrueish (get props "once")
      then setZWorld (onGs (disableInteraction id) (zworld z5)) z5
      else z5
    else if negb inside && wasInside
    then
      let z1 := setTrigger (triggerInside z ∖ {[id]}) (triggerExitArmed z) z in
      if bool_decide (id ∈ triggerExitArmed z1)
      then
        let z2 := setTrigger (triggerInside z1) (triggerExitArmed z1 ∖ {[id]}) z1 in
        let z3 := applyLayerVisibility
                    (nullish (get props "exithidelayers") (get props "exithidelayer"))
                    false z2 in
        applyLayerVisibility
          (nullish (get props "exitshowlayers") (get props "exitshowlayer")) true z3
      else z1
    else z.

(** [updateAutoTriggerZones(scene)] at time [now]: the loop runs over the
    entries that are in [scene.interactables] when it starts. *)
Definition updateAutoTriggerZones (now : Z) (z : ZScene) : ZScene :=
  if negb (canWorldInteract now (gstate (zworld z))) then z
  else
    let px := playerX z in
    let py := playerY z in
    foldl (λ acc it, processZone now px py it acc) z
      (filter (λ it, zoneId it ∈ interactableIds (zworld z)) (registry z)).

(** The number of deny feedbacks in a log. *)
Definition isDenyFeedback (e : ZEvent) : bool :=
  match e with DenyFeedback _ _ _ _ => true | _ => false end.

Definition denyFeedbackCount (log : list ZEvent) : nat :=
  length (filter (λ e, isDenyFeedback e = true) log).

(** The enter edge: the zone is evaluated, the player (at the position
    read when the frame began) is inside and was not inside before. *)
Definition entersZone (px py : R) (it : Interactable) (z : ZScene) : Prop :=
  nonEmpty (zoneId it) = true ∧ isZoneLike (itProps it) = true
  ∧ insideZone px py it = true ∧ zoneId it ∉ triggerInside z.

(** Two scenes agree on what the deny block reads and writes. *)
Definition sameDenyView (z z' : ZScene) : Prop :=
  denyCooldownUntil z' = denyCooldownUntil z
  ∧ playerX z' = playerX z ∧ playerY z' = playerY z
  ∧ prevPlayerPos z' = prevPlayerPos z
  ∧ denyFeedbackCount (zlog z') = denyFeedbackCount (zlog z).

(** A deny zone around the origin that pushes back by 12: two pixels wide
    ([wallThin]) and thirty-two pixels wide ([wallBox]). *)
Definition wallProps : PropTable :=
  list_to_map [("id", VStr "wall"); ("deny", VBool true);
               ("denymode", VStr "push"); ("denypush", VNum 12)].

Definition wallThin : Interactable := mkIt wallProps (VStr "wall") 2 2 0 0.

Definition wallBox : Interactable := mkIt wallProps (VStr "wall") 32 32 0 0.

Definition emptyWorld : World := mkWorld GS.initial ["wall"] [] [].

(** A scene with one zone, the player at [(x, y)] and no deny so far. *)
Definition freshScene (it : Interactable) (x y : R) : ZScene :=
  mkZScene (mkScene "CityScene" (λ _, true)) emptyWorld [it] [] x y None
    (Some 0) ∅ ∅ [].

(** The scene once the player has left every zone again. *)
Definition afterLeaving (z : ZScene) : ZScene := setTrigger ∅ ∅ z.




End Zones.

(** ** The NPC waypoint mover (BaseExploreScene.updateMovingNpcs)

    The mover sets velocities and snaps positions; moving a body between
    two ticks is the physics engine's work and happens outside it. *)

Module Npc.
Import Js Geo.

Inductive Facing : Type := FLeft | FRight | FUp | FDown.

(** A spawned NPC: the sprite position, the velocity of its body, and
    which animation was last selected. *)
Record NpcObj : Type := mkNpc {
  isSprite : bool;
  hasRect : bool;
  sprX : R;
  sprY : R;
  velX : R;
  velY : R;
  facing : option Facing;
  defaultFacing : option Facing;
  shownFacing : Facing;
  walking : bool;
}.

(** The entry of [_movingNpcById]. *)
Record MoveState : Type := mkMove {
  points : list (R * R);
  idx : nat;
  speed : R;
  arriveDist : R;
  faceWhileMoving : bool;
  walkAnim : bool;
}.

Record NpcScene : Type := mkNpcScene {
  spawnedNpcsById : gmap string NpcObj;
  movingNpcById : gmap string MoveState;
}.

(** [npc.facing ?? npc.defaultFacing ?? "down"] *)
Definition restFacing (n : NpcObj) : Facing :=
  match facing n with
  | Some f => f
  | None => default FDown (defaultFacing n)
  end.

(** Stop the body and play the idle animation. *)
Definition halted (n : NpcObj) : NpcObj :=
  mkNpc (isSprite n) (hasRect n) (sprX n) (sprY n) 0 0 (facing n)
    (defaultFacing n) (restFacing n) false.

(** Snap to the target: [spr.x = target.x; spr.y = target.y; body.reset(..)]. *)
Definition snapped (tx ty : R) (n : NpcObj) : NpcObj :=
  mkNpc (isSprite n) (hasRect n) tx ty 0 0 (facing n) (defaultFacing n)
    (shownFacing n) (walking n).

(** [Math.max(6, Number(st.arriveDist) || 2)] *)
Definition arriveTolerance (st : MoveState) : R :=
  Rmax 6 (if Req_dec_T (arriveDist st) 0 then 2 else arriveDist st).

(** [Math.max(1, Number(st.speed) || 40)] *)
Definition moveSpeed (st : MoveState) : R :=
  Rmax 1 (if Req_dec_T (speed st) 0 then 40 else speed st).

(** The arrival test for the target [(tx, ty)]. *)
Definition arrived (st : MoveState) (tx ty : R) (n : NpcObj) : bool :=
  let dx := (tx - sprX n)%R in
  let dy := (ty - sprY n)%R in
  let arrive := arriveTolerance st in
  Rleb (hypot dx dy) arrive || (Rleb (Rabs dx) arrive && Rleb (Rabs dy) arrive).

(** Head for the target at constant speed, facing along the dominant axis. *)
Definition heading (st : MoveState) (tx ty : R) (n : NpcObj) : NpcObj :=
  let dx := (tx - sprX n)%R in
  let dy := (ty - sprY n)%R in
  let dist := hypot dx dy in
  let spd := moveSpeed st in
  let ux := (dx / dist)%R in
  let uy := (dy / dist)%R in
  let f :=
    if faceWhileMoving st
    then Some (if Rltb (Rabs uy) (Rabs ux)
               then (if Rltb ux 0 then FLeft else FRight)
               else (if Rltb uy 0 then FUp else FDown))
    else facing n in
  mkNpc (isSprite n) (hasRect n) (sprX n) (sprY n) (ux * spd)%R (uy * spd)%R f
    (defaultFacing n) (default FDown f) (walkAnim st).

(** One iteration of the loop, for the entry [st] of an NPC: the NPC
    afterwards and what is left of the entry ([None]: deleted). *)
Definition stepEntry (n : NpcObj) (st : MoveState) : NpcObj * option MoveState :=
  if negb (isSprite n) || negb (hasRect n) then (n, None)
  else
    match points st !! idx st with
    | None => (halted n, None)
    | Some (tx, ty) =>
        if arrived st tx ty n
        then
          let n1 := snapped tx ty n in
          let i1 := S (idx st) in
          if (length (points st) <=? i1)%nat
          then (halted n1, None)
          else (n1, Some (mkMove (points st) i1 (speed st) (arriveDist st)
                            (faceWhileMoving st) (walkAnim st)))
        else (heading st tx ty n, Some st)
    end.

(** [updateMovingNpcs()]: every entry is stepped once; entries are
    independent of one another, an entry without a registered NPC is
    deleted. *)
Definition updateMovingNpcs (sc : NpcScene) : NpcScene :=
  mkNpcScene
    (map_imap (λ id n,
                 match movingNpcById sc !! id with
                 | Some st => Some (fst (stepEntry n st))
                 | None => Some n
                 end) (spawnedNpcsById sc))
    (map_imap (λ id st,
                 match spawnedNpcsById sc !! id with
                 | Some n => snd (stepEntry n st)
                 | None => None
                 end) (movingNpcById sc)).

(** [isSpawnedNpcMoving(npcId)] for a string id. *)
Definition isSpawnedNpcMoving (npcId : string) (sc : NpcScene) : bool :=
  let id := trim npcId in
  nonEmpty id && bool_decide (is_Some (movingNpcById sc !! id)).

(** Unobstructed motion of the bodies for [dt] seconds, the physics step
    between two ticks when nothing is in the way. *)
Definition drift (dt : R) (n : NpcObj) : NpcObj :=
  mkNpc (isSprite n) (hasRect n) (sprX n + velX n * dt)%R (sprY n + velY n * dt)%R
    (velX n) (velY n) (facing n) (defaultFacing n) (shownFacing n) (walking n).

Definition driftAll (dt : R) (sc : NpcScene) : NpcScene :=
  mkNpcScene (drift dt <$> spawnedNpcsById sc) (movingNpcById sc).

(** [n] ticks of the mover, each followed by unobstructed motion. *)
Fixpoint ticks (dt : R) (n : nat) (sc : NpcScene) : NpcScene :=
  match n with
  | O => sc
  | S n' => ticks dt n' (driftAll dt (updateMovingNpcs sc))
  end.

(** The NPC [id] is a sprite heading for the single waypoint [(tx, ty)],
    with movement state [st]. *)
Definition headingFor (id : string) (tx ty : R) (st : MoveState) (n : NpcObj)
  (sc : NpcScene) : Prop :=
  spawnedNpcsById sc !! id = Some n ∧ isSprite n = true ∧ hasRect n = true
  ∧ movingNpcById sc !! id = Some st ∧ points st = [(tx, ty)] ∧ idx st = 0%nat.

(** The NPC [id] rests exactly on [(tx, ty)] and has no movement state. *)
Definition restsAt (id : string) (tx ty : R) (sc : NpcScene) : Prop :=
  ∃ n, spawnedNpcsById sc !! id = Some n ∧ sprX n = tx ∧ sprY n = ty
       ∧ velX n = 0%R ∧ velY n = 0%R ∧ movingNpcById sc !! id = None.

(** An NPC at the origin sent to the point (30, 40) with the default speed
    and tolerance. *)
Definition gladNpc : NpcObj := mkNpc true true 0 0 0 0 None None FDown false.
Definition gladMove : MoveState := mkMove [(30%R, 40%R)] 0 40 2 true true.
Definition gladScene : NpcScene :=
  mkNpcScene {[ "Glad" := gladNpc ]} {[ "Glad" := gladMove ]}.

End Npc.

(** ** The per-frame step (BaseExploreScene.baseUpdateFrame) *)

Module Frame.
Import Js Props GS Interaction Zones Npc.

Record FrameState : Type := mkFrame {
  zones : ZScene;
  npcs : NpcScene;
}.

(** What a frame reads from outside: the clock, the loop delta (absent
    when it is missing or not finite), whether the dialogue box is
    active, and the outcome of input polling and target selection. *)
Record FrameInput : Type := mkInput {
  now : Z;
  delta : option R;
  dialogueActive : bool;
  allowMovement : bool;
  interactPressed : bool;
  currentInteractable : option Interactable;
}.

(** [_tickGlobalRealTime()] *)
Definition _tickGlobalRealTime (delta : option R) (g : GameState) : GameState :=
  match delta with
  | Some d => if Geo.Rltb 0 d then setRealTimeMs (realTimeMs g + d)%R g else g
  | None => g
  end.

(** [baseUpdateInteract()] *)
Definition baseUpdateInteract (inp : FrameInput) (z : ZScene) : ZScene :=
  if negb (interactPressed inp) then z
  else match currentInteractable inp with
       | None => z
       | Some it =>
           if negb (canWorldInteract (now inp) (gstate (zworld z))) then z
           else
             let '(w', o) :=
               _runTiledInteraction (zctx z) (itProps it) (itName it) (zworld z) in
             logEvent (RanInteraction (zoneId it) o) (setZWorld w' z)
       end.

(** [baseUpdateFrame({ allowMovement })] *)
Definition baseUpdateFrame (inp : FrameInput) (fs : FrameState) : FrameState :=
  if dialogueActive inp
  then mkFrame (zones fs) (updateMovingNpcs (npcs fs))
  else
    let z0 := zones fs in
    let z1 := setZWorld (onGs (_tickGlobalRealTime (delta inp)) (zworld z0)) z0 in
    let z2 := if allowMovement inp
              then setPrevPlayerPos (Some (playerX z1, playerY z1)) z1 else z1 in
    let z3 := updateAutoTriggerZones (now inp) z2 in
    let z4 := baseUpdateInteract inp z3 in
    mkFrame z4 (updateMovingNpcs (npcs fs)).

(** The store of a frame state. *)
Definition storeOf (fs : FrameState) : GameState := gstate (zworld (zones fs)).

(** A frame state whose clock has reached the end of the world, and the
    input of a frame of sixteen milliseconds without dialogue. *)
Definition endingFrame : FrameState :=
  mkFrame (setZWorld (onGs (setRealTimeMs 480000) emptyWorld) (freshScene wallBox 0 0))
          gladScene.

Definition tickInput : FrameInput := mkInput 0 (Some 16%R) false true false None.

End Frame.

(** * Properties *)

Import Js Props GS FlagKey.

(** ** Numbered property groups *)

Section NumberedKeys.
Variable props : PropTable.
Variable base : string.

Lemma numberedRun_spec (n from : nat) :
  ∃ m : nat, (m ≤ n)%nat
    ∧ numberedRun props base from n = numberedKey base <$> seq from m
    ∧ (∀ i, (from ≤ i < from + m)%nat →
            isUndefined (get props (numberedKey base i)) = false)
    ∧ ((m < n)%nat → isUndefined (get props (numberedKey base (from + m))) = true).
Proof.
  revert from. induction n as [|n IH]; intros from.
  - exists 0%nat. split; [lia|]. split; [done|]. split; [intros; lia | intros; lia].
  - simpl. destruct (isUndefined (get props (numberedKey base from))) eqn:E.
    + exists 0%nat. split; [lia|]. split; [done|]. split; [intros; lia|].
      intros _. by rewrite Nat.add_0_r.
    + destruct (IH (S from)) as (m & Hm & Hrun & Hin & Hstop).
      exists (S m). split; [|split; [|split]].
      * lia.
      * simpl. by rewrite Hrun.
      * intros i Hi. destruct (decide (i = from)) as [->|Hne]; [done|].
        apply Hin. lia.
      * intros Hlt. replace (from + S m)%nat with (S from + m)%nat by lia.
        apply Hstop. lia.
Qed.

Lemma numberedLines_spec (n from : nat) :
  ∃ m : nat, (m ≤ n)%nat
    ∧ numberedLines props base from n
      = concat ((λ i, propLine (get props (numberedKey base i))) <$> seq from m)
    ∧ (∀ i, (from ≤ i < from + m)%nat → has props (numberedKey base i) = true)
    ∧ ((m < n)%nat → has props (numberedKey base (from + m)) = false).
Proof.
  revert from. induction n as [|n IH]; intros from.
  - exists 0%nat. split; [lia|]. split; [done|]. split; [intros; lia | intros; lia].
  - simpl. destruct (has props (numberedKey base from)) eqn:E.
    + destruct (IH (S from)) as (m & Hm & Hrun & Hin & Hstop).
      exists (S m). split; [|split; [|split]].
      * lia.
      * simpl. by rewrite Hrun.
      * intros i Hi. destruct (decide (i = from)) as [->|Hne]; [done|].
        apply Hin. lia.
      * intros Hlt. replace (from + S m)%nat with (S from + m)%nat by lia.
        apply Hstop. lia.
    + exists 0%nat. split; [lia|]. split; [done|]. split; [intros; lia|].
      intros _. by rewrite Nat.add_0_r.
Qed.
End NumberedKeys.

(** C2 (as the code has it): the collector returns the base key when it is
    present, followed by exactly the consecutive run [prefix2], [prefix3], ...
    of present keys, which stops at the first missing index from 2 on and at
    index 99 at the latest; the run is collected whether or not the base key
    is present.  The line collector [_getNumberedPropLines] does the same
    for indices up to 50, keeping the non-blank values. *)
Theorem getNumberedKeys_run_from_two (props : PropTable) (base : string) :
  (∃ m : nat, (m ≤ 98)%nat
     ∧ _getNumberedKeys props base
       = (if isUndefined (get props base) then [] else [base])
         ++ (numberedKey base <$> seq 2 m)
     ∧ (∀ i, (2 ≤ i < 2 + m)%nat →
             isUndefined (get props (numberedKey base i)) = false)
     ∧ ((m < 98)%nat → isUndefined (get props (numberedKey base (2 + m))) = true))
  ∧ (nonEmpty (toLowerCase (trim base)) = true →
     let k0 := toLowerCase (trim base) in
     ∃ m : nat, (m ≤ 49)%nat
       ∧ _getNumberedPropLines props base
         = propLine (get props k0)
           ++ concat ((λ i, propLine (get props (numberedKey k0 i))) <$> seq 2 m)
       ∧ (∀ i, (2 ≤ i < 2 + m)%nat → has props (numberedKey k0 i) = true)
       ∧ ((m < 49)%nat → has props (numberedKey k0 (2 + m)) = false)).
Proof.
  split.
  - destruct (numberedRun_spec props base 98 2) as (m & Hm & Hrun & Hin & Hstop).
    exists m. unfold _getNumberedKeys. rewrite Hrun. auto.
  - intros Hne k0.
    destruct (numberedLines_spec props k0 49 2) as (m & Hm & Hrun & Hin & Hstop).
    exists m. unfold _getNumberedPropLines. subst k0. rewrite Hne, Hrun. auto.
Qed.

Lemma getNumberedKeys_run_from_two_witness :
  nonEmpty (toLowerCase (trim "dialogue")) = true
  ∧ ∃ m : nat, (m ≤ 49)%nat
      ∧ _getNumberedPropLines (<["dialogue" := VStr "a"]> ∅) "dialogue"
        = propLine (get (<["dialogue" := VStr "a"]> ∅) "dialogue")
          ++ concat ((λ i, propLine (get (<["dialogue" := VStr "a"]> ∅)
                                       (numberedKey "dialogue" i))) <$> seq 2 m).
Proof.
  split; [reflexivity|].
  destruct (getNumberedKeys_run_from_two (<["dialogue" := VStr "a"]> ∅) "dialogue")
    as [_ H].
  destruct (H eq_refl) as (m & Hm & Heq & _).
  exists m. split; [exact Hm | exact Heq].
Defined.

(** C2 as stated fails: with the base key absent, [dialogue2] is still
    collected, by both collectors. *)
Lemma getNumberedKeys_collects_past_missing_base :
  let props : PropTable := <["dialogue2" := VStr "b"]> ∅ in
  isUndefined (get props "dialogue") = true
  ∧ _getNumberedKeys props "dialogue" = ["dialogue2"]
  ∧ _getNumberedPropLines props "dialogue" = ["b"].
Proof. vm_compute. auto. Qed.

Example getNumberedKeys_run :
  _getNumberedKeys
    (<["dialogue" := VStr "a"]> (<["dialogue2" := VStr "b"]>
       (<["dialogue4" := VStr "d"]> ∅))) "dialogue"
  = ["dialogue"; "dialogue2"].
Proof. vm_compute. reflexivity. Qed.

(** ** FlagKey codec *)

Lemma app_nil_l_s (s : string) : "" +:+ s = s.
Proof. reflexivity. Qed.
Lemma app_cons_s a (s t : string) : String a s +:+ t = String a (s +:+ t).
Proof. reflexivity. Qed.

Lemma charFree_app_inv c (a a' r r' : string) :
  charFree c a = true → charFree c a' = true → headIs c r → headIs c r' →
  a +:+ r = a' +:+ r' → a = a' ∧ r = r'.
Proof.
  revert a'. induction a as [|x a IH]; intros [|x' a'] Ha Ha' Hr Hr' E.
  - done.
  - rewrite app_nil_l_s, app_cons_s in E. subst r. simpl in Hr, Ha'.
    subst x'. rewrite bool_decide_eq_true_2 in Ha' by done. done.
  - rewrite app_nil_l_s, app_cons_s in E. subst r'. simpl in Hr', Ha.
    subst x. rewrite bool_decide_eq_true_2 in Ha by done. done.
  - rewrite !app_cons_s in E. injection E as -> E.
    simpl in Ha, Ha'. apply andb_prop in Ha as [_ Ha]. apply andb_prop in Ha' as [_ Ha'].
    destruct (IH a' Ha Ha' Hr Hr' E) as [-> ->]. done.
Qed.

Lemma app_nil_r_s (s : string) : s +:+ "" = s.
Proof. induction s as [|a s IH]; [done|]. rewrite app_cons_s. by f_equal. Qed.

Lemma join_cons2 sep p q (r : list string) :
  join sep (p :: q :: r) = p +:+ sep +:+ join sep (q :: r).
Proof. reflexivity. Qed.

Lemma join_inj c sep' (l l' : list string) :
  let sep := String c sep' in
  l ≠ [] → l' ≠ [] →
  Forall (λ s, charFree c s = true) l → Forall (λ s, charFree c s = true) l' →
  join sep l = join sep l' → l = l'.
Proof.
  intros sep. revert l'. induction l as [|a l IH]; intros l' Hl Hl' F F' E; [done|].
  destruct l' as [|a' l']; [done|].
  inversion F as [|? ? Fa Fl]; subst. inversion F' as [|? ? Fa' Fl']; subst.
  destruct l as [|b l], l' as [|b' l'].
  - simpl in E. by subst.
  - rewrite join_cons2 in E. simpl in E.
    rewrite <- (app_nil_r_s a) in E. 
    apply charFree_app_inv with (c := c) in E; try done. by destruct E.
  - rewrite join_cons2 in E. simpl in E.
    rewrite <- (app_nil_r_s a') in E. 
    apply charFree_app_inv with (c := c) in E; try done. by destruct E.
  - rewrite !join_cons2 in E.
    apply charFree_app_inv with (c := c) in E; try done.
    destruct E as [-> E]. apply (inj (String.app sep)) in E.
    f_equal. apply IH; done.
Qed.

Lemma join_head_nonEmpty sep a (l : list string) :
  nonEmpty a = true → nonEmpty (join sep (a :: l)) = true.
Proof.
  destruct a as [|x a]; [done|]. intros _. destruct l as [|b l]; [done|].
  rewrite join_cons2, app_cons_s. done.
Qed.

Lemma join_inj_nonEmpty c sep' (l l' : list string) :
  let sep := String c sep' in
  Forall (λ s, charFree c s = true ∧ nonEmpty s = true) l →
  Forall (λ s, charFree c s = true ∧ nonEmpty s = true) l' →
  join sep l = join sep l' → l = l'.
Proof.
  intros sep F F' E.
  destruct l as [|a l], l' as [|a' l']; [done| | |].
  - inversion F' as [|? ? [_ Hn] _]; subst.
    pose proof (join_head_nonEmpty sep a' l' Hn) as H. rewrite <- E in H. done.
  - inversion F as [|? ? [_ Hn] _]; subst.
    pose proof (join_head_nonEmpty sep a l Hn) as H. rewrite E in H. done.
  - apply (join_inj c sep'); [done|done| | |done].
    + eapply Forall_impl; [exact F|]. by intros ? [? _].
    + eapply Forall_impl; [exact F'|]. by intros ? [? _].
Qed.

Lemma pretty_N_go_length x s : (String.length s ≤ String.length (pretty_N_go x s))%nat.
Proof.
  revert s. induction (N.lt_wf_0 x) as [x _ IH]; intros s.
  assert (x = 0 ∨ 0 < x)%N as [->|?] by lia; [by rewrite pretty_N_go_0|].
  rewrite pretty_N_go_step by done.
  etrans; [|by eapply IH, N.div_lt]. simpl. lia.
Qed.

Lemma pretty_N_nonEmpty (x : N) : nonEmpty (pretty x) = true.
Proof.
  unfold pretty, pretty_N. case_decide; [done|].
  rewrite pretty_N_go_step by lia.
  pose proof (pretty_N_go_length (x `div` 10)
                (String (pretty_N_char (x `mod` 10)) "")) as Hlen.
  destruct (pretty_N_go _ _); [simpl in Hlen; lia | done].
Qed.

Lemma String_truthy_nonEmpty (v : JsVal) : truthy v = true → nonEmpty (String_ v) = true.
Proof.
  destruct v as [| |[]|[|p|p]|[|a s]]; try done.
  intros _. apply (pretty_N_nonEmpty (Npos p)).
Qed.

Lemma catClash_cons x c c' : catClash (String x c) (String x c') = catClash c c'.
Proof.
  unfold catClash. rewrite !app_cons_s. simpl.
  rewrite (bool_decide_eq_true_2 (x = x)) by done. simpl. f_equal.
  apply bool_decide_ext. split; [by intros [= ->]|by intros ->].
Qed.

Lemma categories_apart (c c' J J' : string) :
  c ≠ c' → catClash c c' = false → catClash c' c = false →
  c +:+ "__" +:+ J ≠ c' +:+ "__" +:+ J'.
Proof.
  revert c'. induction c as [|x c IH]; intros [|x' c'] Hne H1 H2 E; [done| | |].
  - rewrite app_nil_l_s, !app_cons_s in E. injection E as <- E.
    destruct c' as [|y c'].
    + by vm_compute in H1.
    + rewrite app_cons_s in E. injection E as <- E. by vm_compute in H1.
  - rewrite app_nil_l_s, !app_cons_s in E. injection E as -> E.
    destruct c as [|y c].
    + by vm_compute in H2.
    + rewrite app_cons_s in E. injection E as -> E. by vm_compute in H2.
  - rewrite !app_cons_s in E. injection E as -> E.
    rewrite catClash_cons in H1, H2.
    apply (IH c'); try done. by intros ->.
Qed.

Lemma flagCategories_apart (c c' : string) :
  c ∈ flagCategories → c' ∈ flagCategories → c ≠ c' →
  catClash c c' = false ∧ catClash c' c = false.
Proof.
  intros Hc Hc' Hne.
  assert (H : forallb (λ a, forallb (λ b, bool_decide (a = b)
                || (negb (catClash a b) && negb (catClash b a))) flagCategories)
                flagCategories = true) by (vm_compute; reflexivity).
  rewrite forallb_forall in H. apply list_elem_of_In in Hc, Hc'.
  specialize (H c Hc). rewrite forallb_forall in H. specialize (H c' Hc').
  rewrite bool_decide_eq_false_2 in H by done. simpl in H.
  apply andb_prop in H as [Ha Hb].
  by rewrite negb_true_iff in Ha, Hb.
Qed.

Lemma partOk_nil : partOk "" = true.
Proof. reflexivity. Qed.

Lemma partOk_tail x (s : string) : partOk (String x s) = true → partOk s = true.
Proof.
  unfold partOk. intros H. apply andb_prop in H as [Hi Hl].
  rewrite negb_true_iff in Hi, Hl. apply andb_true_intro. split.
  - rewrite negb_true_iff. simpl in Hi. apply orb_false_elim in Hi as [_ Hi].
    exact Hi.
  - rewrite negb_true_iff. apply bool_decide_eq_false_2. intros E.
    apply bool_decide_eq_false_1 in Hl. apply Hl. simpl.
    destruct s; [done|exact E].
Qed.

(** What follows a part in a key: nothing, or the separator. *)
Lemma part_then_separator (a a' R R' : string) :
  partOk a = true → partOk a' = true →
  (R = "" ∨ startsWith "__" R = true) → (R' = "" ∨ startsWith "__" R' = true) →
  a +:+ R = a' +:+ R' → a = a' ∧ R = R'.
Proof.
  assert (Hbad : ∀ (b R0 R1 : string) x, partOk (String x b) = true →
            (R0 = "" ∨ startsWith "__" R0 = true) →
            R0 = String x (b +:+ R1) → False).
  { intros b R0 R1 x Hb [->|Hs] E; [done|]. subst R0.
    simpl in Hs. apply andb_prop in Hs as [Hx Hs].
    apply bool_decide_eq_true_1 in Hx. subst x.
    destruct b as [|y b]; [by vm_compute in Hb|].
    rewrite app_cons_s in Hs. simpl in Hs. apply andb_prop in Hs as [Hy _].
    apply bool_decide_eq_true_1 in Hy. subst y. by vm_compute in Hb. }
  revert a'. induction a as [|x a IH]; intros [|x' a'] Ha Ha' HR HR' E.
  - done.
  - rewrite app_nil_l_s, app_cons_s in E. by destruct (Hbad a' R R' x').
  - rewrite app_nil_l_s, app_cons_s in E. symmetry in E. by destruct (Hbad a R' R x).
  - rewrite !app_cons_s in E. injection E as -> E.
    destruct (IH a' (partOk_tail _ _ Ha) (partOk_tail _ _ Ha') HR HR' E) as [-> ->].
    done.
Qed.

Lemma join_tail sep a (l : list string) :
  join sep (a :: l) = a +:+ match l with [] => "" | _ => sep +:+ join sep l end.
Proof. destruct l; [by rewrite app_nil_r_s|done]. Qed.

Lemma join_partOk_inj (l l' : list string) :
  l ≠ [] → l' ≠ [] →
  Forall (λ s, partOk s = true) l → Forall (λ s, partOk s = true) l' →
  join "__" l = join "__" l' → l = l'.
Proof.
  revert l'. induction l as [|a l IH]; intros [|a' l'] Hl Hl' F F' E; try done.
  inversion F as [|? ? Fa Fl]; subst. inversion F' as [|? ? Fa' Fl']; subst.
  rewrite !join_tail in E.
  apply part_then_separator in E; try done.
  - destruct E as [-> E]. f_equal.
    destruct l as [|b l], l' as [|b' l']; try done.
    apply (inj (String.app "__")) in E. by apply IH.
  - destruct l; [by left|by right].
  - destruct l'; [by left|by right].
Qed.

Lemma flagKey_parts_inj (c : string) (ps ps' : list JsVal) :
  Forall (λ p, partOk (String_ p) = true) ps →
  Forall (λ p, partOk (String_ p) = true) ps' →
  _flagKey c ps = _flagKey c ps' →
  String_ <$> ps = String_ <$> ps'
  ∨ (ps = [] ∧ String_ <$> ps' = [""]) ∨ (String_ <$> ps = [""] ∧ ps' = []).
Proof.
  intros F F' E. unfold _flagKey in E.
  apply (inj (String.app c)) in E. apply (inj (String.app "__")) in E.
  assert (Hf : ∀ l, Forall (λ p, partOk (String_ p) = true) l →
               Forall (λ s, partOk s = true) (String_ <$> l)).
  { intros l Hl. by apply Forall_fmap. }
  destruct ps as [|p ps], ps' as [|p' ps'].
  - by left.
  - right. left. split; [done|]. symmetry.
    apply join_partOk_inj; try done; [by repeat constructor|by apply Hf].
  - right. right. split; [|done].
    apply join_partOk_inj; try done; [by apply Hf|by repeat constructor].
  - left. apply join_partOk_inj; try done; by apply Hf.
Qed.

(** C8 (as the code has it): the codec is a function, so equal tuples give
    equal keys.  Keys of two different categories are unequal whatever the
    parts are, for any two of the category literals the scene module uses
    and, in general, whenever neither category is the other one followed
    by a single underscore or begins with the other one followed by the
    separator.  Within one category,
    unequal part tuples give unequal keys as long as no stringified part
    contains the separator or ends with an underscore, except that the
    tuple without parts and the tuple with one empty part share a key.
    For the interactions codec unequal tuples of kept parts give unequal
    keys as long as no part contains the bar.  Parts are compared as
    strings, the form in which they enter the key (the interactions codec
    first drops falsy parts). *)
Theorem flagKey_injective_on_separator_free_parts :
  (∀ c c' ps ps', c = c' → ps = ps' → _flagKey c ps = _flagKey c' ps')
  ∧ (∀ c c' ps ps',
       c ∈ flagCategories → c' ∈ flagCategories → c ≠ c' →
       _flagKey c ps ≠ _flagKey c' ps')
  ∧ (∀ c c' ps ps',
       c ≠ c' → catClash c c' = false → catClash c' c = false →
       _flagKey c ps ≠ _flagKey c' ps')
  ∧ (∀ c ps ps',
       Forall (λ p, partOk (String_ p) = true) ps →
       Forall (λ p, partOk (String_ p) = true) ps' →
       _flagKey c ps = _flagKey c ps' →
       String_ <$> ps = String_ <$> ps'
       ∨ (ps = [] ∧ String_ <$> ps' = [""]) ∨ (String_ <$> ps = [""] ∧ ps' = []))
  ∧ (∀ ps ps',
       Forall (λ p, charFree "|" (String_ p) = true) ps →
       Forall (λ p, charFree "|" (String_ p) = true) ps' →
       flagKey ps = flagKey ps' →
       String_ <$> filter (λ v, truthy v = true) ps
       = String_ <$> filter (λ v, truthy v = true) ps').
Proof.
  split; [by intros ???? -> ->|]. split; [|split; [|split]].
  - intros c c' ps ps' Hc Hc' Hne.
    destruct (flagCategories_apart c c' Hc Hc' Hne) as [H1 H2].
    by apply categories_apart.
  - intros c c' ps ps' Hne H1 H2. by apply categories_apart.
  - apply flagKey_parts_inj.
  - intros ps ps' F F' E. unfold flagKey in E.
    apply (join_inj_nonEmpty "|"%char ""); [| |done].
    + apply Forall_fmap, Forall_forall. intros v Hv.
      apply list_elem_of_filter in Hv as [Ht Hv]. split.
      * rewrite Forall_forall in F. by apply F.
      * by apply String_truthy_nonEmpty.
    + apply Forall_fmap, Forall_forall. intros v Hv.
      apply list_elem_of_filter in Hv as [Ht Hv]. split.
      * rewrite Forall_forall in F'. by apply F'.
      * by apply String_truthy_nonEmpty.
Qed.

Lemma flagKey_injective_on_separator_free_parts_witness :
  ("__give_once" ∈ flagCategories ∧ "__take_once" ∈ flagCategories
   ∧ "__give_once" ≠ "__take_once"
   ∧ partOk "City_Scene" = true ∧ partOk "strawberry_bush" = true)
  ∧ _flagKey "__give_once" [VStr "City_Scene"; VStr "bush"; VStr "key"]
    ≠ _flagKey "__take_once" [VStr "City_Scene"; VStr "bush"; VStr "key"]
  ∧ (String_ <$> [VStr "City_Scene"; VStr "strawberry_bush"; VNum 1]
     = String_ <$> [VStr "City_Scene"; VStr "strawberry_bush"; VStr "1"]
     ∨ ([VStr "City_Scene"; VStr "strawberry_bush"; VNum 1] = []
        ∧ String_ <$> [VStr "City_Scene"; VStr "strawberry_bush"; VStr "1"] = [""])
     ∨ (String_ <$> [VStr "City_Scene"; VStr "strawberry_bush"; VNum 1] = [""]
        ∧ [VStr "City_Scene"; VStr "strawberry_bush"; VStr "1"] = [])).
Proof.
  destruct flagKey_injective_on_separator_free_parts as (_ & H2 & _ & H4 & _).
  split; [|split].
  - repeat split; try reflexivity; try discriminate;
      apply list_elem_of_In; simpl; tauto.
  - apply H2; [apply list_elem_of_In; simpl; tauto
              |apply list_elem_of_In; simpl; tauto|discriminate].
  - apply (H4 "__give_once"); [repeat constructor|repeat constructor|reflexivity].
Defined.

(** C8 as stated fails: two different tuples with the same key, for either
    codec: a part that contains the separator, a part that ends with an
    underscore, a number against its spelling, the tuple without parts
    against the one with an empty part, a category that is another one
    followed by an underscore, a dropped empty part, and a part that
    contains the bar. *)
Lemma flagKey_collisions :
  (_flagKey "__give_once" [VStr "City"; VStr "box__a"; VStr "key"]
   = _flagKey "__give_once" [VStr "City"; VStr "box"; VStr "a__key"]
   ∧ [VStr "City"; VStr "box__a"; VStr "key"] ≠ [VStr "City"; VStr "box"; VStr "a__key"])
  ∧ (_flagKey "__give_once" [VStr "City"; VStr "box_"; VStr "key"]
     = _flagKey "__give_once" [VStr "City"; VStr "box"; VStr "_key"]
     ∧ [VStr "City"; VStr "box_"; VStr "key"] ≠ [VStr "City"; VStr "box"; VStr "_key"])
  ∧ (_flagKey "__take_once" [VStr "City"; VNum 1]
     = _flagKey "__take_once" [VStr "City"; VStr "1"]
     ∧ [VStr "City"; VNum 1] ≠ [VStr "City"; VStr "1"])
  ∧ (_flagKey "__layer_init" [] = _flagKey "__layer_init" [VStr ""]
     ∧ String_ <$> [] ≠ String_ <$> [VStr ""])
  ∧ (_flagKey "__npc" [VStr "_pos"] = _flagKey "__npc_" [VStr "pos"]
     ∧ "__npc" ≠ "__npc_")
  ∧ (flagKey [VStr "__take_once"; VStr "City"; VStr ""; VStr "key"]
     = flagKey [VStr "__take_once"; VStr "City"; VStr "key"]
     ∧ [VStr "__take_once"; VStr "City"; VStr ""; VStr "key"]
       ≠ [VStr "__take_once"; VStr "City"; VStr "key"])
  ∧ (flagKey [VStr "__take_once"; VStr "City|box"; VStr "key"]
     = flagKey [VStr "__take_once"; VStr "City"; VStr "box|key"]
     ∧ [VStr "__take_once"; VStr "City|box"; VStr "key"]
       ≠ [VStr "__take_once"; VStr "City"; VStr "box|key"]).
Proof. repeat split; (vm_compute; reflexivity) || discriminate. Qed.

(** ** The dialogue runner *)

Import DialogueBox.

Section Dialogue.
Context {K : Type}.
Implicit Types (b : Box K) (now : Z).

Lemma runCurrentStep_in_range now b step :
  active b = true → (0 ≤ index b)%Z →
  script b !! Z.to_nat (index b) = Some step →
  _runCurrentStep now b
  = runSteps now (step :: drop (S (Z.to_nat (index b))) (script b)) b.
Proof.
  intros Ha Hi Hs. unfold _runCurrentStep. rewrite Ha. simpl.
  apply lookup_lt_Some in Hs as Hlt.
  destruct (index b <? 0)%Z eqn:E1; [lia|].
  destruct (Z.of_nat (length (script b)) <=? index b)%Z eqn:E2; [lia|].
  simpl. by rewrite (drop_S _ _ _ Hs).
Qed.

Lemma runCurrentStep_out_of_range now b :
  active b = true →
  (index b < 0 ∨ Z.of_nat (length (script b)) ≤ index b)%Z →
  _runCurrentStep now b = stop now true b.
Proof.
  intros Ha Hi. unfold _runCurrentStep. rewrite Ha. simpl.
  destruct (index b <? 0)%Z eqn:E1; [done|].
  destruct (Z.of_nat (length (script b)) <=? index b)%Z eqn:E2; [done|]. lia.
Qed.

Lemma completions_app (c1 c2 : list (Call K)) :
  completions (c1 ++ c2) = completions c1 ++ completions c2.
Proof.
  induction c1 as [|c c1 IH]; [done|]. destruct c; simpl; by rewrite ?IH.
Qed.

Lemma completions_selectCalls b (chosen : ChoiceOption K) :
  completions (selectCalls b chosen) = [].
Proof.
  unfold selectCalls. by destruct (choiceStepOnSelect b), (oonSelect chosen).
Qed.

(** C4: when the confirm key is accepted in the choice state, the index
    is set to the chosen option's [next] when that is a number, whatever the
    index was before, and to the index plus one otherwise; execution
    resumes with [_runCurrentStep] at that index, after the [onSelect]
    handlers: a [say], [choice] or [pause] found there is entered with the
    index still at the target, and a target outside the script completes
    it. *)
Theorem choice_confirm_jumps now b (chosen : ChoiceOption K) :
  confirmReady now b chosen →
  let target := match onext chosen with Some n => n | None => (index b + 1)%Z end in
  let resumed := withInChoice false (withIndex target (_gateInput now b)) in
  let after := fst (exec now OpKeyZ b) in
  index resumed = target
  ∧ exec now OpKeyZ b
    = (fst (_runCurrentStep now resumed),
       CallLockInteract now 240
         :: selectCalls b chosen ++ snd (_runCurrentStep now resumed))
  ∧ (∀ sp tx, (0 ≤ target)%Z →
       script b !! Z.to_nat target = Some (Say sp tx) →
       index after = target ∧ active after = true
       ∧ isTyping after = true ∧ fullText after = tx)
  ∧ (∀ p os sel, (0 ≤ target)%Z →
       script b !! Z.to_nat target = Some (Choice p os sel) →
       index after = target ∧ active after = true
       ∧ fullText after = p ∧ typingEvent after = Some (mkTyping (Some os) 0))
  ∧ (∀ ms, (0 ≤ target)%Z →
       script b !! Z.to_nat target = Some (Pause ms) →
       index after = target ∧ active after = true
       ∧ pendingPauses after = S (pendingPauses b))
  ∧ ((target < 0 ∨ Z.of_nat (length (script b)) ≤ target)%Z →
       active after = false ∧ completions (snd (exec now OpKeyZ b))
                              = match onComplete b with Some k => [k] | None => [] end).
Proof.
  intros (Hk & Ha & Hc & Ht & Hi & Hr & Ho) target resumed after.
  assert (Hexec : exec now OpKeyZ b
    = (fst (_runCurrentStep now resumed),
       CallLockInteract now 240
         :: selectCalls b chosen ++ snd (_runCurrentStep now resumed))).
  { unfold exec, _onZ. rewrite Hk, Ha, Hc. simpl.
    rewrite Ht, Hi.
    destruct (now <? choiceConfirmReadyAt b)%Z eqn:E; [lia|].
    unfold chosenOption in *. simpl. 
    destruct (choiceIndex b <? 0)%Z; [done|]. rewrite Ho.
    unfold jumpTarget. simpl. fold target. 
    change (withInChoice false (withIndex target (_gateInput now b))) with resumed.
    destruct (_runCurrentStep now resumed) as [b3 calls]. reflexivity. }
  assert (Hact : active resumed = true) by (simpl; exact Ha).
  split; [reflexivity|]. split; [exact Hexec|].
  subst after. rewrite Hexec. simpl.
  split; [|split; [|split]].
  - intros sp tx H0 Hs.
    rewrite (runCurrentStep_in_range now resumed (Say sp tx)); try done.
  - intros p os sel H0 Hs.
    rewrite (runCurrentStep_in_range now resumed (Choice p os sel)); try done.
  - intros ms H0 Hs.
    rewrite (runCurrentStep_in_range now resumed (Pause ms)); try done.
  - intros Hout. rewrite runCurrentStep_out_of_range; [|done|done].
    unfold stop. simpl. destruct (onComplete b); simpl.
    + split; [done|]. by rewrite completions_app, completions_selectCalls.
    + split; [done|]. by rewrite completions_app, completions_selectCalls.
Qed.
Lemma stop_callbackStep now c b : callbackStep b (stop now c b).
Proof.
  unfold callbackStep, stop. simpl.
  destruct c, (onComplete b) as [k|] eqn:E; simpl; eauto 10.
Qed.

Lemma stop_false_silent now b : completions (snd (stop now false b)) = [].
Proof. reflexivity. Qed.

Lemma runSteps_callbackStep now rest b :
  active b = true → callbackStep b (runSteps now rest b).
Proof.
  revert b. induction rest as [|step rest IH]; intros b Ha.
  - apply stop_callbackStep.
  - destruct step as [sp tx|ms|p os sel|run| |]; simpl.
    + left. simpl. rewrite Ha. done.
    + left. simpl. rewrite Ha. done.
    + left. simpl. rewrite Ha. done.
    + specialize (IH (withIndex (index b + 1) b) Ha).
      destruct (runSteps now rest (withIndex (index b + 1) b)) as [b' calls].
      destruct IH as [(Hc & Ho & Hi)|(k & Ho & Hc & Ho' & Hi)]; simpl in *.
      * left. simpl. split; [by destruct run|]. split; [done|]. rewrite Ha. done.
      * right. exists k. simpl. split; [done|]. split; [by destruct run|]. done.
    + exact (stop_callbackStep now true b).
    + exact (IH (withIndex (index b + 1) b) Ha).
Qed.

Lemma runCurrentStep_callbackStep now b : callbackStep b (_runCurrentStep now b).
Proof.
  unfold _runCurrentStep. destruct (active b) eqn:Ha; simpl.
  - destruct ((index b <? 0)%Z || (Z.of_nat (length (script b)) <=? index b)%Z).
    + exact (stop_callbackStep now true b).
    + by apply runSteps_callbackStep.
  - left. simpl. done.
Qed.

Lemma callbackStep_pre b b0 r :
  onComplete b0 = onComplete b → (active b = false → active b0 = false) →
  callbackStep b0 r → callbackStep b r.
Proof.
  intros Ho Ha [(Hc & Ho' & Hi)|(k & Ho' & Hc & Ho'' & Hi)].
  - left. split; [done|]. split; [congruence|]. auto.
  - right. exists k. split; [congruence|]. done.
Qed.

Lemma callbackStep_calls b r (pre : list (Call K)) :
  completions pre = [] → callbackStep b r → callbackStep b (fst r, pre ++ snd r).
Proof.
  intros Hp [(Hc & Ho' & Hi)|(k & Ho' & Hc & Ho'' & Hi)].
  - left. simpl. rewrite completions_app, Hp, Hc. done.
  - right. exists k. simpl. rewrite completions_app, Hp, Hc. done.
Qed.

Lemma onZ_callbackStep now b : callbackStep b (_onZ now b).
Proof.
  unfold _onZ. destruct (active b) eqn:Ha; simpl; [|left; simpl; done].
  destruct (_canAcceptInput now b); simpl; [|left; simpl; rewrite Ha; done].
  destruct (isTyping b) eqn:Et.
  { left. simpl. unfold _finishTypingInstant. simpl. rewrite Et, Ha. done. }
  destruct (inChoice b).
  - destruct (now <? choiceConfirmReadyAt b)%Z; [left; simpl; rewrite Ha; done|].
    destruct (chosenOption (_gateInput now b)) as [chosen|];
      [|left; simpl; rewrite Ha; done].
    set (b2 := withInChoice false _).
    pose proof (runCurrentStep_callbackStep now b2) as H.
    destruct (_runCurrentStep now b2) as [b3 calls].
    apply (callbackStep_pre b b2) in H; [|done|simpl; rewrite Ha; done].
    apply (callbackStep_calls b _ (CallLockInteract now 240 :: selectCalls (_gateInput now b) chosen)) in H.
    + exact H.
    + simpl. apply completions_selectCalls.
  - set (b2 := withIndex _ _).
    pose proof (runCurrentStep_callbackStep now b2) as H.
    destruct (_runCurrentStep now b2) as [b3 calls].
    apply (callbackStep_pre b b2) in H; [|done|simpl; rewrite Ha; done].
    apply (callbackStep_calls b _ [CallLockInteract now 240]) in H; done.
Qed.

Lemma exec_callbackStep now (op : Op) b :
  isStart op = false → callbackStep b (exec now op b).
Proof.
  intros Hs. destruct op; try done; simpl.
  - exact (stop_callbackStep now callOnComplete b).
  - destruct (keyHandlersBound b); [apply onZ_callbackStep | by left].
  - destruct (keyHandlersBound b); [|by left]. unfold _onEsc.
    destruct (active b) eqn:Ha; [exact (stop_callbackStep now false b) | left; simpl; done].
  - left. simpl. destruct (keyHandlersBound b); [|done].
    unfold _onUp, moveChoice.
    destruct (negb (active b) || negb (inChoice b)); [done|].
    destruct (negb (_canAcceptInput now b)); [done|]. simpl. done.
  - left. simpl. destruct (keyHandlersBound b); [|done].
    unfold _onDown, moveChoice.
    destruct (negb (active b) || negb (inChoice b)); [done|].
    destruct (negb (_canAcceptInput now b)); [done|]. simpl. done.
  - left. simpl. unfold typingTick.
    destruct (typingEvent b) as [ev|]; [|done].
    destruct (active b) eqn:Ha; simpl; [|done].
    destruct (String.length (fullText b) <=? S (ti ev))%nat; [|simpl; rewrite ?Ha; done].
    destruct (tChoice ev); simpl; rewrite ?Ha; done.
  - unfold pauseTimer. destruct (pendingPauses b) as [|n]; [by left|].
    simpl. destruct (active b) eqn:Ha; simpl; [|left; simpl; done].
    set (b2 := withIndex _ _).
    pose proof (runCurrentStep_callbackStep now b2) as H.
    apply (callbackStep_pre b b2) in H; [done|done|]. simpl. rewrite ?Ha. done.
Qed.

(** Over a run without [start]: the callbacks called are at most the one
    the box holds at the beginning, called at most once. *)
Lemma run_callbacks (ops : list (Z * Op)) b :
  noStart ops = true →
  (completions (snd (run ops b)) = []
   ∧ (active b = false → active (fst (run ops b)) = false))
  ∨ (∃ k, onComplete b = Some k ∧ completions (snd (run ops b)) = [k]
          ∧ active (fst (run ops b)) = false).
Proof.
  revert b. induction ops as [|[now op] ops IH]; intros b Hn.
  - left. done.
  - simpl in Hn. apply andb_prop in Hn as [Hop Hn].
    apply negb_true_iff in Hop.
    pose proof (exec_callbackStep now op b Hop) as Hstep.
    simpl. destruct (exec now op b) as [b1 c1].
    specialize (IH b1 Hn). destruct (run ops b1) as [b2 c2]. simpl in *.
    rewrite completions_app.
    destruct Hstep as [(Hc & Ho & Hi)|(k & Ho & Hc & Ho' & Hi)]; simpl in *.
    + rewrite Hc. simpl.
      destruct IH as [[Hc2 Hi2]|(k & Ho2 & Hc2 & Hi2)].
      * left. split; [done|]. auto.
      * right. exists k. split; [congruence|]. done.
    + rewrite Hc. simpl.
      destruct IH as [[Hc2 Hi2]|(k2 & Ho2 & Hc2 & Hi2)]; [|congruence].
      right. exists k. rewrite Hc2. split; [done|]. split; [done|]. auto.
Qed.
(** The recursion of [_runCurrentStep] as the source writes it: an action
    runs, the index advances, and the next step is looked at. *)
Lemma runCurrentStep_action now b (run : option K) :
  active b = true → (0 ≤ index b)%Z →
  script b !! Z.to_nat (index b) = Some (Action run) →
  _runCurrentStep now b
  = (fst (_runCurrentStep now (withIndex (index b + 1) b)),
     match run with
     | Some k => CallAction k :: snd (_runCurrentStep now (withIndex (index b + 1) b))
     | None => snd (_runCurrentStep now (withIndex (index b + 1) b))
     end).
Proof.
  intros Ha Hi Hs.
  rewrite (runCurrentStep_in_range now b (Action run)) by done.
  apply lookup_lt_Some in Hs as Hlt. simpl.
  assert (Hnext : _runCurrentStep now (withIndex (index b + 1) b)
                  = runSteps now (drop (S (Z.to_nat (index b))) (script b))
                      (withIndex (index b + 1) b)).
  { unfold _runCurrentStep. simpl. rewrite Ha. simpl.
    destruct (index b + 1 <? 0)%Z eqn:E1; [lia|]. simpl.
    destruct (Z.of_nat (length (script b)) <=? index b + 1)%Z eqn:E2.
    - rewrite drop_ge by lia. reflexivity.
    - by replace (Z.to_nat (index b + 1)) with (S (Z.to_nat (index b))) by lia. }
  rewrite Hnext.
  by destruct (runSteps now _ (withIndex (index b + 1) b)) as [b' calls].
Qed.

(** C10: [start] stops the old script without calling any completion
    callback; in a session made of one [start] and any later operations
    other than [start], the only completion callback ever called is the
    one passed to that [start], it is called at most once, and once it has
    been called the box is stopped (it is called from [stop] with
    completion enabled, which leaves the box inactive). *)
Theorem start_completion_callback now (scr : list (Step K)) (cb : option K)
  (ops : list (Z * Op)) b :
  noStart ops = true →
  let calls := snd (session now scr cb ops b) in
  let final := fst (session now scr cb ops b) in
  completions (snd (stop now false b)) = []
  ∧ (∀ k, k ∈ completions calls → cb = Some k)
  ∧ (length (completions calls) ≤ 1)%nat
  ∧ (completions calls ≠ [] → active final = false).
Proof.
  intros Hn calls final. split; [reflexivity|].
  subst calls final. unfold session, start.
  destruct (stop now false b) as [b1 c1] eqn:Es.
  assert (Hc1 : completions c1 = []).
  { change c1 with (snd (b1, c1)). rewrite <- Es. reflexivity. }
  pose proof (runCurrentStep_callbackStep now (started now scr cb b1)) as Hstep.
  destruct (_runCurrentStep now (started now scr cb b1)) as [b2 c2].
  pose proof (run_callbacks ops b2 Hn) as Hrun.
  destruct (run ops b2) as [b3 c3]. simpl in *.
  rewrite !completions_app, Hc1. simpl.
  destruct Hstep as [(Hc & Ho & _)|(k & Ho & Hc & Ho' & Hi)]; simpl in *;
    rewrite Hc; simpl.
  - destruct Hrun as [[Hc3 _]|(k & Ho3 & Hc3 & Hi3)]; rewrite Hc3; simpl.
    + split; [by intros k Hk%elem_of_nil|]. split; [lia|done].
    + split; [|split; [lia|done]].
      intros k' Hk%list_elem_of_singleton. congruence.
  - destruct Hrun as [[Hc3 Hi3]|(k3 & Ho3 & Hc3 & Hi3)]; [|congruence].
    rewrite Hc3. simpl. split; [|split; [lia|auto]].
    intros k' Hk%list_elem_of_singleton. congruence.
Qed.
End Dialogue.

Lemma choice_confirm_jumps_witness :
  confirmReady 1000 demoBox (mkOption "Walk away" (Some 4) (Some 7%nat))
  ∧ (index (fst (exec 1000 OpKeyZ demoBox)) = 4
     ∧ active (fst (exec 1000 OpKeyZ demoBox)) = true
     ∧ isTyping (fst (exec 1000 OpKeyZ demoBox)) = true
     ∧ fullText (fst (exec 1000 OpKeyZ demoBox)) = "Oh.").
Proof.
  assert (H : confirmReady 1000 demoBox (mkOption "Walk away" (Some 4) (Some 7%nat))).
  { repeat split; try reflexivity. vm_compute. discriminate. }
  split; [exact H|].
  apply (proj1 (proj2 (proj2 (choice_confirm_jumps 1000 demoBox _ H))) "Saga" "Oh.").
  - vm_compute. discriminate.
  - reflexivity.
Defined.

Lemma start_completion_callback_witness :
  noStart demoOps = true
  ∧ (completions (snd (stop 0 false demoBox)) = []
     ∧ (∀ k, k ∈ completions (snd demoSession) → Some 2%nat = Some k)
     ∧ (length (completions (snd demoSession)) ≤ 1)%nat
     ∧ (completions (snd demoSession) ≠ [] → active (fst demoSession) = false)).
Proof.
  split; [reflexivity|].
  apply (start_completion_callback 0 [Say "" "Hi."; End_] (Some 2%nat) demoOps demoBox).
  reflexivity.
Defined.

Example restart_drops_old_callback :
  completions (snd demoSession) = [2%nat] ∧ onComplete demoBox = Some 1%nat.
Proof. vm_compute. split; reflexivity. Qed.

(** ** Walk-in trigger zones *)

Import Interaction Geo Zones.

Lemma Rleb_true (a b : R) : (a <= b)%R → Rleb a b = true.
Proof. intros H. unfold Rleb. by destruct (Rle_dec a b). Qed.

Lemma denyFeedbackCount_snoc (log : list ZEvent) (e : ZEvent) :
  denyFeedbackCount (log ++ [e])
  = (denyFeedbackCount log + (if isDenyFeedback e then 1 else 0))%nat.
Proof.
  unfold denyFeedbackCount. rewrite filter_app, length_app.
  destruct e; reflexivity.
Qed.

Lemma sameDenyView_refl z : sameDenyView z z.
Proof. by repeat split. Qed.

Lemma sameDenyView_trans z1 z2 z3 :
  sameDenyView z1 z2 → sameDenyView z2 z3 → sameDenyView z1 z3.
Proof.
  intros (?&?&?&?&?) (?&?&?&?&?). repeat split; congruence.
Qed.

Lemma applyLayerVisibility_view names vis z :
  sameDenyView z (applyLayerVisibility names vis z).
Proof.
  unfold applyLayerVisibility. generalize (splitCsv names). intros l.
  assert (H : ∀ acc, sameDenyView z acc →
              sameDenyView z (foldl (λ acc lname,
                if bool_decide (lname ∈ layerNames acc)
                then logEvent (LayerVisible lname vis)
                       (setZWorld (onGs (setLayerHidden (sceneKey (zctx acc)) lname (negb vis))
                                     (zworld acc)) acc)
                else acc) acc l)).
  { induction l as [|x l IH]; intros acc Hacc; [done|]. simpl. apply IH.
    case_bool_decide; [|done].
    destruct Hacc as (?&?&?&?&?). repeat split; simpl; try done.
    rewrite denyFeedbackCount_snoc. simpl. lia. }
  apply H, sameDenyView_refl.
Qed.

Lemma runZoneInteraction_view it z : sameDenyView z (runZoneInteraction it z).
Proof.
  unfold runZoneInteraction.
  destruct (isTriggerZone _ && _); [|apply sameDenyView_refl].
  destruct (_runTiledInteraction _ _ _ _) as [w' o].
  repeat split; simpl; try done. rewrite denyFeedbackCount_snoc. simpl. lia.
Qed.

(** The deny block reads the scene only through the deny view. *)
Lemma denyBlock_view now px py it z z' :
  sameDenyView z z' → sameDenyView (denyBlock now px py it z) (denyBlock now px py it z').
Proof.
  intros (Hu & Hx & Hy & Hp & Hc). unfold denyBlock, denyReady. rewrite Hu.
  destruct (negb (isDenyZone (itProps it))); [by repeat split|].
  destruct (denyCooldownUntil z) as [u|] eqn:Eu; simpl;
    [|repeat split; congruence].
  destruct (negb (u <=? now)%Z); [repeat split; congruence|].
  unfold denyCorrect. simpl. rewrite Hp.
  destruct (bool_decide _).
  - destruct (Number_ (nullish (get (itProps it) "denypush") _)); repeat split; simpl;
      rewrite ?denyFeedbackCount_snoc; simpl; congruence || lia.
  - destruct (prevPlayerPos z) as [[x y]|] eqn:Ep; repeat split; simpl;
      rewrite ?denyFeedbackCount_snoc; simpl; congruence || lia.
Qed.

(** On the enter edge a zone does to the deny view what its deny block does. *)
Lemma processZone_enter now px py it z :
  entersZone px py it z →
  sameDenyView (denyBlock now px py it z) (processZone now px py it z).
Proof.
  intros (Hid & Hz & Hin & Hw). unfold processZone.
  rewrite Hid, Hz, Hin. simpl. rewrite bool_decide_eq_false_2 by done. simpl.
  set (z1 := setTrigger _ _ z).
  set (z2 := applyLayerVisibility _ false z1).
  set (z3 := applyLayerVisibility _ true z2).
  set (z4 := runZoneInteraction it z3).
  assert (H4 : sameDenyView z z4).
  { apply sameDenyView_trans with z3; [|apply runZoneInteraction_view].
    apply sameDenyView_trans with z2; [|apply applyLayerVisibility_view].
    apply sameDenyView_trans with z1; [|apply applyLayerVisibility_view].
    by repeat split. }
  apply (denyBlock_view now px py it) in H4.
  destruct (isTrueish _ || isTrueish _); [|exact H4].
  destruct H4 as (?&?&?&?&?). by repeat split.
Qed.

Lemma denyBlock_blocked now px py it z :
  denyReady now z = false → denyBlock now px py it z = z.
Proof.
  intros H. unfold denyBlock. rewrite H. by destruct (negb (isDenyZone _)).
Qed.

Lemma denyBlock_fired now px py it z :
  isDenyZone (itProps it) = true → denyReady now z = true →
  denyCooldownUntil (denyBlock now px py it z)
  = (λ c, now + c) <$> Number_ (nullish (get (itProps it) "denycooldownms") (VNum 600))
  ∧ denyFeedbackCount (zlog (denyBlock now px py it z)) = S (denyFeedbackCount (zlog z))
  ∧ playerX (denyBlock now px py it z) = playerX (denyCorrect px py it z)
  ∧ playerY (denyBlock now px py it z) = playerY (denyCorrect px py it z).
Proof.
  intros Hd Hr. unfold denyBlock. rewrite Hd, Hr. simpl.
  rewrite denyFeedbackCount_snoc. simpl.
  unfold denyCorrect. simpl.
  destruct (bool_decide _).
  - destruct (Number_ (nullish (get (itProps it) "denypush") _)); simpl;
      repeat split; try done; lia.
  - destruct (prevPlayerPos z) as [[x y]|]; simpl; repeat split; try done; lia.
Qed.

(** C5: of two enter events of deny zones (the same zone or two zones of
    the scene), the first one producing its feedback at time [now1] and so
    starting the cooldown window of [c] milliseconds its zone configures
    (600 when not configured), and the second one at a time before
    [now1 + c]: the first adds exactly one feedback event, the second adds
    none and leaves the player where it is, and the cooldown deadline
    stays [now1 + c]. *)
Theorem deny_cooldown_single_feedback
  (now1 now2 : Z) (px1 py1 px2 py2 : R) (it1 it2 : Interactable) (z z' : ZScene)
  (c : Z) :
  entersZone px1 py1 it1 z → isDenyZone (itProps it1) = true →
  denyReady now1 z = true →
  Number_ (nullish (get (itProps it1) "denycooldownms") (VNum 600)) = Some c →
  denyCooldownUntil z' = denyCooldownUntil (processZone now1 px1 py1 it1 z) →
  entersZone px2 py2 it2 z' → isDenyZone (itProps it2) = true →
  (now2 < now1 + c)%Z →
  denyFeedbackCount (zlog (processZone now1 px1 py1 it1 z))
  = S (denyFeedbackCount (zlog z))
  ∧ denyFeedbackCount (zlog (processZone now2 px2 py2 it2 z'))
    = denyFeedbackCount (zlog z')
  ∧ playerX (processZone now2 px2 py2 it2 z') = playerX z'
  ∧ playerY (processZone now2 px2 py2 it2 z') = playerY z'
  ∧ denyCooldownUntil (processZone now2 px2 py2 it2 z') = Some (now1 + c)%Z.
Proof.
  intros He1 Hd1 Hr1 Hc Hz' He2 Hd2 Hlt.
  destruct (processZone_enter now1 px1 py1 it1 z He1) as (Hu1 & _ & _ & _ & Hn1).
  destruct (denyBlock_fired now1 px1 py1 it1 z Hd1 Hr1) as (Hu & Hn & _ & _).
  rewrite Hu, Hc in Hu1. simpl in Hu1. rewrite Hu1 in Hz'.
  assert (Hblocked : denyReady now2 z' = false).
  { unfold denyReady. rewrite Hz'. apply Z.leb_gt. lia. }
  destruct (processZone_enter now2 px2 py2 it2 z' He2) as (Hu2 & Hx2 & Hy2 & _ & Hn2).
  rewrite (denyBlock_blocked now2 px2 py2 it2 z' Hblocked) in *.
  repeat split; congruence.
Qed.
Lemma hypot_nonneg dx dy : (0 <= hypot dx dy)%R.
Proof. apply sqrt_pos. Qed.

Lemma hypot_sqr dx dy : (hypot dx dy * hypot dx dy = dx * dx + dy * dy)%R.
Proof. unfold hypot. apply sqrt_sqrt. nra. Qed.

Lemma hypot_zero_iff dx dy : hypot dx dy = 0%R ↔ dx = 0%R ∧ dy = 0%R.
Proof.
  split.
  - intros H. pose proof (hypot_sqr dx dy) as Hs. rewrite H in Hs. nra.
  - intros [-> ->]. unfold hypot. replace (0 * 0 + 0 * 0)%R with 0%R by lra.
    apply sqrt_0.
Qed.

Lemma hypot_scale t dx dy : (0 <= t)%R → hypot (t * dx) (t * dy) = (t * hypot dx dy)%R.
Proof.
  intros Ht. unfold hypot.
  replace (t * dx * (t * dx) + t * dy * (t * dy))%R
    with ((t * t) * (dx * dx + dy * dy))%R by ring.
  rewrite sqrt_mult by nra. by rewrite sqrt_square.
Qed.

(** The push of a deny zone in terms of the entry position and the centre. *)
Lemma denyCorrect_push px py it z (push : Z) :
  toLowerCase (String_ (nullish (get (itProps it) "denymode") (VStr "rewind"))) = "push" →
  Number_ (nullish (get (itProps it) "denypush") (VNum 12)) = Some push →
  let dx := (px - itCx it)%R in
  let dy := (py - itCy it)%R in
  playerX (denyCorrect px py it z) = (px + dx / orOne (hypot dx dy) * IZR push)%R
  ∧ playerY (denyCorrect px py it z) = (py + dy / orOne (hypot dx dy) * IZR push)%R.
Proof.
  intros Hm Hp dx dy. unfold denyCorrect. rewrite Hm, Hp.
  rewrite bool_decide_eq_true_2 by done. done.
Qed.

Lemma push_off_centre px py cx cy (push : R) :
  let dx := (px - cx)%R in
  let dy := (py - cy)%R in
  (0 <= push)%R → (dx ≠ 0%R ∨ dy ≠ 0%R) →
  let x' := (px + dx / orOne (hypot dx dy) * push)%R in
  let y' := (py + dy / orOne (hypot dx dy) * push)%R in
  x' = (px + dx / hypot dx dy * push)%R
  ∧ y' = (py + dy / hypot dx dy * push)%R
  ∧ hypot (x' - px) (y' - py) = push
  ∧ (x' - px = push / hypot dx dy * dx)%R
  ∧ (y' - py = push / hypot dx dy * dy)%R
  ∧ (0 < hypot dx dy)%R.
Proof.
  intros dx dy Hpush Hne x' y'.
  assert (Hd : hypot dx dy ≠ 0%R).
  { intros H%hypot_zero_iff. destruct Hne; tauto. }
  assert (Hpos : (0 < hypot dx dy)%R).
  { pose proof (hypot_nonneg dx dy). lra. }
  subst x' y'. unfold orOne. destruct (Req_dec_T (hypot dx dy) 0); [done|].
  split; [done|]. split; [done|].
  assert (Hx : (px + dx / hypot dx dy * push - px = push / hypot dx dy * dx)%R)
    by (field; done).
  assert (Hy : (py + dy / hypot dx dy * push - py = push / hypot dx dy * dy)%R)
    by (field; done).
  split; [|done].
  rewrite Hx, Hy. rewrite hypot_scale.
  - field. done.
  - apply Rle_mult_inv_pos; done.
Qed.

Lemma push_at_centre px py cx cy (push : R) :
  (px - cx = 0)%R → (py - cy = 0)%R →
  (px + (px - cx) / orOne (hypot (px - cx) (py - cy)) * push = px)%R
  ∧ (py + (py - cy) / orOne (hypot (px - cx) (py - cy)) * push = py)%R.
Proof.
  intros -> ->. unfold Rdiv. split; ring.
Qed.

(** C6 (as the code has it): for a deny zone in push mode with push
    distance 12 whose feedback fires on entry, an actor whose entry
    position differs from the zone centre is displaced by exactly 12 along
    the direction from the centre to the entry position (in exact real
    arithmetic); an actor that enters exactly at the centre is not
    moved. *)
Theorem deny_push_displacement (now : Z) (px py : R) (it : Interactable) (z : ZScene) :
  entersZone px py it z → isDenyZone (itProps it) = true → denyReady now z = true →
  toLowerCase (String_ (nullish (get (itProps it) "denymode") (VStr "rewind"))) = "push" →
  Number_ (nullish (get (itProps it) "denypush") (VNum 12)) = Some 12 →
  let z' := processZone now px py it z in
  let dx := (px - itCx it)%R in
  let dy := (py - itCy it)%R in
  (dx ≠ 0%R ∨ dy ≠ 0%R →
     playerX z' = (px + dx / hypot dx dy * 12)%R
     ∧ playerY z' = (py + dy / hypot dx dy * 12)%R
     ∧ hypot (playerX z' - px) (playerY z' - py) = 12%R
     ∧ (0 < 12 / hypot dx dy)%R
     ∧ (playerX z' - px = 12 / hypot dx dy * dx)%R
     ∧ (playerY z' - py = 12 / hypot dx dy * dy)%R)
  ∧ (dx = 0%R ∧ dy = 0%R → playerX z' = px ∧ playerY z' = py).
Proof.
  intros He Hd Hr Hm Hp z' dx dy.
  destruct (processZone_enter now px py it z He) as (_ & Hx & Hy & _ & _).
  destruct (denyBlock_fired now px py it z Hd Hr) as (_ & _ & Hbx & Hby).
  destruct (denyCorrect_push px py it z 12 Hm Hp) as [Hcx Hcy].
  fold z' in Hx, Hy. rewrite Hbx, Hcx in Hx. rewrite Hby, Hcy in Hy.
  fold dx dy in Hx, Hy. split.
  - intros Hne.
    destruct (push_off_centre px py (itCx it) (itCy it) 12 ltac:(lra) Hne)
      as (Ex & Ey & Eh & Edx & Edy & Hpos).
    fold dx dy in Ex, Ey, Eh, Edx, Edy, Hpos.
    rewrite Hx, Hy. repeat split; try done.
    apply Rdiv_lt_0_compat; lra.
  - intros [H0x H0y]. rewrite Hx, Hy. subst dx dy.
    apply push_at_centre; done.
Qed.

Lemma insideZone_true px py it :
  (itCx it - itW it / 2 <= px)%R → (px <= itCx it - itW it / 2 + itW it)%R →
  (itCy it - itH it / 2 <= py)%R → (py <= itCy it - itH it / 2 + itH it)%R →
  insideZone px py it = true.
Proof.
  intros. unfold insideZone. by rewrite !Rleb_true.
Qed.

Lemma wall_enters (it : Interactable) (x y : R) (z : ZScene) :
  itProps it = wallProps → itName it = VStr "wall" →
  insideZone x y it = true → triggerInside z = ∅ → entersZone x y it z.
Proof.
  intros Hp Hn Hin Ht. unfold entersZone, zoneId. rewrite Hp, Hn, Ht.
  split; [by vm_compute|]. split; [by vm_compute|]. split; [done|].
  apply not_elem_of_empty.
Qed.

Lemma deny_push_displacement_witness :
  entersZone 16 0 wallBox (freshScene wallBox 16 0)
  ∧ hypot (playerX (processZone 1000 16 0 wallBox (freshScene wallBox 16 0)) - 16)
          (playerY (processZone 1000 16 0 wallBox (freshScene wallBox 16 0)) - 0)
    = 12%R.
Proof.
  assert (He : entersZone 16 0 wallBox (freshScene wallBox 16 0)).
  { apply wall_enters; try reflexivity. apply insideZone_true; simpl; lra. }
  split; [exact He|].
  apply (proj1 (deny_push_displacement 1000 16 0 wallBox (freshScene wallBox 16 0)
                  He eq_refl eq_refl eq_refl eq_refl)).
  left. simpl. lra.
Defined.

(** C6 as stated fails: the player steps onto the centre of a two pixel
    wide deny zone; the feedback fires, and the push leaves the player at
    the centre instead of 12 away from the entry position. *)
Lemma deny_push_at_centre_no_displacement :
  let z := freshScene wallThin 0 0 in
  let z' := processZone 1000 0 0 wallThin z in
  entersZone 0 0 wallThin z
  ∧ denyReady 1000 z = true
  ∧ denyFeedbackCount (zlog z') = 1%nat
  ∧ playerX z' = 0%R ∧ playerY z' = 0%R
  ∧ hypot (playerX z' - 0) (playerY z' - 0) ≠ 12%R.
Proof.
  intros z z'.
  assert (He : entersZone 0 0 wallThin z).
  { apply wall_enters; try reflexivity. apply insideZone_true; simpl; lra. }
  destruct (processZone_enter 1000 0 0 wallThin z He) as (_ & Hx & Hy & _ & Hn).
  destruct (denyBlock_fired 1000 0 0 wallThin z eq_refl eq_refl) as (_ & Hc & Hbx & Hby).
  destruct (denyCorrect_push 0 0 wallThin z 12 eq_refl eq_refl) as [Hcx Hcy].
  destruct (push_at_centre 0 0 0 0 12 ltac:(lra) ltac:(lra)) as [Px Py].
  simpl in Hcx, Hcy. rewrite Px in Hcx. rewrite Py in Hcy.
  fold z' in Hx, Hy, Hn.
  assert (Ex : playerX z' = 0%R) by congruence.
  assert (Ey : playerY z' = 0%R) by congruence.
  split; [exact He|]. split; [reflexivity|].
  split; [rewrite Hn, Hc; reflexivity|].
  split; [exact Ex|]. split; [exact Ey|].
  rewrite Ex, Ey. replace (0 - 0)%R with 0%R by lra.
  rewrite (proj2 (hypot_zero_iff 0 0)) by done. lra.
Qed.

Lemma deny_cooldown_single_feedback_witness :
  let z := freshScene wallBox 16 0 in
  let z' := afterLeaving (processZone 1000 16 0 wallBox z) in
  (entersZone 16 0 wallBox z ∧ denyReady 1000 z = true ∧ entersZone 16 0 wallBox z'
   ∧ (1300 < 1000 + 600)%Z)
  ∧ (denyFeedbackCount (zlog (processZone 1000 16 0 wallBox z))
     = S (denyFeedbackCount (zlog z))
     ∧ denyFeedbackCount (zlog (processZone 1300 16 0 wallBox z'))
       = denyFeedbackCount (zlog z')
     ∧ playerX (processZone 1300 16 0 wallBox z') = playerX z'
     ∧ playerY (processZone 1300 16 0 wallBox z') = playerY z'
     ∧ denyCooldownUntil (processZone 1300 16 0 wallBox z') = Some (1000 + 600)%Z).
Proof.
  intros z z'.
  assert (Hin : insideZone 16 0 wallBox = true)
    by (apply insideZone_true; simpl; lra).
  assert (He : entersZone 16 0 wallBox z) by (by apply wall_enters).
  assert (He' : entersZone 16 0 wallBox z') by (by apply wall_enters).
  split; [repeat split; try done; lia|].
  apply (deny_cooldown_single_feedback 1000 1300 16 0 16 0 wallBox wallBox z z' 600);
    try done.
Defined.

(** ** The NPC waypoint mover *)

Import Npc.

Lemma Rleb_false (a b : R) : (b < a)%R → Rleb a b = false.
Proof. intros H. unfold Rleb. destruct (Rle_dec a b); [lra|done]. Qed.

Lemma Rleb_spec (a b : R) : Rleb a b = true ↔ (a <= b)%R.
Proof. unfold Rleb. destruct (Rle_dec a b); split; (done || lra || discriminate). Qed.

Lemma updateMovingNpcs_spawned sc id n :
  spawnedNpcsById sc !! id = Some n →
  spawnedNpcsById (updateMovingNpcs sc) !! id
  = Some (match movingNpcById sc !! id with
          | Some st => fst (stepEntry n st)
          | None => n
          end).
Proof.
  intros H. unfold updateMovingNpcs. simpl. rewrite map_lookup_imap, H. simpl.
  by destruct (movingNpcById sc !! id).
Qed.

Lemma updateMovingNpcs_moving sc id :
  movingNpcById (updateMovingNpcs sc) !! id
  = match movingNpcById sc !! id, spawnedNpcsById sc !! id with
    | Some st, Some n => snd (stepEntry n st)
    | _, _ => None
    end.
Proof.
  unfold updateMovingNpcs. simpl. rewrite map_lookup_imap.
  destruct (movingNpcById sc !! id) as [st|]; simpl; [|done].
  by destruct (spawnedNpcsById sc !! id).
Qed.

#[local] Arguments updateMovingNpcs : simpl never.

Section SingleWaypoint.
Variables (id : string) (tx ty : R).

Lemma stepEntry_arrived st n :
  isSprite n = true → hasRect n = true → points st = [(tx, ty)] → idx st = 0%nat →
  arrived st tx ty n = true →
  stepEntry n st = (halted (snapped tx ty n), None).
Proof.
  intros Hs Hr Hp Hi Ha. unfold stepEntry. rewrite Hs, Hr, Hp, Hi. simpl.
  by rewrite Ha.
Qed.

Lemma stepEntry_heading st n :
  isSprite n = true → hasRect n = true → points st = [(tx, ty)] → idx st = 0%nat →
  arrived st tx ty n = false →
  stepEntry n st = (heading st tx ty n, Some st).
Proof.
  intros Hs Hr Hp Hi Ha. unfold stepEntry. rewrite Hs, Hr, Hp, Hi. simpl.
  by rewrite Ha.
Qed.

Lemma tick_arrives st n sc :
  headingFor id tx ty st n sc → arrived st tx ty n = true → restsAt id tx ty (updateMovingNpcs sc).
Proof.
  intros (Hn & Hs & Hr & Hm & Hp & Hi) Ha.
  exists (halted (snapped tx ty n)).
  rewrite (updateMovingNpcs_spawned sc id n Hn), updateMovingNpcs_moving, Hm, Hn.
  rewrite (stepEntry_arrived st n) by done. done.
Qed.

Lemma restsAt_stable dt sc : restsAt id tx ty sc → restsAt id tx ty (driftAll dt (updateMovingNpcs sc)).
Proof.
  intros (n & Hn & Hx & Hy & Hvx & Hvy & Hm).
  exists (drift dt n). unfold driftAll. cbn [spawnedNpcsById movingNpcById].
  rewrite lookup_fmap, (updateMovingNpcs_spawned sc id n Hn), Hm.
  rewrite updateMovingNpcs_moving, Hm. simpl. rewrite Hvx, Hvy, Hx, Hy.
  repeat split; try done; ring.
Qed.

Lemma restsAt_drift dt sc : restsAt id tx ty sc → restsAt id tx ty (driftAll dt sc).
Proof.
  intros (n & Hn & Hx & Hy & Hvx & Hvy & Hm).
  exists (drift dt n). unfold driftAll. cbn [spawnedNpcsById movingNpcById].
  rewrite lookup_fmap, Hn. simpl. rewrite Hvx, Hvy, Hx, Hy.
  repeat split; try done; ring.
Qed.

Lemma restsAt_ticks dt m sc : restsAt id tx ty sc → restsAt id tx ty (ticks dt m sc).
Proof.
  revert sc. induction m as [|m IH]; intros sc H; [done|].
  simpl. apply IH, restsAt_stable, H.
Qed.

(** A tick that does not arrive, followed by unobstructed motion, brings
    the NPC closer to the waypoint by the distance covered in [dt]. *)
Lemma tick_approaches dt st n sc :
  (0 < dt)%R → (moveSpeed st * dt <= arriveTolerance st)%R →
  headingFor id tx ty st n sc → arrived st tx ty n = false →
  ∃ n', headingFor id tx ty st n' (driftAll dt (updateMovingNpcs sc))
        ∧ hypot (tx - sprX n') (ty - sprY n')
          = (hypot (tx - sprX n) (ty - sprY n) - moveSpeed st * dt)%R.
Proof.
  intros Hdt Hstep (Hn & Hs & Hr & Hm & Hp & Hi) Ha.
  exists (drift dt (heading st tx ty n)). split.
  - unfold headingFor, driftAll. cbn [spawnedNpcsById movingNpcById].
    rewrite lookup_fmap, (updateMovingNpcs_spawned sc id n Hn), Hm.
    rewrite updateMovingNpcs_moving, Hm, Hn.
    rewrite (stepEntry_heading st n) by done. simpl. done.
  - unfold arrived in Ha. apply orb_false_iff in Ha as [Ha _].
    set (dx := (tx - sprX n)%R) in *. set (dy := (ty - sprY n)%R) in *.
    set (d := hypot dx dy) in *.
    assert (Hd : (arriveTolerance st < d)%R).
    { unfold Rleb in Ha. destruct (Rle_dec d (arriveTolerance st)); [done|lra]. }
    assert (Hspd : (0 < moveSpeed st)%R).
    { unfold moveSpeed. pose proof (Rmax_l 1 (if Req_dec_T (speed st) 0 then 40 else speed st)).
      lra. }
    assert (Hs0 : (0 < moveSpeed st * dt)%R) by (apply Rmult_lt_0_compat; done).
    assert (Hdpos : (0 < d)%R) by lra.
    simpl. fold dx dy d.
    replace (tx - (sprX n + dx / d * moveSpeed st * dt))%R
      with ((1 - moveSpeed st * dt / d) * dx)%R by (unfold dx; field; lra).
    replace (ty - (sprY n + dy / d * moveSpeed st * dt))%R
      with ((1 - moveSpeed st * dt / d) * dy)%R by (unfold dy; field; lra).
    rewrite hypot_scale.
    + fold d. field. lra.
    + assert (moveSpeed st * dt / d <= 1)%R; [|lra].
      apply (Rmult_le_reg_r d); [lra|]. unfold Rdiv.
      rewrite Rmult_assoc, Rinv_l by lra. lra.
Qed.

(** With at most [N] steps of length [speed * dt] between the NPC and the
    arrival tolerance, [N + 1] ticks are enough. *)
Lemma arrives_within dt (N : nat) : ∀ st n sc,
  (0 < dt)%R → (moveSpeed st * dt <= arriveTolerance st)%R →
  headingFor id tx ty st n sc →
  (hypot (tx - sprX n) (ty - sprY n) <= arriveTolerance st + INR N * (moveSpeed st * dt))%R →
  ∃ k, (k ≤ S N)%nat ∧ restsAt id tx ty (ticks dt k sc).
Proof.
  induction N as [|N IH]; intros st n sc Hdt Hstep Hh Hdist.
  - exists 1%nat. split; [lia|]. simpl. apply restsAt_drift.
    apply (tick_arrives st n sc Hh). unfold arrived. apply orb_true_iff. left.
    apply Rleb_spec. simpl in Hdist. lra.
  - destruct (arrived st tx ty n) eqn:Ha.
    + exists 1%nat. split; [lia|]. simpl. apply restsAt_drift.
      by apply (tick_arrives st n sc Hh).
    + destruct (tick_approaches dt st n sc Hdt Hstep Hh Ha) as (n' & Hh' & Hd').
      destruct (IH st n' _ Hdt Hstep Hh') as (k & Hk & Hrest).
      { rewrite Hd'. rewrite S_INR in Hdist. lra. }
      exists (S k). split; [lia|]. exact Hrest.
Qed.
End SingleWaypoint.

Lemma ticks_add dt (a b : nat) sc : ticks dt (a + b) sc = ticks dt b (ticks dt a sc).
Proof.
  revert sc. induction a as [|a IH]; intros sc; [done|]. simpl. apply IH.
Qed.

Lemma steps_cover (d s : R) : (0 < s)%R → ∃ N : nat, (d <= INR N * s)%R.
Proof.
  intros Hs. destruct (Rle_dec d 0) as [Hd|Hd].
  - exists 0%nat. simpl. lra.
  - destruct (archimed (d / s)) as [Hup _].
    assert (Hq : (0 < d / s)%R) by (apply Rdiv_lt_0_compat; lra).
    assert (Hz : (0 < up (d / s))%Z) by (apply lt_IZR; simpl; lra).
    exists (Z.to_nat (up (d / s))).
    rewrite INR_IZR_INZ, Z2Nat.id by lia.
    assert (d = d / s * s)%R as Hd' by (field; lra).
    rewrite Hd' at 1. apply Rmult_le_compat_r; lra.
Qed.

(** C7: for a registered sprite NPC sent to a single waypoint: on the
    tick on which the arrival test holds the NPC is put exactly on the
    waypoint and its movement state is deleted in that same tick, so that
    it reports itself not moving at once; on a tick on which the test
    fails the mover leaves the position alone and the NPC keeps moving; and
    when nothing obstructs the body and a tick covers no more than the
    arrival tolerance, after enough ticks the NPC rests exactly on the
    waypoint, with no movement state, and stays there. *)
Theorem waypoint_arrival (sc : NpcScene) (id : string) (n : NpcObj)
  (st : MoveState) (tx ty : R) :
  headingFor id tx ty st n sc →
  (arrived st tx ty n = true →
     restsAt id tx ty (updateMovingNpcs sc)
     ∧ (trim id = id → isSpawnedNpcMoving id (updateMovingNpcs sc) = false))
  ∧ (arrived st tx ty n = false →
     movingNpcById (updateMovingNpcs sc) !! id = Some st
     ∧ ∃ n', spawnedNpcsById (updateMovingNpcs sc) !! id = Some n'
             ∧ sprX n' = sprX n ∧ sprY n' = sprY n)
  ∧ (∀ dt : R, (0 < dt)%R → (moveSpeed st * dt <= arriveTolerance st)%R →
     ∃ k : nat, ∀ m : nat, (k ≤ m)%nat → restsAt id tx ty (ticks dt m sc)).
Proof.
  intros Hh. split; [|split].
  - intros Ha. pose proof (tick_arrives id tx ty st n sc Hh Ha) as Hr.
    split; [exact Hr|]. intros Ht. unfold isSpawnedNpcMoving. rewrite Ht.
    destruct Hr as (n' & _ & _ & _ & _ & _ & Hm). rewrite Hm.
    rewrite bool_decide_eq_false_2; [apply andb_false_r|]. by intros [? ?].
  - intros Ha. destruct Hh as (Hn & Hs & Hr & Hm & Hp & Hi).
    rewrite updateMovingNpcs_moving, Hm, Hn.
    rewrite (updateMovingNpcs_spawned sc id n Hn), Hm.
    rewrite (stepEntry_heading tx ty st n) by done. simpl.
    split; [done|]. eexists. split; [done|]. done.
  - intros dt Hdt Hstep.
    assert (Hs0 : (0 < moveSpeed st * dt)%R).
    { apply Rmult_lt_0_compat; [|done]. unfold moveSpeed.
      pose proof (Rmax_l 1 (if Req_dec_T (speed st) 0 then 40 else speed st)). lra. }
    destruct (steps_cover (hypot (tx - sprX n) (ty - sprY n)) _ Hs0) as [N HN].
    destruct (arrives_within id tx ty dt N st n sc Hdt Hstep Hh) as (k & _ & Hk).
    { pose proof (Rmax_l 6 (if Req_dec_T (arriveDist st) 0 then 2 else arriveDist st)).
      unfold arriveTolerance. lra. }
    exists k. intros m Hm. replace m with (k + (m - k))%nat by lia.
    rewrite ticks_add. by apply restsAt_ticks.
Qed.

Lemma gladMove_speed : moveSpeed gladMove = 40%R.
Proof.
  unfold moveSpeed, gladMove. simpl. destruct (Req_dec_T 40 0); [lra|].
  apply Rmax_right. lra.
Qed.

Lemma gladMove_tolerance : arriveTolerance gladMove = 6%R.
Proof.
  unfold arriveTolerance, gladMove. simpl. destruct (Req_dec_T 2 0); [lra|].
  apply Rmax_left. lra.
Qed.

Lemma waypoint_arrival_witness :
  headingFor "Glad" 30 40 gladMove gladNpc gladScene
  ∧ ∃ k : nat, ∀ m : nat, (k ≤ m)%nat → restsAt "Glad" 30 40 (ticks (1 / 60) m gladScene).
Proof.
  assert (Hh : headingFor "Glad" 30 40 gladMove gladNpc gladScene).
  { unfold headingFor, gladScene. simpl. rewrite !lookup_singleton_eq. done. }
  split; [exact Hh|].
  apply (proj2 (proj2 (waypoint_arrival gladScene "Glad" gladNpc gladMove 30 40 Hh))).
  - lra.
  - rewrite gladMove_speed, gladMove_tolerance. lra.
Defined.

(** ** The global clock *)

Import Frame.

(** No store operation other than the tick writes [realTimeMs]. *)
Ltac store_cases :=
  repeat match goal with
         | |- context [if ?c then _ else _] => destruct c
         | |- context [match ?c with _ => _ end] => destruct c
         end; try reflexivity.

Lemma addItem_clock item n g : realTimeMs (addItem item n g) = realTimeMs g.
Proof. unfold addItem. store_cases. Qed.
Lemma removeItem_clock item n g : realTimeMs (removeItem item n g) = realTimeMs g.
Proof. unfold removeItem. store_cases. Qed.
Lemma disableInteraction_clock id g : realTimeMs (disableInteraction id g) = realTimeMs g.
Proof. unfold disableInteraction. store_cases. Qed.
Lemma setLayerHidden_clock sk ln h g : realTimeMs (setLayerHidden sk ln h g) = realTimeMs g.
Proof. unfold setLayerHidden. store_cases. Qed.
Lemma markHelped_clock name g : realTimeMs (markHelped name g) = realTimeMs g.
Proof. unfold markHelped. store_cases. Qed.
Lemma incrementInteractionCount_clock id g :
  realTimeMs (snd (incrementInteractionCount id g)) = realTimeMs g.
Proof. unfold incrementInteractionCount. store_cases. Qed.
Lemma setAnyFlag_clock k v g : realTimeMs (_setAnyFlag k v g) = realTimeMs g.
Proof. reflexivity. Qed.
Lemma giveItemOnce_clock sc id item g : realTimeMs (giveItemOnce sc id item g) = realTimeMs g.
Proof. unfold giveItemOnce. store_cases; simpl; apply addItem_clock. Qed.
Lemma takeItemOnce_clock sc id item g : realTimeMs (takeItemOnce sc id item g) = realTimeMs g.
Proof. unfold takeItemOnce. store_cases; simpl; apply removeItem_clock. Qed.
Lemma musicEffects_clock sc id props g : realTimeMs (musicEffects sc id props g) = realTimeMs g.
Proof.
  unfold musicEffects, setSceneMusic, _clearSceneMusicOverride. store_cases.
Qed.
Lemma setInteractionForcedDisabled_clock sk id d g :
  realTimeMs (_setInteractionForcedDisabled sk id d g) = realTimeMs g.
Proof. unfold _setInteractionForcedDisabled. store_cases. Qed.
Lemma setInteractionForcedEnabled_clock sk id d g :
  realTimeMs (_setInteractionForcedEnabled sk id d g) = realTimeMs g.
Proof. unfold _setInteractionForcedEnabled. store_cases. Qed.

Lemma onGs_clock f w :
  (∀ g, realTimeMs (f g) = realTimeMs g) → clockOf (onGs f w) = clockOf w.
Proof. intros H. apply H. Qed.

Lemma forEach_clock {A} (f : A → World → World) l w :
  (∀ x w', clockOf (f x w') = clockOf w') → clockOf (forEach f l w) = clockOf w.
Proof.
  intros H. unfold forEach. revert w. induction l as [|x l IH]; intros w; [done|].
  simpl. rewrite IH. apply H.
Qed.

Lemma removeColliderById_clock sc cid w : clockOf (_removeColliderById sc cid w) = clockOf w.
Proof. unfold _removeColliderById. store_cases. Qed.
Lemma disableTarget_clock sc t w : clockOf (disableTarget sc t w) = clockOf w.
Proof.
  unfold disableTarget. destruct (_parseInteractionTarget _ _) as [[sk tid]|]; [|done].
  destruct (bool_decide _); apply setInteractionForcedDisabled_clock.
Qed.
Lemma enableTarget_clock sc t w : clockOf (enableTarget sc t w) = clockOf w.
Proof.
  unfold enableTarget. destruct (_parseInteractionTarget _ _) as [[sk tid]|]; [|done].
  unfold clockOf, onGs. cbn [gstate].
  by rewrite setInteractionForcedEnabled_clock, setInteractionForcedDisabled_clock.
Qed.
Lemma removalEffects_clock id props w : clockOf (removalEffects id props w) = clockOf w.
Proof.
  unfold removalEffects.
  assert (H : clockOf (match splitCsv (get props "removeinteraction") with
                       | [] => if isTrue (get props "once")
                               then onGs (disableInteraction id) w else w
                       | _ :: _ => forEach (λ rid, onGs (disableInteraction rid))
                                     (splitCsv (get props "removeinteraction")) w
                       end) = clockOf w).
  { destruct (splitCsv _) as [|r l].
    - destruct (isTrue _); [apply disableInteraction_clock|done].
    - apply forEach_clock. intros. apply disableInteraction_clock. }
  destruct (_ || _); [|exact H]. exact H.
Qed.

Lemma addHelp_clock n g : realTimeMs (addHelp n g) = realTimeMs g.
Proof. unfold addHelp. store_cases. Qed.
Lemma addScore_clock n g : realTimeMs (addScore n g) = realTimeMs g.
Proof. unfold addScore. store_cases. Qed.
Lemma dropInteractable_clock id w : clockOf (dropInteractable id w) = clockOf w.
Proof. reflexivity. Qed.

Ltac clock_gs :=
  cbv beta;
  lazymatch goal with
  | |- realTimeMs ?t = _ =>
      lazymatch t with
      | musicEffects _ _ _ _ => apply musicEffects_clock
      | setLayerHidden _ _ _ _ => apply setLayerHidden_clock
      | addItem _ _ _ => apply addItem_clock
      | giveItemOnce _ _ _ _ => apply giveItemOnce_clock
      | takeItemOnce _ _ _ _ => apply takeItemOnce_clock
      | removeItem _ _ _ => apply removeItem_clock
      | addHelp _ _ => apply addHelp_clock
      | addScore _ _ => apply addScore_clock
      | markHelped _ _ => apply markHelped_clock
      | _setInteractionForcedDisabled _ _ _ _ => apply setInteractionForcedDisabled_clock
      | _setAnyFlag _ _ _ => apply setAnyFlag_clock
      end
  end.

Lemma onGs_clock' f w x :
  (∀ g, realTimeMs (f g) = realTimeMs g) → clockOf w = x → clockOf (onGs f w) = x.
Proof. intros H <-. apply H. Qed.
Lemma forEach_clock' {A} (f : A → World → World) l w x :
  (∀ y w', clockOf (f y w') = clockOf w') → clockOf w = x →
  clockOf (forEach f l w) = x.
Proof. intros H <-. by apply forEach_clock. Qed.
Lemma dropInteractable_clock' id w x :
  clockOf w = x → clockOf (dropInteractable id w) = x.
Proof. done. Qed.

Ltac clock_each :=
  intros; cbv beta;
  lazymatch goal with
  | |- clockOf ?t = _ =>
      lazymatch t with
      | _removeColliderById _ _ _ => apply removeColliderById_clock
      | disableTarget _ _ _ => apply disableTarget_clock
      | enableTarget _ _ _ => apply enableTarget_clock
      | onGs _ _ => apply onGs_clock; intros; clock_gs
      | (if ?c then _ else _) _ =>
          destruct c; [apply onGs_clock; intros; clock_gs | reflexivity]
      end
  end.

Ltac clock_step :=
  lazymatch goal with
  | |- clockOf ?t = _ =>
      lazymatch t with
      | (if ?c then _ else _) => destruct c
      | dropInteractable _ _ => apply dropInteractable_clock'
      | onGs _ _ => apply onGs_clock'; [intros; clock_gs|]
      | forEach _ _ _ => apply forEach_clock'; [clock_each|]
      | _ => reflexivity
      end
  end.

Lemma applyInteractionEffects_clock sc id props w :
  clockOf (_applyInteractionEffects sc id props w) = clockOf w.
Proof.
  unfold _applyInteractionEffects. cbv zeta.
  rewrite removalEffects_clock.
  repeat clock_step.
Qed.

Lemma runHelped_clock sc props id w :
  clockOf (runHelped sc props id w).1 = clockOf w.
Proof.
  unfold runHelped. cbv zeta.
  destruct (negb _ && bool_decide _); cbv iota beta;
    destruct (_ || _); reflexivity.
Qed.

Lemma runDialogue_clock sc props id useIndex w :
  clockOf (runDialogue sc props id useIndex w).1 = clockOf w.
Proof.
  unfold runDialogue. cbv zeta.
  destruct (_ || _).
  - destruct (hasFollowerDialogueProps props); [reflexivity|].
    apply applyInteractionEffects_clock.
  - destruct (_ && _); [|reflexivity].
    destruct (_buildSequenceScriptFromKeys _ _ _ _ _ _ _); [|reflexivity].
    apply applyInteractionEffects_clock.
Qed.

Lemma runTiledInteraction_clock sc props objName w :
  clockOf (_runTiledInteraction sc props objName w).1 = clockOf w.
Proof.
  unfold _runTiledInteraction. cbv zeta.
  destruct (negb (nonEmpty _)); [reflexivity|].
  destruct (isInteractionDisabled _ _); [reflexivity|].
  destruct (shouldCheckRequires _ _ _ _); cbv iota beta.
  - destruct (true && _); [reflexivity|].
    destruct (_ && _).
    + by rewrite runHelped_clock.
    + destruct (incrementInteractionCount _ _) as [u g2] eqn:Ei.
      pose proof (incrementInteractionCount_clock (interactionId props objName)
                    (gstate (onGs (_setAnyFlag
                       (_flagKey "__req_satisfied"
                          [VStr (sceneKey sc); VStr (interactionId props objName)])
                       (VBool true)) w))) as Hc.
      rewrite Ei in Hc. simpl in Hc.
      destruct (_ && _); [exact Hc|].
      rewrite runDialogue_clock. exact Hc.
  - destruct (false && _); [reflexivity|].
    destruct (_ && _).
    + by rewrite runHelped_clock.
    + destruct (incrementInteractionCount _ _) as [u g2] eqn:Ei.
      pose proof (incrementInteractionCount_clock (interactionId props objName)
                    (gstate w)) as Hc.
      rewrite Ei in Hc. simpl in Hc.
      destruct (_ && _); [exact Hc|].
      rewrite runDialogue_clock. exact Hc.
Qed.

Lemma foldl_clock {A} (f : ZScene → A → ZScene) l z :
  (∀ acc x, clockOf (zworld (f acc x)) = clockOf (zworld acc)) →
  clockOf (zworld (foldl f z l)) = clockOf (zworld z).
Proof.
  intros H. revert z. induction l as [|x l IH]; intros z; [done|].
  simpl. rewrite IH. apply H.
Qed.

Lemma applyLayerVisibility_clock names vis z :
  clockOf (zworld (applyLayerVisibility names vis z)) = clockOf (zworld z).
Proof.
  unfold applyLayerVisibility. apply foldl_clock. intros acc x.
  destruct (bool_decide _); [|reflexivity]. apply setLayerHidden_clock.
Qed.

Lemma runZoneInteraction_clock it z :
  clockOf (zworld (runZoneInteraction it z)) = clockOf (zworld z).
Proof.
  unfold runZoneInteraction. destruct (_ && _); [|reflexivity].
  pose proof (runTiledInteraction_clock (zctx z) (itProps it) (itName it) (zworld z)) as H.
  destruct (_runTiledInteraction _ _ _ _) as [w' o]. exact H.
Qed.

Lemma denyBlock_clock now px py it z :
  clockOf (zworld (denyBlock now px py it z)) = clockOf (zworld z).
Proof.
  unfold denyBlock, denyCorrect. cbv zeta.
  destruct (negb (isDenyZone _)); [reflexivity|].
  destruct (negb (denyReady _ _)); [reflexivity|].
  destruct (bool_decide _).
  - destruct (Number_ (nullish (get (itProps it) "denypush") _)); reflexivity.
  - cbn [prevPlayerPos setDenyCooldownUntil].
    destruct (prevPlayerPos z) as [[x y]|]; reflexivity.
Qed.

Lemma processZone_clock now px py it z :
  clockOf (zworld (processZone now px py it z)) = clockOf (zworld z).
Proof.
  unfold processZone. cbv zeta.
  destruct (negb (nonEmpty _)); [reflexivity|].
  destruct (negb (isZoneLike _)); [reflexivity|].
  destruct (_ && negb _).
  - assert (H : ∀ z0, clockOf (zworld z0) = clockOf (zworld z) →
        clockOf (zworld (denyBlock now px py it (runZoneInteraction it z0)))
        = clockOf (zworld z)).
    { intros z0 H0. by rewrite denyBlock_clock, runZoneInteraction_clock. }
    destruct (_ || _).
    + cbn [zworld setZWorld]. unfold clockOf, onGs. cbn [gstate].
      rewrite disableInteraction_clock. apply H.
      by rewrite !applyLayerVisibility_clock.
    + apply H. by rewrite !applyLayerVisibility_clock.
  - destruct (negb _ && _); [|reflexivity].
    destruct (bool_decide _); [|reflexivity].
    by rewrite !applyLayerVisibility_clock.
Qed.

Lemma updateAutoTriggerZones_clock now z :
  clockOf (zworld (updateAutoTriggerZones now z)) = clockOf (zworld z).
Proof.
  unfold updateAutoTriggerZones. destruct (negb _); [reflexivity|].
  apply foldl_clock. intros. apply processZone_clock.
Qed.

Lemma baseUpdateInteract_clock inp z :
  clockOf (zworld (baseUpdateInteract inp z)) = clockOf (zworld z).
Proof.
  unfold baseUpdateInteract. destruct (negb (interactPressed inp)); [reflexivity|].
  destruct (currentInteractable inp) as [it|]; [|reflexivity].
  destruct (negb (canWorldInteract _ _)); [reflexivity|].
  pose proof (runTiledInteraction_clock (zctx z) (itProps it) (itName it) (zworld z)) as H.
  destruct (_runTiledInteraction _ _ _ _) as [w' o]. exact H.
Qed.

Lemma tickGlobalRealTime_spec delta g :
  realTimeMs (_tickGlobalRealTime delta g)
  = (realTimeMs g + match delta with Some d => Rmax 0 d | None => 0 end)%R.
Proof.
  unfold _tickGlobalRealTime, Rltb. destruct delta as [d|]; [|lra].
  destruct (Rlt_dec 0 d); simpl.
  - rewrite Rmax_right by lra. reflexivity.
  - rewrite Rmax_left by lra. lra.
Qed.

(** C9: under every per-frame step the global clock [realTimeMs] does not
    decrease; on a frame during which the dialogue box is active it is
    left exactly as it was; and on any other frame it grows by the loop
    delta when that is a positive finite number and is left unchanged
    otherwise, whatever the trigger zones and the interaction run in the
    frame do to the store. *)
Theorem realTimeMs_monotone_paused (inp : FrameInput) (fs : FrameState) :
  (realTimeMs (storeOf fs) <= realTimeMs (storeOf (baseUpdateFrame inp fs)))%R
  ∧ (dialogueActive inp = true →
     realTimeMs (storeOf (baseUpdateFrame inp fs)) = realTimeMs (storeOf fs))
  ∧ (dialogueActive inp = false →
     realTimeMs (storeOf (baseUpdateFrame inp fs))
     = (realTimeMs (storeOf fs)
        + match delta inp with Some d => Rmax 0 d | None => 0 end)%R).
Proof.
  assert (H : dialogueActive inp = false →
     realTimeMs (storeOf (baseUpdateFrame inp fs))
     = (realTimeMs (storeOf fs)
        + match delta inp with Some d => Rmax 0 d | None => 0 end)%R).
  { intros Hd. unfold baseUpdateFrame, storeOf. rewrite Hd. cbv zeta.
    cbn [zones]. change (realTimeMs (gstate ?w)) with (clockOf w).
    rewrite baseUpdateInteract_clock, updateAutoTriggerZones_clock.
    destruct (allowMovement inp); apply tickGlobalRealTime_spec. }
  split; [|split; [|exact H]].
  - destruct (dialogueActive inp) eqn:Hd.
    + unfold baseUpdateFrame. rewrite Hd. apply Rle_refl.
    + rewrite H by done. destruct (delta inp) as [d|]; [|lra].
      pose proof (Rmax_l 0 d). lra.
  - intros Hd. unfold baseUpdateFrame. by rewrite Hd.
Qed.

(** ** Once-guarded effects *)

Lemma app_assoc_s (a b c : string) : (a +:+ b) +:+ c = a +:+ (b +:+ c).
Proof. induction a as [|x a IH]; [done|]. rewrite !app_cons_s. by f_equal. Qed.

Lemma rev_app_app (s1 s2 : string) : String.rev_app s1 s2 = String.rev s1 +:+ s2.
Proof.
  unfold String.rev. revert s2. induction s1 as [|a s1 IH]; intros s2; [done|].
  simpl. rewrite IH, (IH (String a "")), app_assoc_s. done.
Qed.

Lemma rev_app_distr_s (s1 s2 : string) :
  String.rev (s1 +:+ s2) = String.rev s2 +:+ String.rev s1.
Proof.
  induction s1 as [|a s1 IH]; [by rewrite app_nil_l_s, app_nil_r_s|].
  rewrite app_cons_s. unfold String.rev at 1 3. simpl.
  rewrite !rev_app_app, IH, app_assoc_s. done.
Qed.

Lemma rev_involutive_s (s : string) : String.rev (String.rev s) = s.
Proof.
  induction s as [|a s IH]; [done|].
  unfold String.rev at 2. simpl. rewrite rev_app_app, rev_app_distr_s, IH. done.
Qed.

Lemma trimStart_suffix (s : string) : ∃ p, s = p +:+ trimStart s.
Proof.
  induction s as [|a s [p IH]]; [by exists ""|]. simpl.
  destruct (Ascii.is_space a).
  - exists (String a p). rewrite app_cons_s. by f_equal.
  - by exists "".
Qed.

Lemma trimStart_trimmed (s : string) : trimmedStart (trimStart s).
Proof.
  induction s as [|a s IH]; [done|]. simpl.
  destruct (Ascii.is_space a) eqn:E; [done|]. simpl. done.
Qed.

Lemma trimStart_id (s : string) : trimmedStart s → trimStart s = s.
Proof. destruct s as [|a s]; [done|]. simpl. by intros ->. Qed.

Lemma trim_idemp (s : string) : trim (trim s) = trim s.
Proof.
  unfold trim.
  pose proof (trimStart_trimmed s) as Ht.
  destruct (trimStart_suffix (String.rev (trimStart s))) as [p Hp].
  pose proof (trimStart_trimmed (String.rev (trimStart s))) as Hu.
  set (t := trimStart s) in *. set (u := trimStart (String.rev t)) in *.
  assert (E : t = String.rev u +:+ String.rev p).
  { rewrite <- rev_app_distr_s, <- Hp, rev_involutive_s. done. }
  assert (Hr : trimStart (String.rev u) = String.rev u).
  { apply trimStart_id. destruct (String.rev u) as [|a r]; [done|].
    rewrite E, app_cons_s in Ht. exact Ht. }
  rewrite Hr, rev_involutive_s, (trimStart_id u Hu). done.
Qed.

Lemma lastChar_app (a b : string) : nonEmpty b = true → lastChar (a +:+ b) = lastChar b.
Proof.
  intros Hb. induction a as [|x a IH]; [done|].
  rewrite app_cons_s. simpl. rewrite IH.
  destruct (a +:+ b) eqn:E; [|done].
  destruct a; [rewrite app_nil_l_s in E; by subst|by rewrite app_cons_s in E].
Qed.

Lemma pretty_N_go_last x s :
  nonEmpty s = true → lastChar (pretty_N_go x s) = lastChar s.
Proof.
  revert s. induction (N.lt_wf_0 x) as [x _ IH]; intros s Hs.
  assert (x = 0 ∨ 0 < x)%N as [->|?] by lia; [by rewrite pretty_N_go_0|].
  rewrite pretty_N_go_step by done.
  rewrite IH; [|by apply N.div_lt|done].
  destruct s; done.
Qed.

Lemma pretty_N_char_digit (d : N) : Ascii.is_nat (pretty_N_char d) ≠ None.
Proof.
  unfold pretty_N_char. destruct d as [|p]; [done|].
  do 4 (try (destruct p as [p|p|]; try done)).
Qed.

Lemma pretty_N_last (x : N) :
  ∃ c, lastChar (pretty x) = Some c ∧ Ascii.is_nat c ≠ None.
Proof.
  unfold pretty, pretty_N. case_decide; [by exists "0"%char|].
  rewrite pretty_N_go_step by lia. rewrite pretty_N_go_last by done.
  eexists. split; [done|]. apply pretty_N_char_digit.
Qed.

Lemma pretty_nat_last (i : nat) :
  ∃ c, lastChar (pretty i) = Some c ∧ Ascii.is_nat c ≠ None.
Proof. apply (pretty_N_last (N.of_nat i)). Qed.

Lemma nonEmpty_app_r (a b : string) : nonEmpty b = true → nonEmpty (a +:+ b) = true.
Proof. intros H. destruct a; [done|]. by rewrite app_cons_s. Qed.

Lemma choiceHelpScoreFlag_last sc id i :
  ∃ c, lastChar (choiceHelpScoreFlag sc id i) = Some c ∧ Ascii.is_nat c ≠ None.
Proof.
  destruct (pretty_nat_last i) as (c & Hc & Hd). exists c. split; [|done].
  unfold choiceHelpScoreFlag.
  assert (Hn : nonEmpty (pretty i) = true) by apply (pretty_N_nonEmpty (N.of_nat i)).
  rewrite !lastChar_app; [done|..]; repeat apply nonEmpty_app_r; exact Hn.
Qed.

Section Preserved.
Variable Q : GameState → Prop.
Variable ok : string → JsVal → Prop.
Hypothesis Q_ext : ∀ g g',
  helpScore g' = helpScore g → flags g' = flags g → realTimeMs g' = realTimeMs g →
  Q g → Q g'.
Hypothesis Q_set : ∀ k v g, ok k v → Q g → Q (_setAnyFlag k v g).
Hypothesis ok_prefix : ∀ k v, startsWith "__choicehs__" k = false → ok k v.
Hypothesis ok_letter : ∀ k v c, lastChar k = Some c → Ascii.is_nat c = None → ok k v.
Hypothesis ok_true : ∀ k, ok k (VBool true).

Lemma pres_onGs f w :
  (∀ g, Q g → Q (f g)) → Q (gstate w) → Q (gstate (onGs f w)).
Proof. intros H. apply H. Qed.

Lemma pres_forEach {A} (f : A → World → World) l w :
  (∀ x w', Q (gstate w') → Q (gstate (f x w'))) →
  Q (gstate w) → Q (gstate (forEach f l w)).
Proof.
  intros H. unfold forEach. revert w. induction l as [|x l IH]; intros w Hw; [done|].
  simpl. apply IH, H, Hw.
Qed.

Lemma pres_markHelped name g : Q g → Q (markHelped name g).
Proof. apply Q_ext; unfold markHelped; by destruct (nonEmpty _). Qed.
Lemma pres_disableInteraction id g : Q g → Q (disableInteraction id g).
Proof. apply Q_ext; unfold disableInteraction; by destruct (nonEmpty _). Qed.
Lemma pres_setLayerHidden sk l h g : Q g → Q (setLayerHidden sk l h g).
Proof. apply Q_ext; unfold setLayerHidden; by destruct (_ && _). Qed.
Lemma pres_setInteractionDisabled id d g : Q g → Q (_setInteractionDisabled id d g).
Proof.
  apply Q_ext; unfold _setInteractionDisabled; destruct (negb _); try done; by destruct d.
Qed.

Lemma pres_setFollowerFlag name b g : Q g → Q (_setFollowerFlag name b g).
Proof.
  intros Hg. unfold _setFollowerFlag. cbv zeta.
  destruct (negb _); [done|].
  destruct (bool_decide _); [by apply Q_set; [eapply ok_letter|]|].
  destruct (bool_decide _); [by apply Q_set; [eapply ok_letter|]|].
  apply Q_set; [|apply Q_set; [|done]].
  - eapply ok_letter; [by rewrite lastChar_app|done].
  - eapply ok_letter; [by rewrite lastChar_app|done].
Qed.

Lemma pres_choiceStateEffects sc id props i w :
  Q (gstate w) → Q (gstate (choiceStateEffects sc id props i w)).
Proof.
  intros Hw. unfold choiceStateEffects. cbv zeta.
  assert (H1 : Q (gstate (if nonEmpty (propStr props (choiceKey i "markhelped"))
                          then onGs (markHelped (propStr props (choiceKey i "markhelped"))) w
                          else w))).
  { destruct (nonEmpty _); [|done]. by apply pres_onGs; [apply pres_markHelped|]. }
  revert H1. generalize (if nonEmpty (propStr props (choiceKey i "markhelped"))
                          then onGs (markHelped (propStr props (choiceKey i "markhelped"))) w
                          else w). clear w Hw. intros w1 H1.
  assert (H3 : ∀ g v, Q g → Q (_setAnyFlag
            ("__choicefx__" +:+ sceneKey sc +:+ "__" +:+ id +:+ "__" +:+ pretty i) v
            (setChoices (<[id := Z.of_nat i]> (choices g)) g))).
  { intros g v Hg. apply Q_set; [by apply ok_prefix|]. revert Hg. by apply Q_ext. }
  destruct (nonEmpty (propStr props (choiceKey i "removefollower"))).
  - apply pres_onGs; [apply pres_setFollowerFlag|].
    destruct (nonEmpty (propStr props (choiceKey i "addfollower"))).
    + cbn [gstate dropInteractable setInteractableIds onGs].
      apply pres_disableInteraction, pres_setFollowerFlag.
      destruct (nonEmpty (trim _)).
      * cbn [gstate setSpawnedNpcIds onGs]. apply Q_set; [by apply ok_prefix|].
        by apply H3.
      * by apply H3.
    + by apply H3.
  - destruct (nonEmpty (propStr props (choiceKey i "addfollower"))).
    + cbn [gstate dropInteractable setInteractableIds onGs].
      apply pres_disableInteraction, pres_setFollowerFlag.
      destruct (nonEmpty (trim _)).
      * cbn [gstate setSpawnedNpcIds onGs]. apply Q_set; [by apply ok_prefix|].
        by apply H3.
      * by apply H3.
    + by apply H3.
Qed.

Lemma pres_removeColliderById sc cid w :
  Q (gstate w) → Q (gstate (_removeColliderById sc cid w)).
Proof.
  intros Hw. unfold _removeColliderById. cbv zeta.
  destruct (negb _); [done|]. destruct (bool_decide _); [|done].
  cbn [gstate onGs setColliderIds]. by apply Q_set.
Qed.

Lemma pres_choiceFlip sc props i w :
  Q (gstate w) → Q (gstate (choiceFlip sc props i w)).
Proof.
  intros Hw. unfold choiceFlip. cbv zeta.
  destruct (_ && _); [|done]. cbn [gstate onGs]. by apply Q_set.
Qed.

Lemma pres_choiceSceneEffects sc props i w :
  Q (gstate w) → Q (gstate (choiceSceneEffects sc props i w)).
Proof.
  intros Hw. unfold choiceSceneEffects. cbv zeta.
  repeat (apply pres_forEach;
          [intros;
           first [ by apply pres_removeColliderById
                 | apply pres_onGs;
                   [first [ apply pres_setLayerHidden
                          | apply pres_setInteractionDisabled ] | done] ] |]).
  by apply pres_choiceFlip.
Qed.

End Preserved.

Lemma getAnyFlag_set_eq k v g : _getAnyFlag k (_setAnyFlag k v g) = v.
Proof. unfold _getAnyFlag, _setAnyFlag. simpl. by rewrite lookup_insert_eq. Qed.

Lemma getAnyFlag_set_ne k k' v g :
  k' ≠ k → _getAnyFlag k (_setAnyFlag k' v g) = _getAnyFlag k g.
Proof. intros H. unfold _getAnyFlag, _setAnyFlag. simpl. by rewrite lookup_insert_ne. Qed.

Lemma choiceHelpScoreFlag_prefix sc id i :
  startsWith "__choicehs__" (choiceHelpScoreFlag sc id i) = true.
Proof. reflexivity. Qed.

(** The opening blocks of the choice effects leave the help score and
    the once flag of the help score alone. *)
Lemma choiceStateEffects_help sc id props i w :
  helpScore (gstate (choiceStateEffects sc id props i w)) = helpScore (gstate w).
Proof.
  apply (pres_choiceStateEffects (λ g, helpScore g = helpScore (gstate w)) (λ _ _, True));
    try done.
  intros g g' H _ _ Hg. congruence.
Qed.

Lemma choiceStateEffects_flag sc id props i w :
  _getAnyFlag (choiceHelpScoreFlag sc id i) (gstate (choiceStateEffects sc id props i w))
  = _getAnyFlag (choiceHelpScoreFlag sc id i) (gstate w).
Proof.
  apply (pres_choiceStateEffects
           (λ g, _getAnyFlag (choiceHelpScoreFlag sc id i) g
                 = _getAnyFlag (choiceHelpScoreFlag sc id i) (gstate w))
           (λ k _, k ≠ choiceHelpScoreFlag sc id i)); try done.
  - intros g g' _ Hf _ Hg. unfold _getAnyFlag in *. by rewrite Hf.
  - intros k v g Hk Hg. by rewrite getAnyFlag_set_ne.
  - intros k _ Hk ->. by rewrite choiceHelpScoreFlag_prefix in Hk.
  - intros k _ c Hc Hn ->.
    destruct (choiceHelpScoreFlag_last sc id i) as (c' & Hc' & Hd). congruence.
Qed.

Lemma choiceSceneEffects_help sc props i w :
  helpScore (gstate (choiceSceneEffects sc props i w)) = helpScore (gstate w).
Proof.
  apply (pres_choiceSceneEffects (λ g, helpScore g = helpScore (gstate w)) (λ _ _, True));
    try done.
  intros g g' H _ _ Hg. congruence.
Qed.

Lemma choiceSceneEffects_truthy sc props i k w :
  truthy (_getAnyFlag k (gstate w)) = true →
  truthy (_getAnyFlag k (gstate (choiceSceneEffects sc props i w))) = true.
Proof.
  apply (pres_choiceSceneEffects (λ g, truthy (_getAnyFlag k g) = true)
           (λ k' v, k' ≠ k ∨ truthy v = true)).
  - intros g g' _ Hf _ Hg. unfold _getAnyFlag in *. by rewrite Hf.
  - intros k' v g Hk Hg. destruct (decide (k' = k)) as [->|Hne].
    + rewrite getAnyFlag_set_eq. by destruct Hk.
    + by rewrite getAnyFlag_set_ne.
  - intros; by right.
Qed.

Lemma choiceHelpScore_idem sc id props i g :
  choiceHelpScore sc id props i (choiceHelpScore sc id props i g)
  = choiceHelpScore sc id props i g.
Proof.
  unfold choiceHelpScore. cbv zeta.
  destruct (isUndefined _) eqn:Eu; [done|].
  destruct (truthy (_getAnyFlag _ g)) eqn:Et; [by rewrite Et|].
  assert (H : ∀ g', _getAnyFlag (choiceHelpScoreFlag sc id i) g' = VBool true →
                    (if truthy (_getAnyFlag (choiceHelpScoreFlag sc id i) g') then g'
                     else match Number_ (get props (choiceKey i "helpscore")) with
                          | Some delta =>
                              if (delta =? 0)%Z
                              then _setAnyFlag (choiceHelpScoreFlag sc id i) (VBool true) g'
                              else setHelpScore
                                     (helpScore (_setAnyFlag (choiceHelpScoreFlag sc id i)
                                                   (VBool true) g') + delta)
                                     (_setAnyFlag (choiceHelpScoreFlag sc id i) (VBool true) g')
                          | None => _setAnyFlag (choiceHelpScoreFlag sc id i) (VBool true) g'
                          end) = g').
  { intros g' ->. done. }
  destruct (Number_ _) as [d|]; [destruct (d =? 0)%Z|]; apply H;
    unfold _getAnyFlag; simpl; by rewrite lookup_insert_eq.
Qed.

Lemma choiceHelpScore_help sc id props i g :
  helpScore (choiceHelpScore sc id props i g)
  = if isUndefined (get props (choiceKey i "helpscore")) then helpScore g
    else if truthy (_getAnyFlag (choiceHelpScoreFlag sc id i) g) then helpScore g
    else helpScore g + default 0 (Number_ (get props (choiceKey i "helpscore"))).
Proof.
  unfold choiceHelpScore. cbv zeta.
  destruct (isUndefined _); [done|]. destruct (truthy _); [done|].
  destruct (Number_ _) as [d|]; simpl; [|lia].
  destruct (d =? 0)%Z eqn:E; simpl; lia.
Qed.

Lemma choiceHelpScore_flag sc id props i g :
  isUndefined (get props (choiceKey i "helpscore")) = false →
  truthy (_getAnyFlag (choiceHelpScoreFlag sc id i) (choiceHelpScore sc id props i g)) = true.
Proof.
  intros Hu. unfold choiceHelpScore. cbv zeta. rewrite Hu.
  destruct (truthy (_getAnyFlag (choiceHelpScoreFlag sc id i) g)) eqn:Et; [done|].
  destruct (Number_ _) as [d|]; [destruct (d =? 0)%Z|];
    unfold _getAnyFlag; simpl; by rewrite lookup_insert_eq.
Qed.

Lemma applyChoiceEffects_help sc id props i w :
  helpScore (gstate (_applyChoiceEffects sc id props i w))
  = if isUndefined (get props (choiceKey i "helpscore")) then helpScore (gstate w)
    else if truthy (_getAnyFlag (choiceHelpScoreFlag sc id i) (gstate w))
    then helpScore (gstate w)
    else helpScore (gstate w) + default 0 (Number_ (get props (choiceKey i "helpscore"))).
Proof.
  unfold _applyChoiceEffects. rewrite choiceSceneEffects_help.
  cbn [gstate onGs]. rewrite choiceHelpScore_help.
  by rewrite choiceStateEffects_flag, choiceStateEffects_help.
Qed.

Lemma applyChoiceEffects_flag sc id props i w :
  isUndefined (get props (choiceKey i "helpscore")) = false →
  truthy (_getAnyFlag (choiceHelpScoreFlag sc id i)
            (gstate (_applyChoiceEffects sc id props i w))) = true.
Proof.
  intros Hu. unfold _applyChoiceEffects. apply choiceSceneEffects_truthy.
  cbn [gstate onGs]. by apply choiceHelpScore_flag.
Qed.

Lemma applyChoiceEffects_help_twice sc id props i w :
  helpScore (gstate (_applyChoiceEffects sc id props i
                       (_applyChoiceEffects sc id props i w)))
  = helpScore (gstate (_applyChoiceEffects sc id props i w)).
Proof.
  rewrite (applyChoiceEffects_help sc id props i (_applyChoiceEffects sc id props i w)).
  destruct (isUndefined _) eqn:Eu; [done|].
  by rewrite applyChoiceEffects_flag.
Qed.

Lemma lineAddHelp_idem sc id k amt w :
  lineAddHelp sc id k amt (lineAddHelp sc id k amt w) = lineAddHelp sc id k amt w.
Proof.
  destruct w as [g its cs ns]. unfold lineAddHelp, onGs.
  cbn [gstate interactableIds colliderIds spawnedNpcIds]. f_equal.
  unfold runOnceGuard.
  destruct (isTrue (_getAnyFlag (lineOnceFlag sc id k "addhelp" "") g)) eqn:E.
  - by rewrite E.
  - assert (H : isTrue (_getAnyFlag (lineOnceFlag sc id k "addhelp" "")
                  (addHelp amt (_setAnyFlag (lineOnceFlag sc id k "addhelp" "")
                                  (VBool true) g))) = true).
    { unfold _getAnyFlag, addHelp, _setAnyFlag. cbn [flags setHelpScore setFlags].
      by rewrite lookup_insert_eq. }
    by rewrite H.
Qed.

Lemma lineAddHelp_help sc id k amt w :
  isTrue (_getAnyFlag (lineOnceFlag sc id k "addhelp" "") (gstate w)) = false →
  helpScore (gstate (lineAddHelp sc id k amt w)) = helpScore (gstate w) + amt.
Proof.
  intros E. unfold lineAddHelp, onGs, runOnceGuard. cbn [gstate]. by rewrite E.
Qed.

Lemma interactionId_trim props objName :
  trim (interactionId props objName) = interactionId props objName.
Proof. apply trim_idemp. Qed.

Lemma disabled_runs_nothing sc props objName w :
  isInteractionDisabled (interactionId props objName) (gstate w) = true →
  _runTiledInteraction sc props objName w = (w, NoDialogue).
Proof.
  intros H. unfold _runTiledInteraction. cbv zeta. rewrite H.
  by destruct (negb _).
Qed.

Lemma disableInteraction_keeps id rid g :
  isInteractionDisabled id g = true →
  isInteractionDisabled id (disableInteraction rid g) = true.
Proof.
  unfold isInteractionDisabled, disableInteraction.
  destruct (nonEmpty (trim id)); [|done]. intros H.
  apply bool_decide_eq_true_1 in H. apply bool_decide_eq_true_2.
  destruct (nonEmpty (trim rid)); [|done]. cbn [disabled setDisabled].
  destruct (decide (trim rid = trim id)) as [->|Hne].
  - by rewrite lookup_insert_eq.
  - by rewrite lookup_insert_ne.
Qed.

Lemma disableInteraction_sets id g :
  nonEmpty (trim id) = true →
  isInteractionDisabled id (disableInteraction id g) = true.
Proof.
  intros Hn. unfold isInteractionDisabled, disableInteraction. rewrite Hn.
  cbn [disabled setDisabled]. rewrite lookup_insert_eq. by apply bool_decide_eq_true_2.
Qed.

Lemma disableAll_disables id (l : list string) w :
  nonEmpty (trim id) = true → id ∈ l →
  isInteractionDisabled id
    (gstate (forEach (λ rid, onGs (disableInteraction rid)) l w)) = true.
Proof.
  intros Hn. unfold forEach.
  assert (Hk : ∀ l w, isInteractionDisabled id (gstate w) = true →
            isInteractionDisabled id
              (gstate (foldl (λ acc x, onGs (disableInteraction x) acc) w l)) = true).
  { clear l w. induction l as [|x l IH]; intros w Hw; [done|].
    simpl. apply IH. cbn [gstate onGs]. by apply disableInteraction_keeps. }
  revert w. induction l as [|x l IH]; intros w Hin; [by apply elem_of_nil in Hin|].
  apply elem_of_cons in Hin as [<-|Hin]; simpl.
  - apply Hk. cbn [gstate onGs]. by apply disableInteraction_sets.
  - by apply IH.
Qed.

Lemma removalEffects_once id props w :
  nonEmpty (trim id) = true → isTrue (get props "once") = true →
  splitCsv (get props "removeinteraction") = []
  ∨ id ∈ splitCsv (get props "removeinteraction") →
  isInteractionDisabled id (gstate (removalEffects id props w)) = true.
Proof.
  intros Hn Ho Hr. unfold removalEffects. cbv zeta. rewrite Ho.
  cbn [orb gstate dropInteractable setInteractableIds].
  destruct (splitCsv (get props "removeinteraction")) as [|r l] eqn:E.
  - cbn [gstate onGs]. by apply disableInteraction_sets.
  - destruct Hr as [Hr|Hr]; [done|]. by apply disableAll_disables.
Qed.

Lemma runDialogue_no_dialogue sc props id u w :
  (runDialogue sc props id u w).2 = NoDialogue →
  (runDialogue sc props id u w).1 = _applyInteractionEffects sc id props w.
Proof.
  unfold runDialogue. cbv zeta.
  destruct (_ || _).
  - by destruct (hasFollowerDialogueProps props).
  - destruct (_ && _); [|done].
    by destruct (_buildSequenceScriptFromKeys _ _ _ _ _ _ _).
Qed.

Lemma stepAt_nonempty (script : Script) idx : stepAt script idx ≠ [].
Proof.
  unfold stepAt. destruct (idx <? 0)%Z; [done|]. by destruct (script !! Z.to_nat idx).
Qed.

Lemma runHelped_no_dialogue sc props id w :
  (runHelped sc props id w).2 = NoDialogue →
  runHelped sc props id w = (w, NoDialogue).
Proof.
  unfold runHelped. cbv zeta.
  destruct (negb _ && bool_decide _); cbv iota beta.
  - rewrite (bool_decide_eq_true_2 _ (stepAt_nonempty _ _)). done.
  - destruct (_ || _); [done|]. intros _. f_equal. by destruct w.
Qed.

Lemma empty_id_runs_nothing sc props objName w :
  nonEmpty (interactionId props objName) = false →
  _runTiledInteraction sc props objName w = (w, NoDialogue).
Proof. intros H. unfold _runTiledInteraction. cbv zeta. by rewrite H. Qed.

Lemma shouldCheckRequires_satisfied sc props id g :
  isTrue (_getAnyFlag (_flagKey "__req_satisfied" [VStr (sceneKey sc); VStr id]) g) = true →
  shouldCheckRequires sc props id g = false.
Proof. intros H. unfold shouldCheckRequires. cbv zeta. by rewrite H. Qed.

Lemma helped_second_invocation sc props objName w :
  nonEmpty (interactionId props objName) = true →
  isInteractionDisabled (interactionId props objName) (gstate w) = false →
  shouldCheckRequires sc props (interactionId props objName) (gstate w) = false →
  (nonEmpty (_postHelpedKey props) && isHelped (_postHelpedKey props) (gstate w)) = true →
  (runHelped sc props (interactionId props objName) w).2 = NoDialogue →
  _runTiledInteraction sc props objName w = (w, NoDialogue).
Proof.
  intros Hn Hd Hc Hh Ho. unfold _runTiledInteraction. cbv zeta.
  rewrite Hn, Hd, Hc, Hh. cbn [negb andb]. by apply runHelped_no_dialogue.
Qed.

Lemma no_dialogue_second_invocation sc props objName w :
  isTrue (get props "once") = true →
  splitCsv (get props "removeinteraction") = []
  ∨ interactionId props objName ∈ splitCsv (get props "removeinteraction") →
  (_runTiledInteraction sc props objName w).2 = NoDialogue →
  _runTiledInteraction sc props objName (_runTiledInteraction sc props objName w).1
  = ((_runTiledInteraction sc props objName w).1, NoDialogue).
Proof.
  intros Hon Hr.
  destruct (nonEmpty (interactionId props objName)) eqn:Hn;
    [|intros _; rewrite (empty_id_runs_nothing sc props objName w Hn); cbn [fst];
      exact (empty_id_runs_nothing _ _ _ _ Hn)].
  destruct (isInteractionDisabled (interactionId props objName) (gstate w)) eqn:Hd;
    [intros _; rewrite (disabled_runs_nothing sc props objName w Hd); cbn [fst];
     exact (disabled_runs_nothing _ _ _ _ Hd)|].
  destruct (nonEmpty (_postHelpedKey props) && isHelped (_postHelpedKey props) (gstate w))
    eqn:Hh.
  - (* already helped: the invocation changes at most the requirement flag *)
    destruct (_runTiledInteraction sc props objName w) as [w' o] eqn:E.
    cbn [fst snd]. intros ->. revert E.
    unfold _runTiledInteraction at 1. cbv zeta. rewrite Hn, Hd. cbn [negb].
    destruct (shouldCheckRequires _ _ _ _) eqn:Hc; cbn [andb].
    + destruct (existsb _ _); [done|].
      set (w1 := onGs (_setAnyFlag _ (VBool true)) w).
      change (isHelped (_postHelpedKey props) (gstate w1))
        with (isHelped (_postHelpedKey props) (gstate w)).
      rewrite Hh. intros E.
      assert (Ho : (runHelped sc props (interactionId props objName) w1).2 = NoDialogue)
        by (by rewrite E).
      rewrite (runHelped_no_dialogue _ _ _ _ Ho) in E. injection E as <-.
      apply helped_second_invocation; try done.
      apply shouldCheckRequires_satisfied. unfold w1. cbn [gstate onGs].
      by rewrite getAnyFlag_set_eq.
    + rewrite Hh. intros E.
      assert (Ho : (runHelped sc props (interactionId props objName) w).2 = NoDialogue)
        by (by rewrite E).
      rewrite (runHelped_no_dialogue _ _ _ _ Ho) in E. injection E as <-.
      by apply helped_second_invocation.
  - destruct (_runTiledInteraction sc props objName w) as [w' o] eqn:E.
    cbn [fst snd]. intros ->.
    assert (∃ w2, w' = _applyInteractionEffects sc (interactionId props objName) props w2)
      as [w2 ->].
    { revert E. unfold _runTiledInteraction. cbv zeta.
      rewrite Hn, Hd. cbn [negb].
      assert (Hrun : ∀ u w0,
                runDialogue sc props (interactionId props objName) u w0 = (w', NoDialogue) →
                ∃ w2, w' = _applyInteractionEffects sc (interactionId props objName)
                             props w2).
      { intros u w0 E. exists w0.
        pose proof (runDialogue_no_dialogue sc props (interactionId props objName) u w0) as H.
        rewrite E in H. by apply H. }
      destruct (shouldCheckRequires _ _ _ _); cbn [andb].
      - destruct (existsb _ _); [done|].
        change (isHelped (_postHelpedKey props) (gstate (onGs _ w)))
          with (isHelped (_postHelpedKey props) (gstate w)).
        rewrite Hh.
        destruct (incrementInteractionCount _ _) as [u g2].
        destruct (nonEmpty (propStr props "choiceprompt") && _); [done|]. apply Hrun.
      - rewrite Hh.
        destruct (incrementInteractionCount _ _) as [u g2].
        destruct (nonEmpty (propStr props "choiceprompt") && _); [done|]. apply Hrun. }
    apply disabled_runs_nothing.
    unfold _applyInteractionEffects. cbv zeta.
    apply removalEffects_once; try done. by rewrite interactionId_trim.
Qed.

(** C1 (as the code has it): for an interaction marked [once] (whose
    [removeinteraction] list is empty or names the interaction itself),
    once its effects have been applied the interaction is disabled and
    invoking its action again, any number of times, starts no dialogue and
    leaves GameState unchanged; in particular, when an invocation starts no
    dialogue (and no pre-sound defers its body), the next invocation
    changes nothing.  The once-guarded help
    effect of a dialogue line changes GameState when it is applied a second
    time exactly as much as when it is applied once, and from a guard that
    is not yet set it adds its amount to the help score once.  The
    once-guarded help score of a choice is applied once: the block itself
    is idempotent, applying the effects of the choice twice leaves the help
    score where one application leaves it, and from a guard that is not yet
    set that is the help score before plus the amount. *)
Theorem once_effects_apply_once (sc : SceneCtx) (props : PropTable) (objName : JsVal)
  (id k : string) (amt : Z) (i : nat) (w : World) :
  (isTrue (get props "once") = true →
   splitCsv (get props "removeinteraction") = []
   ∨ interactionId props objName ∈ splitCsv (get props "removeinteraction") →
   (let w' := _applyInteractionEffects sc (interactionId props objName) props w in
    (nonEmpty (interactionId props objName) = true →
     isInteractionDisabled (interactionId props objName) (gstate w') = true)
    ∧ _runTiledInteraction sc props objName w' = (w', NoDialogue))
   ∧ (preSfxDelay props = 0 →
      (_runTiledInteraction sc props objName w).2 = NoDialogue →
      _runTiledInteraction sc props objName (_runTiledInteraction sc props objName w).1
      = ((_runTiledInteraction sc props objName w).1, NoDialogue)))
  ∧ lineAddHelp sc id k amt (lineAddHelp sc id k amt w) = lineAddHelp sc id k amt w
  ∧ (isTrue (_getAnyFlag (lineOnceFlag sc id k "addhelp" "") (gstate w)) = false →
     helpScore (gstate (lineAddHelp sc id k amt (lineAddHelp sc id k amt w)))
     = helpScore (gstate w) + amt)
  ∧ choiceHelpScore sc id props i (choiceHelpScore sc id props i (gstate w))
    = choiceHelpScore sc id props i (gstate w)
  ∧ helpScore (gstate (_applyChoiceEffects sc id props i
                         (_applyChoiceEffects sc id props i w)))
    = helpScore (gstate (_applyChoiceEffects sc id props i w))
  ∧ (truthy (_getAnyFlag (choiceHelpScoreFlag sc id i) (gstate w)) = false →
     Number_ (get props (choiceKey i "helpscore")) = Some amt →
     helpScore (gstate (_applyChoiceEffects sc id props i
                          (_applyChoiceEffects sc id props i w)))
     = helpScore (gstate w) + amt).
Proof.
  split; [|split; [|split; [|split; [|split]]]].
  - intros Ho Hr. split.
    + intros w'.
      assert (Hd : nonEmpty (interactionId props objName) = true →
                   isInteractionDisabled (interactionId props objName) (gstate w') = true).
      { intros Hn. unfold w', _applyInteractionEffects. cbv zeta.
        apply removalEffects_once; try done. by rewrite interactionId_trim. }
      split; [exact Hd|].
      destruct (nonEmpty (interactionId props objName)) eqn:Hn.
      * by apply disabled_runs_nothing, Hd.
      * by apply empty_id_runs_nothing.
    + intros _. by apply no_dialogue_second_invocation.
  - apply lineAddHelp_idem.
  - intros E. rewrite lineAddHelp_idem. by apply lineAddHelp_help.
  - apply choiceHelpScore_idem.
  - apply applyChoiceEffects_help_twice.
  - intros Ht Hn. rewrite applyChoiceEffects_help_twice, applyChoiceEffects_help.
    rewrite Ht, Hn. by destruct (get props (choiceKey i "helpscore")).
Qed.

Lemma once_effects_apply_once_witness :
  (isTrue (get chestProps "once") = true
   ∧ splitCsv (get chestProps "removeinteraction") = []
   ∧ preSfxDelay chestProps = 0
   ∧ (_runTiledInteraction chestScene chestProps VUndef chestWorld).2 = NoDialogue
   ∧ helpScore (gstate chestWorld) = 0
   ∧ isTrue (_getAnyFlag (lineOnceFlag chestScene "chest" "dialogue" "addhelp" "")
               (gstate chestWorld)) = false
   ∧ truthy (_getAnyFlag (choiceHelpScoreFlag chestScene "chest" 1) (gstate chestWorld))
     = false
   ∧ Number_ (get chestProps (choiceKey 1 "helpscore")) = Some 10)
  ∧ _runTiledInteraction chestScene chestProps VUndef
      (_runTiledInteraction chestScene chestProps VUndef chestWorld).1
    = ((_runTiledInteraction chestScene chestProps VUndef chestWorld).1, NoDialogue)
  ∧ helpScore (gstate (lineAddHelp chestScene "chest" "dialogue" 10
                         (lineAddHelp chestScene "chest" "dialogue" 10 chestWorld)))
    = 0 + 10
  ∧ helpScore (gstate (_applyChoiceEffects chestScene "chest" chestProps 1
                         (_applyChoiceEffects chestScene "chest" chestProps 1 chestWorld)))
    = 0 + 10.
Proof.
  pose proof (once_effects_apply_once chestScene chestProps VUndef "chest" "dialogue"
                10 1 chestWorld) as (H1 & _ & H3 & _ & _ & H6).
  split; [repeat split; reflexivity|].
  split; [|split].
  - apply (proj2 (H1 eq_refl (or_introl eq_refl))); reflexivity.
  - apply (H3 eq_refl).
  - apply (H6 eq_refl eq_refl).
Defined.

(** C1 as stated fails.  A sign marked [once] with two dialogue lines: the
    first invocation shows the first line and its completion applies no
    effects, so the sign is not disabled; the second invocation counts a
    second use, and GameState changes again.  A lever marked [once] whose
    [removeinteraction] list names another interaction only: its effects
    disable the other interaction and not the lever, and the second
    invocation counts a second use. *)
Lemma once_marked_second_invocation_changes_store :
  (let r1 := _runTiledInteraction chestScene signProps VUndef signWorld in
   let r2 := _runTiledInteraction chestScene signProps VUndef (endDuckOnly r1.1) in
   isTrue (get signProps "once") = true
   ∧ r1.2 = StartDialogue [Say "" "Closed."; End_] (Some endDuckOnly)
   ∧ counts (gstate r1.1) !! "sign" = Some 1
   ∧ counts (gstate r2.1) !! "sign" = Some 2
   ∧ gstate r2.1 ≠ gstate r1.1)
  ∧ (let r1 := _runTiledInteraction chestScene leverProps VUndef signWorld in
     let r2 := _runTiledInteraction chestScene leverProps VUndef r1.1 in
     isTrue (get leverProps "once") = true
     ∧ r1.2 = NoDialogue
     ∧ isInteractionDisabled "gate" (gstate r1.1) = true
     ∧ counts (gstate r1.1) !! "lever" = Some 1
     ∧ counts (gstate r2.1) !! "lever" = Some 2
     ∧ gstate r2.1 ≠ gstate r1.1).
Proof.
  split.
  - intros r1 r2.
    assert (E1 : counts (gstate r1.1) !! "sign" = Some 1) by (vm_compute; reflexivity).
    assert (E2 : counts (gstate r2.1) !! "sign" = Some 2) by (vm_compute; reflexivity).
    split; [reflexivity|]. split; [vm_compute; reflexivity|].
    split; [exact E1|]. split; [exact E2|].
    intros E. rewrite E in E2. congruence.
  - intros r1 r2.
    assert (E1 : counts (gstate r1.1) !! "lever" = Some 1) by (vm_compute; reflexivity).
    assert (E2 : counts (gstate r2.1) !! "lever" = Some 2) by (vm_compute; reflexivity).
    split; [reflexivity|]. split; [vm_compute; reflexivity|].
    split; [vm_compute; reflexivity|].
    split; [exact E1|]. split; [exact E2|].
    intros E. rewrite E in E2. congruence.
Qed.

(** ** Progressive post-help dialogue *)



























(** * Further properties of the engine *)

(** ** The session store *)

(** The inventory: removing never leaves a negative count and removes
    what was added; an added item is held; other items are not touched. *)
Theorem inventory_counts (item : string) (n : Z) (g : GameState) :
  nonEmpty (trim item) = true →
  (0 <= default 0 (inventory (removeItem item n g) !! trim item))%Z
  ∧ ((0 <= default 0 (inventory g !! trim item))%Z →
     default 0 (inventory (removeItem item n (addItem item n g)) !! trim item)
     = default 0 (inventory g !! trim item)
     ∧ hasItem item n (addItem item n g) = true)
  ∧ (∀ k, k ≠ trim item →
       inventory (removeItem item n g) !! k = inventory g !! k
       ∧ inventory (addItem item n g) !! k = inventory g !! k).
Proof.
  intros Hn. unfold removeItem, addItem, hasItem. rewrite !Hn.
  cbn [inventory setInventory]. rewrite !lookup_insert_eq.
  split; [simpl; lia|]. split.
  - intros H. rewrite ?Hn. cbn [inventory setInventory].
    rewrite ?lookup_insert_eq. simpl. split; [lia|].
    apply Z.leb_le. lia.
  - intros k Hk. by rewrite !lookup_insert_ne.
Qed.

Lemma inventory_counts_witness :
  nonEmpty (trim " key ") = true
  ∧ (0 <= default 0 (inventory (removeItem " key " 3 GS.initial) !! trim " key "))%Z.
Proof.
  split; [reflexivity|].
  exact (proj1 (inventory_counts " key " 3 GS.initial eq_refl)).
Defined.

(** Disabling and enabling an interaction: [_setInteractionDisabled] with
    [true] agrees with [disableInteraction], and with [false] it undoes
    either of them, for the id they are given and for no other id. *)
Theorem interaction_disabled_round_trip (id : string) (g : GameState) :
  nonEmpty (trim id) = true →
  _setInteractionDisabled id true g = disableInteraction id g
  ∧ isInteractionDisabled id (disableInteraction id g) = true
  ∧ isInteractionDisabled id (_setInteractionDisabled id false (disableInteraction id g))
    = false
  ∧ (∀ other, trim other ≠ trim id →
       isInteractionDisabled other (_setInteractionDisabled id false g)
       = isInteractionDisabled other g
       ∧ isInteractionDisabled other (disableInteraction id g)
         = isInteractionDisabled other g).
Proof.
  intros Hn. unfold _setInteractionDisabled, disableInteraction, isInteractionDisabled.
  rewrite !Hn. cbn [negb disabled setDisabled].
  split; [done|]. split; [|split].
  - rewrite lookup_insert_eq. by apply bool_decide_eq_true_2.
  - rewrite lookup_delete_eq. by apply bool_decide_eq_false_2.
  - intros other Ho. destruct (nonEmpty (trim other)); [|done].
    by rewrite lookup_delete_ne, lookup_insert_ne.
Qed.

Lemma interaction_disabled_round_trip_witness :
  nonEmpty (trim "gate") = true
  ∧ isInteractionDisabled "gate"
      (_setInteractionDisabled "gate" false (disableInteraction "gate" GS.initial)) = false.
Proof.
  split; [reflexivity|].
  exact (proj1 (proj2 (proj2 (interaction_disabled_round_trip "gate" GS.initial eq_refl)))).
Defined.

(** Hidden layers: what [setLayerHidden] stores is what [isLayerHidden]
    reads, and the other layers of the scene keep their state. *)
Theorem layer_hidden_round_trip (sk ln : string) (h : bool) (g : GameState) :
  nonEmpty (trim sk) = true → nonEmpty (trim ln) = true →
  isLayerHidden sk ln (setLayerHidden sk ln h g) = h
  ∧ (∀ ln', trim ln' ≠ trim ln →
       isLayerHidden sk ln' (setLayerHidden sk ln h g) = isLayerHidden sk ln' g).
Proof.
  intros Hs Hl. unfold isLayerHidden, setLayerHidden. rewrite !Hs, !Hl.
  cbn [andb hiddenLayers setHiddenLayers]. rewrite !lookup_insert_eq.
  split.
  - rewrite ?lookup_insert_eq. destruct h; [by apply bool_decide_eq_true_2|].
    by apply bool_decide_eq_false_2.
  - intros ln' Hne. destruct (nonEmpty (trim ln')); [|done].
    rewrite ?lookup_insert_eq. rewrite lookup_insert_ne by done.
    destruct (hiddenLayers g !! trim sk); [done|].
    cbn [from_option id]. rewrite lookup_empty. by apply bool_decide_eq_false_2.
Qed.

Lemma layer_hidden_round_trip_witness :
  (nonEmpty (trim "CityScene") = true ∧ nonEmpty (trim "Roof") = true)
  ∧ isLayerHidden "CityScene" "Roof" (setLayerHidden "CityScene" "Roof" true GS.initial)
    = true.
Proof.
  split; [split; reflexivity|].
  exact (proj1 (layer_hidden_round_trip "CityScene" "Roof" true GS.initial eq_refl eq_refl)).
Defined.

(** Helped NPCs: a marked NPC is helped, and marking one NPC does not
    change whether another is. *)
Theorem helped_round_trip (name : string) (g : GameState) :
  nonEmpty (trim name) = true →
  isHelped name (markHelped name g) = true
  ∧ (∀ other, trim other ≠ trim name →
       isHelped other (markHelped name g) = isHelped other g).
Proof.
  intros Hn. unfold isHelped, markHelped. rewrite Hn. cbn [npcsHelped setNpcsHelped].
  split; [by rewrite lookup_insert_eq|].
  intros other Ho. by rewrite lookup_insert_ne.
Qed.

Lemma helped_round_trip_witness :
  nonEmpty (trim "Baker") = true ∧ isHelped "Baker" (markHelped "Baker" GS.initial) = true.
Proof.
  split; [reflexivity|]. exact (proj1 (helped_round_trip "Baker" GS.initial eq_refl)).
Defined.

(** The interaction lock: locking never shortens a lock, the world cannot
    be interacted with before the lock runs out, and can be from then
    on. *)
Theorem interact_lock (now ms t : Z) (g : GameState) :
  (interactLockUntil g <= interactLockUntil (lockInteract now ms g))%Z
  ∧ ((t < now + ms)%Z → canWorldInteract t (lockInteract now ms g) = false)
  ∧ ((now + ms <= t)%Z → canWorldInteract t g = true →
     canWorldInteract t (lockInteract now ms g) = true).
Proof.
  unfold lockInteract, canWorldInteract. cbn [interactLockUntil setInteractLockUntil].
  split; [lia|]. split.
  - intros H. apply Z.leb_gt. lia.
  - intros H Hc. apply Z.leb_le in Hc. apply Z.leb_le. lia.
Qed.

Lemma interact_lock_witness :
  (1100 < 1000 + 220)%Z
  ∧ canWorldInteract 1100 (lockInteract 1000 220 GS.initial) = false.
Proof.
  split; [lia|].
  apply (proj1 (proj2 (interact_lock 1000 220 1100 GS.initial))). lia.
Defined.

(** ** The clock and the effects *)

Lemma setFollowerFlag_clock name b g :
  realTimeMs (_setFollowerFlag name b g) = realTimeMs g.
Proof. unfold _setFollowerFlag. store_cases. Qed.

Lemma setInteractionDisabled_clock id d g :
  realTimeMs (_setInteractionDisabled id d g) = realTimeMs g.
Proof. unfold _setInteractionDisabled. store_cases. Qed.

Lemma choiceHelpScore_clock sc id props i g :
  realTimeMs (choiceHelpScore sc id props i g) = realTimeMs g.
Proof. unfold choiceHelpScore. store_cases. Qed.

Lemma choiceStateEffects_clock sc id props i w :
  clockOf (choiceStateEffects sc id props i w) = clockOf w.
Proof.
  apply (pres_choiceStateEffects (λ g, realTimeMs g = clockOf w) (λ _ _, True));
    try done.
  intros g g' _ _ H Hg. congruence.
Qed.

Lemma choiceSceneEffects_clock sc props i w :
  clockOf (choiceSceneEffects sc props i w) = clockOf w.
Proof.
  apply (pres_choiceSceneEffects (λ g, realTimeMs g = clockOf w) (λ _ _, True));
    try done.
  intros g g' _ _ H Hg. congruence.
Qed.

Lemma runOnceGuard_clock sc id k type extra g :
  realTimeMs (runOnceGuard sc id k type extra g).2 = realTimeMs g.
Proof. unfold runOnceGuard. by destruct (isTrue _). Qed.

(** No effect of an interaction, of a chosen option or of a dialogue line
    writes the global clock, and neither does running an interaction. *)
Theorem effects_leave_clock (sc : SceneCtx) (id k item : string) (props : PropTable)
  (objName : JsVal) (i : nat) (amt n : Z) (once : bool) (w : World) :
  clockOf (_applyInteractionEffects sc id props w) = clockOf w
  ∧ clockOf (_applyChoiceEffects sc id props i w) = clockOf w
  ∧ clockOf (_runTiledInteraction sc props objName w).1 = clockOf w
  ∧ clockOf (lineSfx sc id k once w) = clockOf w
  ∧ clockOf (lineGiveItem sc id k item n once w) = clockOf w
  ∧ clockOf (lineAddHelp sc id k amt w) = clockOf w
  ∧ clockOf (lineAddScore sc id k amt w) = clockOf w.
Proof.
  split; [apply applyInteractionEffects_clock|].
  split.
  { unfold _applyChoiceEffects. rewrite choiceSceneEffects_clock.
    unfold clockOf at 1. cbn [gstate onGs]. rewrite choiceHelpScore_clock.
    apply choiceStateEffects_clock. }
  split; [apply runTiledInteraction_clock|].
  unfold clockOf, lineSfx, lineGiveItem, lineAddHelp, lineAddScore.
  cbn [gstate onGs].
  repeat split.
  - destruct once; [apply runOnceGuard_clock|done].
  - destruct once; [|apply addItem_clock].
    pose proof (runOnceGuard_clock sc id k "giveitem" item (gstate w)) as H.
    destruct (runOnceGuard _ _ _ _ _ _) as [[] g']; [|exact H].
    by rewrite addItem_clock.
  - pose proof (runOnceGuard_clock sc id k "addhelp" "" (gstate w)) as H.
    destruct (runOnceGuard _ _ _ _ _ _) as [[] g']; exact H.
  - pose proof (runOnceGuard_clock sc id k "addscore" "" (gstate w)) as H.
    destruct (runOnceGuard _ _ _ _ _ _) as [[] g']; exact H.
Qed.

Lemma frame_clock (inp : FrameInput) (fs : FrameState) :
  realTimeMs (storeOf (baseUpdateFrame inp fs))
  = (realTimeMs (storeOf fs)
     + if dialogueActive inp then 0
       else match delta inp with Some d => Rmax 0 d | None => 0 end)%R.
Proof.
  unfold baseUpdateFrame, storeOf. destruct (dialogueActive inp).
  - cbn [zones]. lra.
  - cbv zeta. cbn [zones]. change (realTimeMs (gstate ?w)) with (clockOf w).
    rewrite baseUpdateInteract_clock, updateAutoTriggerZones_clock.
    destruct (allowMovement inp); apply tickGlobalRealTime_spec.
Qed.

(** Once the world is ending it stays ending: no frame takes the clock
    back below the eight minutes. *)
Theorem world_ending_persists (inp : FrameInput) (fs : FrameState) :
  isWorldEnding (storeOf fs) = true →
  isWorldEnding (storeOf (baseUpdateFrame inp fs)) = true.
Proof.
  unfold isWorldEnding. rewrite frame_clock.
  destruct (Rle_dec WORLD_END_MS (realTimeMs (storeOf fs))) as [H|]; [|done].
  intros _. destruct (Rle_dec _ _) as [|Hn]; [done|]. exfalso. apply Hn.
  destruct (dialogueActive inp); [lra|].
  destruct (delta inp) as [d|]; [|lra]. pose proof (Rmax_l 0 d). lra.
Qed.

Lemma endingFrame_ending : isWorldEnding (storeOf endingFrame) = true.
Proof.
  unfold isWorldEnding, storeOf, endingFrame, WORLD_END_MS. cbn.
  destruct (Rle_dec 480000 480000) as [|Hn]; [done|]. exfalso. apply Hn. lra.
Qed.

Lemma world_ending_persists_witness :
  isWorldEnding (storeOf endingFrame) = true
  ∧ isWorldEnding (storeOf (baseUpdateFrame tickInput endingFrame)) = true.
Proof.
  split; [exact endingFrame_ending|].
  apply (world_ending_persists tickInput endingFrame). exact endingFrame_ending.
Defined.

(** ** The dialogue runner: cursor and escape *)

Section DialogueKeys.
Context {K : Type}.

(** While a choice is shown and input is accepted, the up and down keys
    move the cursor by one option and wrap around at the ends, so the
    cursor stays on an option; outside a choice they do nothing. *)
Theorem choice_cursor_wraps (now : Z) (b : Box K) :
  let n := Z.of_nat (length (choiceOptions b)) in
  (active b = true → inChoice b = true → _canAcceptInput now b = true →
   (0 <= choiceIndex b < n)%Z →
   choiceIndex (_onUp now b) = (if (choiceIndex b =? 0)%Z then n - 1 else choiceIndex b - 1)
   ∧ choiceIndex (_onDown now b)
     = (if (choiceIndex b =? n - 1)%Z then 0 else choiceIndex b + 1)
   ∧ (0 <= choiceIndex (_onUp now b) < n)%Z
   ∧ (0 <= choiceIndex (_onDown now b) < n)%Z
   ∧ choiceOptions (_onUp now b) = choiceOptions b
   ∧ choiceOptions (_onDown now b) = choiceOptions b)
  ∧ (inChoice b = false → _onUp now b = b ∧ _onDown now b = b).
Proof.
  intros n. split.
  - intros Ha Hc Hi Hr. unfold _onUp, _onDown, moveChoice.
    rewrite Ha, Hc, Hi. cbn [negb orb]. cbv zeta.
    cbn [choiceIndex choiceOptions withChoiceIndex _gateInputFor]. fold n.
    assert (Hn : (n =? 0)%Z = false) by (apply Z.eqb_neq; lia). rewrite Hn.
    assert (Eu : ((choiceIndex b + -1 + n) mod n
                  = if (choiceIndex b =? 0)%Z then n - 1 else choiceIndex b - 1)%Z).
    { destruct (Z.eqb_spec (choiceIndex b) 0) as [->|Hz].
      - replace (0 + -1 + n)%Z with (n - 1)%Z by lia. apply Z.mod_small. lia.
      - replace (choiceIndex b + -1 + n)%Z with (choiceIndex b - 1 + 1 * n)%Z by lia.
        rewrite Z.mod_add by lia. apply Z.mod_small. lia. }
    assert (Ed : ((choiceIndex b + 1 + n) mod n
                  = if (choiceIndex b =? n - 1)%Z then 0 else choiceIndex b + 1)%Z).
    { destruct (Z.eqb_spec (choiceIndex b) (n - 1)) as [->|Hz].
      - replace (n - 1 + 1 + n)%Z with (0 + 2 * n)%Z by lia.
        rewrite Z.mod_add by lia. apply Z.mod_small. lia.
      - replace (choiceIndex b + 1 + n)%Z with (choiceIndex b + 1 + 1 * n)%Z by lia.
        rewrite Z.mod_add by lia. apply Z.mod_small. lia. }
    rewrite Eu, Ed. repeat split; try done.
    + destruct (choiceIndex b =? 0)%Z eqn:E; lia.
    + destruct (Z.eqb_spec (choiceIndex b) 0); lia.
    + destruct (choiceIndex b =? n - 1)%Z eqn:E; lia.
    + destruct (Z.eqb_spec (choiceIndex b) (n - 1)); lia.
  - intros Hc. unfold _onUp, _onDown, moveChoice. rewrite Hc.
    by rewrite !orb_true_r.
Qed.

(** The escape key closes an active box without calling the completion
    callback: the box is left inactive and unbound, the only call is the
    interaction lock, and the callback is kept as it was. *)
Theorem esc_closes_without_completion (now : Z) (b : Box K) :
  active b = true →
  completions (_onEsc now b).2 = []
  ∧ (_onEsc now b).2 = [CallLockInteract now 240]
  ∧ active (_onEsc now b).1 = false
  ∧ keyHandlersBound (_onEsc now b).1 = false
  ∧ inChoice (_onEsc now b).1 = false
  ∧ onComplete (_onEsc now b).1 = onComplete b.
Proof.
  intros Ha. unfold _onEsc. rewrite Ha. cbn [negb]. unfold stop. cbv zeta.
  repeat split.
Qed.

End DialogueKeys.

Lemma choice_cursor_wraps_witness :
  (active demoBox = true ∧ inChoice demoBox = true ∧ _canAcceptInput 1000 demoBox = true
   ∧ (0 <= choiceIndex demoBox < Z.of_nat (length (choiceOptions demoBox)))%Z)
  ∧ choiceIndex (_onDown 1000 demoBox) = 0 ∧ choiceIndex (_onUp 1000 demoBox) = 0.
Proof.
  assert (Hr : (0 <= choiceIndex demoBox < Z.of_nat (length (choiceOptions demoBox)))%Z)
    by (simpl; lia).
  split; [repeat split; try reflexivity; apply Hr|].
  pose proof (proj1 (choice_cursor_wraps 1000 demoBox) eq_refl eq_refl eq_refl Hr)
    as (Hu & Hd & _).
  split; [exact Hd|exact Hu].
Defined.

Lemma esc_closes_without_completion_witness :
  active demoBox = true
  ∧ completions (_onEsc 1000 demoBox).2 = [] ∧ active (_onEsc 1000 demoBox).1 = false.
Proof.
  split; [reflexivity|].
  pose proof (esc_closes_without_completion 1000 demoBox eq_refl) as (H1 & _ & H3 & _).
  split; [exact H1|exact H3].
Defined.

(** ** Property tables *)


Lemma lowerAscii_idem (a : ascii) : lowerAscii (lowerAscii a) = lowerAscii a.
Proof. destruct a as [[] [] [] [] [] [] [] []]; reflexivity. Qed.

Lemma toLowerCase_idem (s : string) : toLowerCase (toLowerCase s) = toLowerCase s.
Proof.
  induction s as [|a s IH]; [done|]. simpl. by rewrite lowerAscii_idem, IH.
Qed.

Lemma parsePairs_keys raw (out : PropTable) :
  map_Forall (λ k _, nonEmpty k = true ∧ toLowerCase k = k) out →
  map_Forall (λ k _, nonEmpty k = true ∧ toLowerCase k = k) (parsePairs raw out).
Proof.
  revert out. induction raw as [|[name value] raw IH]; intros out Ho; [done|].
  simpl. destruct (nonEmpty _) eqn:E; [|by apply IH].
  apply IH. apply map_Forall_insert_2; [|done].
  split; [done|]. apply toLowerCase_idem.
Qed.

Lemma parsePairs_last raw (out : PropTable) name value :
  nonEmpty (toLowerCase (trim (String_ (nullish name (VStr ""))))) = true →
  parsePairs (raw ++ [(name, value)]) out
    !! toLowerCase (trim (String_ (nullish name (VStr "")))) = Some value.
Proof.
  intros Hn. revert out. induction raw as [|[n0 v0] raw IH]; intros out.
  - simpl. rewrite Hn. simpl. by rewrite lookup_insert_eq.
  - simpl. destruct (nonEmpty (toLowerCase (trim (String_ (nullish n0 (VStr ""))))));
      apply IH.
Qed.

(** [parseProps] stores every property under a non-empty lower-case key,
    and of two properties with the same key the later one wins. *)
Theorem parseProps_keys (raw : list (JsVal * JsVal)) (name value : JsVal) :
  map_Forall (λ k _, nonEmpty k = true ∧ toLowerCase k = k) (parseProps raw)
  ∧ (nonEmpty (toLowerCase (trim (String_ (nullish name (VStr ""))))) = true →
     get (parseProps (raw ++ [(name, value)]))
       (toLowerCase (trim (String_ (nullish name (VStr ""))))) = value).
Proof.
  split.
  - apply parsePairs_keys. apply map_Forall_empty.
  - intros Hn. unfold get, parseProps. by rewrite parsePairs_last.
Qed.

Lemma parseProps_keys_witness :
  nonEmpty (toLowerCase (trim (String_ (nullish (VStr " Speaker ") (VStr ""))))) = true
  ∧ get (parseProps ([(VStr "speaker", VStr "Saga")] ++ [(VStr " Speaker ", VStr "Glad")]))
      (toLowerCase (trim (String_ (nullish (VStr " Speaker ") (VStr ""))))) = VStr "Glad".
Proof.
  split; [reflexivity|].
  exact (proj2 (parseProps_keys [(VStr "speaker", VStr "Saga")] (VStr " Speaker ")
                  (VStr "Glad")) eq_refl).
Defined.

Lemma numberedRun_length props base from n :
  (length (numberedRun props base from n) ≤ n)%nat.
Proof.
  revert from. induction n as [|n IH]; intros from; [done|].
  simpl. destruct (isUndefined _); simpl; [lia|]. specialize (IH (S from)). lia.
Qed.

Lemma propLine_length v : (length (propLine v) ≤ 1)%nat.
Proof.
  unfold propLine. destruct (isUndefined v); [simpl; lia|].
  cbv zeta. destruct (nonEmpty _); simpl; lia.
Qed.

Lemma numberedLines_length props k0 from n :
  (length (numberedLines props k0 from n) ≤ n)%nat.
Proof.
  revert from. induction n as [|n IH]; intros from; [done|].
  simpl. destruct (has _ _); simpl; [|lia].
  rewrite length_app. pose proof (propLine_length (get props (numberedKey k0 from))).
  specialize (IH (S from)). lia.
Qed.

(** The numbered-key collector returns at most 99 keys and the line
    collector at most 50 lines. *)
Theorem numbered_collectors_bounded (props : PropTable) (base : string) :
  (length (_getNumberedKeys props base) ≤ 99)%nat
  ∧ (length (_getNumberedPropLines props base) ≤ 50)%nat.
Proof.
  split.
  - unfold _getNumberedKeys. rewrite length_app.
    pose proof (numberedRun_length props base 2 98) as H.
    set (r := numberedRun props base 2 98) in *. clearbody r.
    destruct (isUndefined _); simpl; lia.
  - unfold _getNumberedPropLines. cbv zeta. destruct (nonEmpty _); [|simpl; lia].
    rewrite length_app.
    pose proof (propLine_length (get props (toLowerCase (trim base)))).
    pose proof (numberedLines_length props (toLowerCase (trim base)) 2 49) as H'.
    set (r := numberedLines props (toLowerCase (trim base)) 2 49) in *. clearbody r.
    lia.
Qed.

(** ** Effects that are applied once, and forced states *)

Lemma giveOnce_flag_kept sc id item v g :
  _getAnyFlag (_flagKey "__give_once" [VStr (sceneKey sc); VStr id; VStr item])
    (_setAnyFlag "__strawberryBushes" v g)
  = _getAnyFlag (_flagKey "__give_once" [VStr (sceneKey sc); VStr id; VStr item]) g.
Proof. by apply getAnyFlag_set_ne. Qed.

(** An item given or taken once is given or taken once: a second pass of
    the loop body changes nothing, and from a guard that is not set the
    inventory holds one more of the item. *)
Theorem item_once_applied_once (sc : SceneCtx) (id item : string) (g : GameState) :
  giveItemOnce sc id item (giveItemOnce sc id item g) = giveItemOnce sc id item g
  ∧ takeItemOnce sc id item (takeItemOnce sc id item g) = takeItemOnce sc id item g
  ∧ (isTrue (_getAnyFlag (_flagKey "__give_once" [VStr (sceneKey sc); VStr id; VStr item])
               g) = false →
     nonEmpty (trim item) = true →
     default 0 (inventory (giveItemOnce sc id item (giveItemOnce sc id item g)) !! trim item)
     = default 0 (inventory g !! trim item) + 1).
Proof.
  assert (Hidem : giveItemOnce sc id item (giveItemOnce sc id item g)
                  = giveItemOnce sc id item g).
  { assert (H : ∀ g', isTrue (_getAnyFlag (_flagKey "__give_once"
                        [VStr (sceneKey sc); VStr id; VStr item]) g') = true →
                      giveItemOnce sc id item g' = g').
    { intros g' Hg. unfold giveItemOnce. cbv zeta. by rewrite Hg. }
    apply H. unfold giveItemOnce. cbv zeta.
    destruct (isTrue (_getAnyFlag _ g)) eqn:E; [exact E|].
    destruct (_ && _).
    - by rewrite giveOnce_flag_kept, getAnyFlag_set_eq.
    - by rewrite getAnyFlag_set_eq. }
  split; [exact Hidem|]. split.
  - assert (H : ∀ g', isTrue (_getAnyFlag (_flagKey "__take_once"
                        [VStr (sceneKey sc); VStr id; VStr item]) g') = true →
                      takeItemOnce sc id item g' = g').
    { intros g' Hg. unfold takeItemOnce. cbv zeta. by rewrite Hg. }
    apply H. unfold takeItemOnce. cbv zeta.
    destruct (isTrue (_getAnyFlag _ g)) eqn:E; [exact E|].
    by rewrite getAnyFlag_set_eq.
  - intros Hf Hn. rewrite Hidem. unfold giveItemOnce. cbv zeta. rewrite Hf.
    assert (Hi : default 0 (inventory (addItem item 1 g) !! trim item)
                 = default 0 (inventory g !! trim item) + 1).
    { unfold addItem. rewrite Hn. cbn [inventory setInventory].
      by rewrite lookup_insert_eq. }
    by destruct (_ && _).
Qed.

Lemma item_once_applied_once_witness :
  (isTrue (_getAnyFlag (_flagKey "__give_once"
             [VStr (sceneKey chestScene); VStr "strawberrybush1"; VStr "strawberry"])
             GS.initial) = false
   ∧ nonEmpty (trim "strawberry") = true)
  ∧ default 0 (inventory (giveItemOnce chestScene "strawberrybush1" "strawberry"
                            (giveItemOnce chestScene "strawberrybush1" "strawberry"
                               GS.initial)) !! trim "strawberry")
    = default 0 (inventory GS.initial !! trim "strawberry") + 1.
Proof.
  split; [split; reflexivity|].
  exact (proj2 (proj2 (item_once_applied_once chestScene "strawberrybush1" "strawberry"
                         GS.initial)) eq_refl eq_refl).
Defined.

Lemma forcedFlags_apart sk id : forcedEnabledFlag sk id ≠ forcedDisabledFlag sk id.
Proof.
  intros E.
  assert (H : startsWith "__int_forced_e" (forcedEnabledFlag sk id) = true) by reflexivity.
  rewrite E in H. discriminate H.
Qed.

(** Forcing an interaction disabled and forcing it enabled exclude each
    other: after either call exactly that forced state holds, also when
    the other one held before; withdrawing a forced state clears it. *)
Theorem forced_states_exclusive (sk id : string) (g : GameState) :
  (_isInteractionForcedDisabled sk id (_setInteractionForcedDisabled sk id true g) = true
   ∧ _isInteractionForcedEnabled sk id (_setInteractionForcedDisabled sk id true g) = false)
  ∧ (_isInteractionForcedEnabled sk id (_setInteractionForcedEnabled sk id true g) = true
     ∧ _isInteractionForcedDisabled sk id (_setInteractionForcedEnabled sk id true g) = false)
  ∧ _isInteractionForcedDisabled sk id (_setInteractionForcedDisabled sk id false g) = false
  ∧ _isInteractionForcedEnabled sk id (_setInteractionForcedEnabled sk id false g) = false.
Proof.
  pose proof (forcedFlags_apart sk id) as Hne.
  unfold _isInteractionForcedDisabled, _isInteractionForcedEnabled,
    _setInteractionForcedDisabled, _setInteractionForcedEnabled.
  repeat split.
  - by rewrite getAnyFlag_set_ne, getAnyFlag_set_eq.
  - by rewrite getAnyFlag_set_eq.
  - by rewrite getAnyFlag_set_ne, getAnyFlag_set_eq.
  - by rewrite getAnyFlag_set_eq.
  - by rewrite getAnyFlag_set_eq.
  - by rewrite getAnyFlag_set_eq.
Qed.

Lemma splitTarget_id sep s sk id :
  splitTarget sep s = Some (sk, id) → nonEmpty sk = true ∧ nonEmpty id = true.
Proof.
  unfold splitTarget. destruct (indexOfChar sep s) as [[|i]|]; try done.
  cbv zeta. destruct (_ && _) eqn:E; [|done]. intros [= <- <-].
  by apply andb_prop in E.
Qed.

(** A target is parsed to a non-empty id, and only a blank target is
    refused. *)
Theorem parseInteractionTarget_id (raw def sk id : string) :
  (_parseInteractionTarget raw def = Some (sk, id) → nonEmpty id = true)
  ∧ (_parseInteractionTarget raw def = None ↔ nonEmpty (trim raw) = false).
Proof.
  unfold _parseInteractionTarget. cbv zeta.
  destruct (nonEmpty (trim raw)) eqn:En; cbn [negb].
  - split.
    + destruct (splitTarget ":" _) as [t|] eqn:E1.
      { intros [= ->]. by apply splitTarget_id in E1 as [_ ?]. }
      destruct (splitTarget "|" _) as [t|] eqn:E2.
      { intros [= ->]. by apply splitTarget_id in E2 as [_ ?]. }
      destruct (splitTarget "/" _) as [t|] eqn:E3.
      { intros [= ->]. by apply splitTarget_id in E3 as [_ ?]. }
      by intros [= _ <-].
    + split; [|done].
      destruct (splitTarget ":" _); [done|]. destruct (splitTarget "|" _); [done|].
      by destruct (splitTarget "/" _).
  - split; done.
Qed.

Lemma parseInteractionTarget_id_witness :
  _parseInteractionTarget " ForestScene : gate " "CityScene" = Some ("ForestScene", "gate")
  ∧ nonEmpty "gate" = true.
Proof.
  assert (H : _parseInteractionTarget " ForestScene : gate " "CityScene"
              = Some ("ForestScene", "gate")) by (vm_compute; reflexivity).
  split; [exact H|].
  exact (proj1 (parseInteractionTarget_id " ForestScene : gate " "CityScene"
                  "ForestScene" "gate") H).
Defined.

(** ** Trigger zones: the rewind correction *)




(** ** The NPC mover: bookkeeping and intermediate waypoints *)


